(** * Compounding balance and ledger engine: model and verification

    A shallow embedding of the balance and ledger core of the lending
    back office ([backend/crud.py], [backend/timezone_utils.py],
    [backend/models.py], [backend/scripts/audit_consistency.py]) together
    with the properties its specification states about it.

    Modelling conventions.
    - Python [float] money values are exact rationals ([Q]); the builtin
      [round(x, n)] is rounding to [n] decimals with ties to even.
      Comparisons of rationals are by value ([==], [<=]).
    - A [datetime] is an instant counted in microseconds together with
      the flag telling whether it carries a time zone; a naive value is
      read as Malaysia time, as [ensure_myt_datetime] does.
    - The SQL session is a record of tables.  Tables with a primary key
      that the code looks rows up by are finite maps from the key; the
      two append-only tables are lists in insertion order, every row
      carrying its key.
    - [HTTPException] is the error of a sum type; an operation that
      raises leaves the session as it was (the transaction is not
      committed).
    - Every reading of the clock within one operation gives the same
      instant, the operation's [now].
    - Strings are byte strings; white space and letter case are the
      ASCII ones.
    - The operation log ([_log_operation]) and the free-text [note] of a
      bank transaction are write-only for the code modelled here and are
      left out, as are the columns of the rows that the balance and
      ledger code never reads. *)

From Stdlib Require Import QArith Qround Qabs Lqa ZArith Lia Bool Ascii String.
From stdpp Require Import gmap strings list.

Open Scope Q_scope.

(** ** Numbers *)

Notation "x <=? y" := (Qle_bool x y) : Q_scope.
Notation "x <? y" := (negb (Qle_bool y x)) : Q_scope.

(** [max(a, b)] of Python: the first argument unless the second is
    strictly greater. *)
Definition py_max (a b : Q) : Q := if a <? b then b else a.

(** Rounding to the nearest integer, ties to the even neighbour. *)
Definition round_half_even (x : Q) : Z :=
  let f := Qfloor x in
  match Qcompare (x - inject_Z f) (1 # 2) with
  | Lt => f
  | Gt => (f + 1)%Z
  | Eq => if Z.even f then f else (f + 1)%Z
  end.

(** [round(x, ndigits)]. *)
Definition py_round (x : Q) (ndigits : nat) : Q :=
  let scale := inject_Z (10 ^ Z.of_nat ndigits) in
  inject_Z (round_half_even (x * scale)) / scale.

(** The threshold [1e-9] used all over [crud.py]. *)
Definition eps : Q := 1 # 1000000000.

Definition COMPOUND_INTEREST_RATE : Q := 20 # 100.

(** [_round_amount]: [float(value or 0.0)] rounded to two decimals. *)
Definition _round_amount (value : Q) : Q := py_round value 2.

(** [_initial_compounded_amount]. *)
Definition _initial_compounded_amount (loan_amount : Q) : Q :=
  let base := py_max loan_amount 0 in
  let compounded := base * (1 + COMPOUND_INTEREST_RATE) in
  py_round compounded 2.

(** A money amount with two decimals. *)
Definition is_cents (x : Q) : Prop := exists n : Z, x == inject_Z n / 100.

(** ** Time *)

Record datetime := mk_datetime { tz_aware : bool; ticks : Z }.

Definition aware (t : Z) : datetime := mk_datetime true t.

(** [timedelta(days=30)], in microseconds. *)
Definition COMPOUND_INTERVAL : Z := 30 * 86400 * 1000000.

Definition dt_add (d : datetime) (delta : Z) : datetime :=
  mk_datetime (tz_aware d) (ticks d + delta).

(** [ensure_myt_datetime] on a [datetime] column: a naive value is
    taken to be Malaysia time already, an aware one is converted, which
    keeps the instant. *)
Definition ensure_myt_datetime (value : option datetime) : option datetime :=
  match value with
  | None => None
  | Some d => Some (mk_datetime true (ticks d))
  end.

Definition to_myt_datetime := ensure_myt_datetime.

(** [_safe_myt]. *)
Definition _safe_myt (value fallback : option datetime) : option datetime :=
  match to_myt_datetime value with
  | Some converted => Some converted
  | None =>
      match fallback with
      | None => value
      | Some _ =>
          match to_myt_datetime fallback with
          | Some c => Some c
          | None => fallback
          end
      end
  end.

(** Python's [==] on optional datetimes: a naive and an aware value are
    never equal; two values of the same kind are equal when they denote
    the same instant. *)
Definition dt_eqb (a b : option datetime) : bool :=
  match a, b with
  | None, None => true
  | Some x, Some y => Bool.eqb (tz_aware x) (tz_aware y) && (ticks x =? ticks y)%Z
  | _, _ => false
  end.

(** ** Rows *)

Module BankTransaction.
Record t := mk {
    id : Z;
    transaction_type : string;
    amount : Q;
    balance_after : Q;
    reference_type : option string;
    reference_id : option Z;
    customer_id : option Z
}.
End BankTransaction.

(** The metadata dictionaries attached to balance events. *)
Inductive jvalue :=
| JNull
| JInt (z : Z)
| JNum (q : Q)
| JStr (s : string).

Module CompoundBalanceEvent.
Record t := mk {
    id : Z;
    customer_id : Z;
    event_type : string;
    event_time : datetime;
    change_amount : Q;
    balance_after : Q;
    description : string;
    metadata : option (list (string * jvalue))
}.
End CompoundBalanceEvent.

Module Customer.
Record t := mk {
    id : option Z;
    customer_code : string;
    projected_balance : Q;
    last_principal : Q;
    next_compound_at : option datetime
}.
Definition set_projected_balance (c : t) (v : Q) : t :=
    mk (id c) (customer_code c) v (last_principal c) (next_compound_at c).
Definition set_last_principal (c : t) (v : Q) : t :=
    mk (id c) (customer_code c) (projected_balance c) v (next_compound_at c).
Definition set_next_compound_at (c : t) (v : option datetime) : t :=
    mk (id c) (customer_code c) (projected_balance c) (last_principal c) v.
Definition set_id (c : t) (v : option Z) : t :=
    mk v (customer_code c) (projected_balance c) (last_principal c) (next_compound_at c).
Definition set_customer_code (c : t) (v : string) : t :=
    mk (id c) v (projected_balance c) (last_principal c) (next_compound_at c).
End Customer.

Module Loan.
Record t := mk {
    id : option Z;
    customer_id : Z;
    loan_code : string;
    loan_date : option datetime;
    loan_amount : Q;
    processing_fee : Q
}.
Definition set_id (l : t) (v : option Z) : t :=
    mk v (customer_id l) (loan_code l) (loan_date l) (loan_amount l) (processing_fee l).
Definition set_loan_code (l : t) (v : string) : t :=
    mk (id l) (customer_id l) v (loan_date l) (loan_amount l) (processing_fee l).
Definition set_loan_date (l : t) (v : option datetime) : t :=
    mk (id l) (customer_id l) (loan_code l) v (loan_amount l) (processing_fee l).
Definition set_loan_amount (l : t) (v : Q) : t :=
    mk (id l) (customer_id l) (loan_code l) (loan_date l) v (processing_fee l).
End Loan.

Module Repayment.
Record t := mk {
    id : option Z;
    customer_id : Z;
    loan_id : option Z;
    repayment_date : option datetime;
    repayment_amount : Q
}.
Definition set_id (r : t) (v : option Z) : t :=
    mk v (customer_id r) (loan_id r) (repayment_date r) (repayment_amount r).
Definition set_repayment_date (r : t) (v : option datetime) : t :=
    mk (id r) (customer_id r) (loan_id r) v (repayment_amount r).
Definition set_repayment_amount (r : t) (v : Q) : t :=
    mk (id r) (customer_id r) (loan_id r) (repayment_date r) v.
End Repayment.

(** ** The session *)

Record Session := mk_session {
  customers : gmap Z Customer.t;
  loans : gmap Z Loan.t;
  repayments : gmap Z Repayment.t;
  balance_events : list CompoundBalanceEvent.t;
  bank_transactions : list BankTransaction.t
}.

Definition empty_session : Session := mk_session ∅ ∅ ∅ [] [].

Definition set_customers (s : Session) (v : gmap Z Customer.t) : Session :=
  mk_session v (loans s) (repayments s) (balance_events s) (bank_transactions s).
Definition set_loans (s : Session) (v : gmap Z Loan.t) : Session :=
  mk_session (customers s) v (repayments s) (balance_events s) (bank_transactions s).
Definition set_repayments (s : Session) (v : gmap Z Repayment.t) : Session :=
  mk_session (customers s) (loans s) v (balance_events s) (bank_transactions s).
Definition set_balance_events (s : Session) (v : list CompoundBalanceEvent.t) : Session :=
  mk_session (customers s) (loans s) (repayments s) v (bank_transactions s).
Definition set_bank_transactions (s : Session) (v : list BankTransaction.t) : Session :=
  mk_session (customers s) (loans s) (repayments s) (balance_events s) v.

(** The key an auto-increment column gives the next row of a table. *)
Definition next_key {A} (key : A -> Z) (rows : list A) : Z :=
  1 + fold_left (fun m row => Z.max m (key row)) rows 0%Z.

Definition next_map_key {A} (m : gmap Z A) : Z :=
  1 + map_fold (fun k _ acc => Z.max acc k) 0%Z m.

(** ** Bank transaction ledger *)

(** [_latest_bank_transaction]: [ORDER BY id DESC LIMIT 1]. *)
Definition _latest_bank_transaction (session : Session) : option BankTransaction.t :=
  fold_left
    (fun best row =>
       match best with
       | None => Some row
       | Some b =>
           if (BankTransaction.id b <? BankTransaction.id row)%Z then Some row else Some b
       end)
    (bank_transactions session) None.

Definition get_bank_balance (session : Session) : Q :=
  match _latest_bank_transaction session with
  | None => 0
  | Some latest => _round_amount (BankTransaction.balance_after latest)
  end.

Definition record_bank_transaction (session : Session)
    (transaction_type : string) (amount : Q)
    (reference_type : option string) (reference_id : option Z)
    (customer_id : option Z) : option BankTransaction.t * Session :=
  let normalized_amount := _round_amount amount in
  if Qabs normalized_amount <=? eps then (None, session)
  else
    let current_balance := get_bank_balance session in
    let new_balance := _round_amount (current_balance + normalized_amount) in
    let entry :=
      BankTransaction.mk
        (next_key BankTransaction.id (bank_transactions session))
        transaction_type normalized_amount new_balance
        reference_type reference_id customer_id in
    (Some entry, set_bank_transactions session (bank_transactions session ++ [entry])).

(** A request to append to the ledger: the keyword arguments of
    [record_bank_transaction]. *)
Record append_request := mk_append {
  req_type : string;
  req_amount : Q;
  req_reference_type : option string;
  req_reference_id : option Z;
  req_customer_id : option Z
}.

Definition append (session : Session) (r : append_request) : Session :=
  snd (record_bank_transaction session (req_type r) (req_amount r)
         (req_reference_type r) (req_reference_id r) (req_customer_id r)).


Definition Qsum (l : list Q) : Q := fold_right Qplus 0 l.

(** Case analysis on a comparison of rationals. *)
Ltac qcase x y :=
  let E := fresh "E" in
  destruct (Qle_bool x y) eqn:E;
  [ apply Qle_bool_iff in E
  | assert (y < x)
      by (apply Qnot_le_lt; let Hle := fresh in
          intros Hle; apply Qle_bool_iff in Hle; congruence);
    clear E ].

(** The running sum the specification gives for row [i] (counted from
    0) of the ledger. *)
Definition running_sum_at (rows : list BankTransaction.t) (i : nat) : Q :=
  Qsum (BankTransaction.amount <$> take (S i) rows).

(** Ledger rows are numbered 1, 2, ... in insertion order. *)
Definition ledger_keys_ok (rows : list BankTransaction.t) : Prop :=
  forall (i : nat) row, rows !! i = Some row -> BankTransaction.id row = Z.of_nat (S i).

Definition ledger_row_ok (rows : list BankTransaction.t) (i : nat)
    (row : BankTransaction.t) : Prop :=
  is_cents (BankTransaction.amount row) /\
  ~ BankTransaction.amount row == 0 /\
  BankTransaction.balance_after row == running_sum_at rows i.

Definition ledger_inv (rows : list BankTransaction.t) : Prop :=
  ledger_keys_ok rows /\
  forall (i : nat) row, rows !! i = Some row -> ledger_row_ok rows i row.

(** ** Errors *)

(** [loan.loan_code or f"ID {loan.id}"]. *)
Inductive loan_label :=
| LabelCode (code : string)
| LabelId (id : option Z).

(** The [detail] of an [HTTPException]: a fixed text, or one of the
    formatted messages about a loan's compounded balance. *)
Inductive detail :=
| Detail (text : string)
| BalanceExhausted (label : loan_label)
| BalanceRemaining (label : loan_label) (allowed : Q)
| BalanceExhaustedAdjust (code : string).

Record HTTPException := mk_exn { status_code : Z; exn_detail : detail }.

Definition result (A : Type) : Type := HTTPException + A.

Definition raise {A} (status : Z) (d : detail) : result A := inl (mk_exn status d).

Definition bind {A B} (r : result A) (k : A -> result B) : result B :=
  match r with
  | inl e => inl e
  | inr a => k a
  end.

Notation "x <- r ;; k" := (bind r (fun x => k))
  (at level 100, r at next level, right associativity).

(** ** Loan balance guard *)

Definition opt_Z_eqb (a b : option Z) : bool :=
  match a, b with
  | Some x, Some y => (x =? y)%Z
  | None, None => true
  | _, _ => false
  end.

(** The rows of [WHERE Repayment.loan_id == loan.id], with
    [AND Repayment.id != exclude_repayment_id] when an id is given.  A
    comparison with [NULL] selects nothing. *)
Definition repayments_on_loan (session : Session) (loan : Loan.t)
    (exclude_repayment_id : option Z) : list Repayment.t :=
  let selected (row : Z * Repayment.t) : bool :=
    match Loan.id loan, Repayment.loan_id (snd row) with
    | Some lid, Some rid => (rid =? lid)%Z
    | _, _ => false
    end &&
    match exclude_repayment_id with
    | Some ex => negb (fst row =? ex)%Z
    | None => true
    end in
  snd <$> List.filter selected (map_to_list (repayments session)).

(** [coalesce(sum(abs(repayment_amount)), 0)] over those rows. *)
Definition paid_total (session : Session) (loan : Loan.t)
    (exclude_repayment_id : option Z) : Q :=
  Qsum ((fun r => Qabs (Repayment.repayment_amount r))
          <$> repayments_on_loan session loan exclude_repayment_id).

Definition _loan_remaining_compounded_balance (session : Session) (loan : Loan.t)
    (exclude_repayment_id : option Z) : Q :=
  let base_amount := _initial_compounded_amount (Loan.loan_amount loan) in
  let remaining := base_amount - paid_total session loan exclude_repayment_id in
  py_max (_round_amount remaining) 0.

Definition label_of (loan : Loan.t) : loan_label :=
  if String.eqb (Loan.loan_code loan) "" then LabelId (Loan.id loan)
  else LabelCode (Loan.loan_code loan).

(** [_ensure_repayment_within_loan_balance].  It only queries the
    session; the value it returns on success is the session it leaves
    behind. *)
Definition _ensure_repayment_within_loan_balance (session : Session) (loan : Loan.t)
    (amount : Q) (exclude_repayment_id : option Z) : result Session :=
  let normalized_amount := py_max (_round_amount (Qabs amount)) 0 in
  let allowed := _loan_remaining_compounded_balance session loan exclude_repayment_id in
  let loan_label := label_of loan in
  if (allowed <=? 0) && (0 <? normalized_amount) then
    raise 400 (BalanceExhausted loan_label)
  else if eps <? normalized_amount - allowed then
    raise 400 (BalanceRemaining loan_label allowed)
  else inr session.

(** The two rejections the specification calls [InsufficientLoanBalance]. *)
Definition is_InsufficientLoanBalance (e : HTTPException) : bool :=
  (status_code e =? 400)%Z &&
  match exn_detail e with
  | BalanceExhausted _ | BalanceRemaining _ _ => true
  | _ => false
  end.

(** The guard as the specification words it: [compounded(x)],
    [remainingBalance] and the condition under which
    [assertWithinBalance] fails, on the proposed amount as given. *)
Definition compounded (x : Q) : Q := py_round (x * (1 + COMPOUND_INTEREST_RATE)) 2.

Definition remainingBalance_spec (session : Session) (loan : Loan.t)
    (excludeRepaymentId : option Z) : Q :=
  py_max 0 (compounded (Loan.loan_amount loan)
            - paid_total session loan excludeRepaymentId).

Definition assertWithinBalance_fails_spec (session : Session) (loan : Loan.t)
    (proposedAmount : Q) (excludeRepaymentId : option Z) : bool :=
  let remainingBalance := remainingBalance_spec session loan excludeRepaymentId in
  ((remainingBalance <=? 0) && (0 <? proposedAmount))
  || (eps <? proposedAmount - remainingBalance).

(** Sample rows used in the examples. *)
Definition sample_loan (amount : Q) : Loan.t :=
  Loan.mk (Some 1%Z) 1%Z "LN-0001" (Some (aware 0)) amount 0.

Definition sample_session_with_loan (amount : Q) : Session :=
  set_loans empty_session (<[1%Z := sample_loan amount]> ∅).

(** ** Balance event ledger *)

(** Truth value of [customer.id]: [None] and [0] are false. *)
Definition id_of (customer : Customer.t) : option Z :=
  match Customer.id customer with
  | Some cid => if (cid =? 0)%Z then None else Some cid
  | None => None
  end.

(** [_record_balance_event].  [clock] is what [now_myt()] returns when
    no [event_time] is given. *)
Definition _record_balance_event (session : Session) (customer : Customer.t)
    (event_type : string) (change_amount : Q) (description : string)
    (metadata : option (list (string * jvalue))) (event_time : option datetime)
    (clock : Z) : option CompoundBalanceEvent.t * Session :=
  match id_of customer with
  | None => (None, session)
  | Some cid =>
      if Qabs change_amount <=? eps then (None, session)
      else
        let payload :=
          match metadata with
          | Some (kv :: rest) => Some (kv :: rest)
          | _ => None
          end in
        let event :=
          CompoundBalanceEvent.mk
            (next_key CompoundBalanceEvent.id (balance_events session))
            cid event_type
            (match _safe_myt event_time event_time with
             | Some t => t
             | None => aware clock
             end)
            (_round_amount change_amount)
            (_round_amount (py_max (Customer.projected_balance customer) 0))
            description payload in
        (Some event, set_balance_events session (balance_events session ++ [event]))
  end.

Definition events_of (session : Session) (customer_id : Z) : list CompoundBalanceEvent.t :=
  List.filter (fun e => (CompoundBalanceEvent.customer_id e =? customer_id)%Z)
    (balance_events session).

(** [_ensure_balance_event_baseline]. *)
Definition _ensure_balance_event_baseline (session : Session) (customer : Customer.t)
    (clock : Z) : Session :=
  match id_of customer with
  | None => session
  | Some cid =>
      match events_of session cid with
      | _ :: _ => session
      | [] =>
          let balance := _round_amount (py_max (Customer.projected_balance customer) 0) in
          if balance <=? 0 then session
          else
            let baseline :=
              CompoundBalanceEvent.mk
                (next_key CompoundBalanceEvent.id (balance_events session))
                cid "baseline" (aware clock) balance balance
                "初始化复利余额" (Some [("source", JStr "baseline")]) in
            set_balance_events session (balance_events session ++ [baseline])
      end
  end.

(** ** Balance compounding calculator *)

(** The local state of the loop of [_apply_compound_growth]. *)
Record growth_state := mk_growth {
  g_customer : Customer.t;
  g_session : option Session;
  g_projected : Q;
  g_next_compound_at : datetime;
  g_updated : bool
}.

(** One turn of the loop body. *)
Definition growth_step (now : Z) (st : growth_state) : growth_state :=
  let previous_balance := g_projected st in
  let projected := py_round (g_projected st * (1 + COMPOUND_INTEREST_RATE)) 2 in
  let increment := projected - previous_balance in
  let customer := Customer.set_projected_balance (g_customer st) projected in
  let session :=
    match g_session st with
    | Some s =>
        if eps <? increment then
          Some (snd (_record_balance_event s customer "compound_growth" increment
                       "复利增长"
                       (Some [("base_amount", JNum previous_balance);
                              ("result_amount", JNum projected);
                              ("interest_rate",
                               JNum (py_round (COMPOUND_INTEREST_RATE * 100) 4))])
                       (Some (g_next_compound_at st)) now))
        else Some s
    | None => None
    end in
  let next_compound_at := dt_add (g_next_compound_at st) COMPOUND_INTERVAL in
  let customer := Customer.set_next_compound_at customer (Some next_compound_at) in
  mk_growth customer session projected next_compound_at true.

(** [while next_compound_at and next_compound_at <= now]. *)
Fixpoint growth_loop (fuel : nat) (now : Z) (st : growth_state) : growth_state :=
  match fuel with
  | O => st
  | S fuel' =>
      if (ticks (g_next_compound_at st) <=? now)%Z
      then growth_loop fuel' now (growth_step now st)
      else st
  end.

(** The number of period boundaries from [next_compound_at] up to [now];
    the loop needs no more turns. *)
Definition periods_due (now : Z) (next_compound_at : datetime) : nat :=
  Z.to_nat ((now - ticks next_compound_at) / COMPOUND_INTERVAL + 1).

(** [_apply_compound_growth]. *)
Definition _apply_compound_growth (customer : Customer.t) (now : Z)
    (session : option Session) : bool * Customer.t * option Session :=
  let updated := false in
  let projected := py_max (Customer.projected_balance customer) 0 in
  let next_compound_at := ensure_myt_datetime (Customer.next_compound_at customer) in
  let '(customer, updated) :=
    if negb (dt_eqb next_compound_at (Customer.next_compound_at customer))
    then (Customer.set_next_compound_at customer next_compound_at, true)
    else (customer, updated) in
  if projected <=? 0 then
    let '(customer, updated) :=
      if negb (Qeq_bool (Customer.projected_balance customer) 0)
      then (Customer.set_projected_balance customer 0, true)
      else (customer, updated) in
    let '(customer, updated) :=
      match Customer.next_compound_at customer with
      | Some _ => (Customer.set_next_compound_at customer None, true)
      | None => (customer, updated)
      end in
    (updated, customer, session)
  else
    let '(next_compound_at, customer, updated) :=
      match next_compound_at with
      | None =>
          let next_compound_at := aware (now + COMPOUND_INTERVAL) in
          (next_compound_at,
           Customer.set_next_compound_at customer (Some next_compound_at), true)
      | Some t => (t, customer, updated)
      end in
    let st :=
      growth_loop (periods_due now next_compound_at) now
        (mk_growth customer session projected next_compound_at updated) in
    let customer := g_customer st in
    let projected := g_projected st in
    let '(customer, updated) :=
      if eps <? Qabs (projected - Customer.projected_balance customer)
      then (Customer.set_projected_balance customer projected, true)
      else (customer, g_updated st) in
    (updated, customer, g_session st).

(** [_adjust_projected_balance]. *)
Definition _adjust_projected_balance (customer : Customer.t) (delta : Q) (now : Z)
    (session : option Session) : bool * Customer.t * option Session :=
  if Qabs delta <=? eps then (false, customer, session)
  else
    let '(updated, customer, session) := _apply_compound_growth customer now session in
    let projected := py_max (Customer.projected_balance customer) 0 in
    let projected := py_max (projected + delta) 0 in
    let projected := py_round projected 2 in
    let '(customer, updated) :=
      if eps <? Qabs (projected - Customer.projected_balance customer)
      then (Customer.set_projected_balance customer projected, true)
      else (customer, updated) in
    if projected <=? 0 then
      match Customer.next_compound_at customer with
      | Some _ => (true, Customer.set_next_compound_at customer None, session)
      | None => (updated, customer, session)
      end
    else
      let next_compound_at := ensure_myt_datetime (Customer.next_compound_at customer) in
      let '(customer, updated) :=
        if negb (dt_eqb next_compound_at (Customer.next_compound_at customer))
        then (Customer.set_next_compound_at customer next_compound_at, true)
        else (customer, updated) in
      let '(customer, updated) :=
        match Customer.next_compound_at customer with
        | None =>
            (Customer.set_next_compound_at customer
               (Some (aware (now + COMPOUND_INTERVAL))), true)
        | Some _ => (customer, updated)
        end in
      (updated, customer, session).

(** [_refresh_compounded_balance]. *)
Definition _refresh_compounded_balance (customer : Customer.t) (actual_balance : Q)
    (now : Z) (session : option Session)
    : (Q * option datetime * bool) * Customer.t * option Session :=
  let recorded := Customer.last_principal customer in
  let delta := actual_balance - recorded in
  let '(updated, customer, session) :=
    if eps <? Qabs delta then
      let '(_, customer, session) := _adjust_projected_balance customer delta now session in
      (true, Customer.set_last_principal customer actual_balance, session)
    else _apply_compound_growth customer now session in
  ((Customer.projected_balance customer, Customer.next_compound_at customer, updated),
   customer, session).

(** The balance after [n] compounding periods. *)
Definition compound_n (n : nat) (balance : Q) : Q :=
  Nat.iter n (fun b => py_round (b * (1 + COMPOUND_INTEREST_RATE)) 2) balance.

(** What a balance event says, its key and metadata apart. *)
Definition event_view (e : CompoundBalanceEvent.t) : Z * string * datetime * Q * Q :=
  (CompoundBalanceEvent.customer_id e, CompoundBalanceEvent.event_type e,
   CompoundBalanceEvent.event_time e, CompoundBalanceEvent.change_amount e,
   CompoundBalanceEvent.balance_after e).

(** The growth event of period [k] (from 0) of a balance [balance]
    whose first boundary is at [t0]. *)
Definition growth_view (customer_id : Z) (balance : Q) (t0 : Z) (k : nat)
    : Z * string * datetime * Q * Q :=
  (customer_id, "compound_growth",
   aware (t0 + Z.of_nat k * COMPOUND_INTERVAL),
   _round_amount (compound_n (S k) balance - compound_n k balance),
   _round_amount (py_max (compound_n (S k) balance) 0)).

(** The periods among the first [n] in which the balance grows by more
    than [1e-9]. *)
Definition growing_periods (balance : Q) (n : nat) : list nat :=
  List.filter (fun k => eps <? compound_n (S k) balance - compound_n k balance) (seq 0 n).

Definition sample_customer (balance : Q) (next_compound_at : option datetime) : Customer.t :=
  Customer.mk (Some 1%Z) "CUST-000001" balance balance next_compound_at.

(** [s'] differs from [s] at most in its balance events. *)
Definition same_but_events (s s' : Session) : Prop :=
  customers s' = customers s /\ loans s' = loans s /\
  repayments s' = repayments s /\ bank_transactions s' = bank_transactions s.

Definition due (customer : Customer.t) (now : Z) : Prop :=
  match Customer.next_compound_at customer with
  | Some t => (ticks t <= now)%Z
  | None => False
  end.

(** The statements of [_apply_compound_growth] from the loop on, once
    the first boundary [next_compound_at] has been fixed. *)
Definition run_growth (now : Z) (customer : Customer.t) (session : option Session)
    (projected : Q) (next_compound_at : datetime) (updated : bool)
    : bool * Customer.t * option Session :=
  let st :=
    growth_loop (periods_due now next_compound_at) now
      (mk_growth customer session projected next_compound_at updated) in
  let customer := g_customer st in
  let projected := g_projected st in
  let '(customer, updated) :=
    if eps <? Qabs (projected - Customer.projected_balance customer)
    then (Customer.set_projected_balance customer projected, true)
    else (customer, g_updated st) in
  (updated, customer, g_session st).

(** The first boundary [_apply_compound_growth] works from. *)
Definition first_boundary (customer : Customer.t) (now : Z) : datetime :=
  match ensure_myt_datetime (Customer.next_compound_at customer) with
  | Some t => t
  | None => aware (now + COMPOUND_INTERVAL)
  end.

Definition day : Z := 86400 * 1000000.

(** An instant used as "now" in the examples. *)
Definition sample_now : Z := 20000 * day.

(** ** Strings *)

(** [str.isspace] on one byte. *)
Definition is_space (a : ascii) : bool :=
  let n := nat_of_ascii a in
  ((9 <=? n)%nat && (n <=? 13)%nat) || ((28 <=? n)%nat && (n <=? 32)%nat).

Fixpoint lstrip (l : list ascii) : list ascii :=
  match l with
  | a :: l' => if is_space a then lstrip l' else l
  | [] => []
  end.

(** [str.strip()]. *)
Definition str_strip (s : string) : string :=
  string_of_list_ascii (rev (lstrip (rev (lstrip (list_ascii_of_string s))))).

Definition upper_ascii (a : ascii) : ascii :=
  let n := nat_of_ascii a in
  if (97 <=? n)%nat && (n <=? 122)%nat then ascii_of_nat (n - 32) else a.

(** [str.upper()]. *)
Definition str_upper (s : string) : string :=
  string_of_list_ascii (upper_ascii <$> list_ascii_of_string s).

(** [(code or "").strip().upper()]. *)
Definition normalize_code (code : string) : string := str_upper (str_strip code).

(** ** Operations *)

(** Truth value of an optional key: [None] and [0] are false. *)
Definition truthy (o : option Z) : option Z :=
  match o with
  | Some z => if (z =? 0)%Z then None else Some z
  | None => None
  end.

(** The key a row gets when it is flushed: its own if it has one, the
    next of the table otherwise.  A key that is taken is an integrity
    error of the database. *)
Definition flush_key {A} (given : option Z) (table : gmap Z A) : result Z :=
  match given with
  | None => inr (next_map_key table)
  | Some k =>
      match table !! k with
      | None => inr k
      | Some _ => raise 500 (Detail "IntegrityError")
      end
  end.

Definition get_customer (session : Session) (customer_id : Z) : result Customer.t :=
  match customers session !! customer_id with
  | Some customer => inr customer
  | None => raise 404 (Detail "Customer not found")
  end.

(** [session.add(customer)]: the row of the customer that was loaded
    under [customer_id]. *)
Definition save_customer (session : Session) (customer_id : Z) (customer : Customer.t)
    : Session :=
  set_customers session (<[customer_id := customer]> (customers session)).

(** [get_loan_by_code]. *)
Definition get_loan_by_code (session : Session) (loan_code : string) : result Loan.t :=
  let normalized := normalize_code loan_code in
  if String.eqb normalized "" then raise 400 (Detail "loan_code is required")
  else
    match List.find (fun row => String.eqb (Loan.loan_code (snd row)) normalized)
            (map_to_list (loans session)) with
    | Some row => inr (snd row)
    | None => raise 404 (Detail "Loan not found")
    end.

(** [_ensure_loan_code] for a loan that has a code, as every loan that
    [create_loan] wrote has; the branch that generates and commits a
    code for a loan without one is not modelled. *)
Definition _ensure_loan_code (loan : Loan.t) : string := Loan.loan_code loan.

(** [_loan_code_for]. *)
Definition _loan_code_for (session : Session) (loan_id : option Z) : string :=
  match truthy loan_id with
  | None => ""
  | Some lid =>
      match loans session !! lid with
      | None => ""
      | Some loan => _ensure_loan_code loan
      end
  end.

Definition opt_int (o : option Z) : jvalue :=
  match o with
  | Some z => JInt z
  | None => JNull
  end.

(** [create_customer], for a row built as the API builds it;
    [generated_code] is what [_generate_customer_code] returns. *)
Definition create_customer (session : Session) (data : Customer.t)
    (generated_code : string) : result (Customer.t * Session) :=
  let desired_code := normalize_code (Customer.customer_code data) in
  data <-
    (if String.eqb desired_code "" then inr (Customer.set_customer_code data generated_code)
     else
       match List.find (fun row => String.eqb (Customer.customer_code (snd row)) desired_code)
               (map_to_list (customers session)) with
       | Some _ => raise 400 (Detail "customer_code already exists")
       | None => inr (Customer.set_customer_code data desired_code)
       end) ;;
  key <- flush_key (Customer.id data) (customers session) ;;
  let data := Customer.set_id data (Some key) in
  inr (data, set_customers session (<[key := data]> (customers session))).

(** [create_loan]; [generated_code] is what [_generate_loan_code]
    returns. *)
Definition create_loan (session : Session) (loan : Loan.t) (generated_code : string)
    (now : Z) : result (Loan.t * Session) :=
  customer <- get_customer session (Loan.customer_id loan) ;;
  let loan :=
    Loan.set_loan_date loan
      (match ensure_myt_datetime (Loan.loan_date loan) with
       | Some d => Some d
       | None => Loan.loan_date loan
       end) in
  let loan :=
    Loan.set_loan_code loan
      (if String.eqb (Loan.loan_code loan) "" then generated_code
       else Loan.loan_code loan) in
  let addition := _initial_compounded_amount (Loan.loan_amount loan) in
  let '(_, customer, session') :=
    _adjust_projected_balance customer addition now (Some session) in
  let session := default session session' in
  let customer :=
    Customer.set_last_principal customer (Customer.last_principal customer + addition) in
  let session := save_customer session (Loan.customer_id loan) customer in
  key <- flush_key (Loan.id loan) (loans session) ;;
  let loan := Loan.set_id loan (Some key) in
  let session := set_loans session (<[key := loan]> (loans session)) in
  let '(_, session) :=
    _record_balance_event session customer "loan_disbursement" addition "借贷入账"
      (Some [("loan_id", JInt key);
             ("loan_code", JStr (Loan.loan_code loan));
             ("loan_amount", JNum (Loan.loan_amount loan));
             ("compounded_amount", JNum addition)])
      (match Loan.loan_date loan with
       | Some d => Some d
       | None => Some (aware now)
       end) now in
  let '(_, session) :=
    record_bank_transaction session "loan_disbursement"
      (- _round_amount (Loan.loan_amount loan))
      (Some "loan") (Some key) (Some (Loan.customer_id loan)) in
  inr (loan, session).

(** [create_repayment]. *)
Definition create_repayment (session : Session) (repayment : Repayment.t) (now : Z)
    : result (Repayment.t * Session) :=
  customer <- get_customer session (Repayment.customer_id repayment) ;;
  let loan_ref :=
    match truthy (Repayment.loan_id repayment) with
    | Some lid => loans session !! lid
    | None => None
    end in
  _ <- (match truthy (Repayment.loan_id repayment), loan_ref with
        | Some _, None => raise 404 (Detail "Loan not found")
        | _, _ => inr tt
        end) ;;
  session <-
    (match loan_ref with
     | Some loan =>
         _ensure_repayment_within_loan_balance session loan
           (Repayment.repayment_amount repayment) None
     | None => inr session
     end) ;;
  let repayment :=
    Repayment.set_repayment_date repayment
      (match ensure_myt_datetime (Repayment.repayment_date repayment) with
       | Some d => Some d
       | None => Repayment.repayment_date repayment
       end) in
  let deduction := - Qabs (Repayment.repayment_amount repayment) in
  let '(_, customer, session') := _apply_compound_growth customer now (Some session) in
  let session := default session session' in
  let previous_balance :=
    _round_amount (py_max (Customer.projected_balance customer) 0) in
  let '(_, customer, session') :=
    _adjust_projected_balance customer deduction now (Some session) in
  let session := default session session' in
  let customer :=
    Customer.set_last_principal customer (Customer.last_principal customer + deduction) in
  let loan_code := _loan_code_for session (Repayment.loan_id repayment) in
  let session := save_customer session (Repayment.customer_id repayment) customer in
  key <- flush_key (Repayment.id repayment) (repayments session) ;;
  let repayment := Repayment.set_id repayment (Some key) in
  let session := set_repayments session (<[key := repayment]> (repayments session)) in
  let '(_, session) :=
    _record_balance_event session customer "repayment" deduction "录入还款"
      (Some [("repayment_id", JInt key);
             ("repayment_amount", JNum (Qabs (Repayment.repayment_amount repayment)));
             ("loan_id", opt_int (Repayment.loan_id repayment));
             ("loan_code", JStr loan_code);
             ("previous_balance", JNum previous_balance)])
      (match Repayment.repayment_date repayment with
       | Some d => Some d
       | None => Some (aware now)
       end) now in
  let '(_, session) :=
    record_bank_transaction session "repayment_receipt"
      (_round_amount (Qabs (Repayment.repayment_amount repayment)))
      (Some "repayment") (Some key) (Some (Repayment.customer_id repayment)) in
  inr (repayment, session).

(** The fields of a [LoanUpdate] payload that were set ([exclude_unset]);
    [other_fields] tells whether a key outside those modelled here, or a
    key set to null, is present. *)
Module LoanUpdate.
Record t := mk {
    loan_amount : option Q;
    loan_date : option datetime;
    processing_fee : option Q;
    other_fields : bool
}.
End LoanUpdate.

Module RepaymentUpdate.
Record t := mk {
    repayment_amount : option Q;
    repayment_date : option datetime;
    other_fields : bool
}.
End RepaymentUpdate.

Module CustomerBalanceUpdate.
Record t := mk {
    loan_code : option string;
    loan_id : option Z;
    projected_balance : option Q;
    adjust_amount : Q;
    next_compound_at : option datetime
}.
End CustomerBalanceUpdate.

(** [update_loan]. *)
Definition update_loan (session : Session) (loan_id : Z) (payload : LoanUpdate.t)
    (now : Z) : result (Loan.t * Session) :=
  loan <- (match loans session !! loan_id with
           | Some loan => inr loan
           | None => raise 404 (Detail "Loan not found")
           end) ;;
  _ <- (match LoanUpdate.loan_amount payload, LoanUpdate.loan_date payload,
              LoanUpdate.processing_fee payload, LoanUpdate.other_fields payload with
        | None, None, None, false => raise 400 (Detail "No fields to update")
        | _, _, _, _ => inr tt
        end) ;;
  customer <- get_customer session (Loan.customer_id loan) ;;
  let previous_cash_amount := Loan.loan_amount loan in
  let '(customer, loan, session) :=
    match LoanUpdate.loan_amount payload with
    | Some new_amount =>
        let old_effect := _initial_compounded_amount (Loan.loan_amount loan) in
        let new_effect := _initial_compounded_amount new_amount in
        let delta := new_effect - old_effect in
        let '(customer, session) :=
          if eps <? Qabs delta then
            let '(_, customer, session') :=
              _adjust_projected_balance customer delta now (Some session) in
            let session := default session session' in
            let customer :=
              Customer.set_last_principal customer
                (Customer.last_principal customer + delta) in
            let '(_, session) :=
              _record_balance_event session customer "loan_adjustment" delta
                "借贷金额调整"
                (Some [("loan_id", opt_int (Loan.id loan));
                       ("loan_code", JStr (Loan.loan_code loan));
                       ("previous_effective_amount", JNum old_effect);
                       ("new_effective_amount", JNum new_effect)])
                (Some (aware now)) now in
            (customer, session)
          else (customer, session) in
        let loan := Loan.set_loan_amount loan new_amount in
        let cash_delta := new_amount - previous_cash_amount in
        let session :=
          if eps <? Qabs cash_delta then
            snd (record_bank_transaction session "loan_adjustment"
                   (- _round_amount cash_delta)
                   (Some "loan") (Loan.id loan) (Some (Loan.customer_id loan)))
          else session in
        (customer, loan, session)
    | None => (customer, loan, session)
    end in
  let loan :=
    match LoanUpdate.loan_date payload with
    | Some d =>
        Loan.set_loan_date loan
          (match ensure_myt_datetime (Some d) with
           | Some d' => Some d'
           | None => Loan.loan_date loan
           end)
    | None => loan
    end in
  let loan :=
    match LoanUpdate.processing_fee payload with
    | Some fee =>
        Loan.mk (Loan.id loan) (Loan.customer_id loan) (Loan.loan_code loan)
          (Loan.loan_date loan) (Loan.loan_amount loan) fee
    | None => loan
    end in
  let session := save_customer session (Loan.customer_id loan) customer in
  let session := set_loans session (<[loan_id := loan]> (loans session)) in
  inr (loan, session).

(** [math.isclose(a, b, abs_tol=1e-9)], with the default [rel_tol] of
    [1e-09]. *)
Definition isclose (a b : Q) : bool :=
  Qabs (a - b) <=? py_max (eps * py_max (Qabs a) (Qabs b)) eps.

(** [update_repayment]. *)
Definition update_repayment (session : Session) (repayment_id : Z)
    (payload : RepaymentUpdate.t) (now : Z) : result (Repayment.t * Session) :=
  repayment <- (match repayments session !! repayment_id with
                | Some r => inr r
                | None => raise 404 (Detail "Repayment not found")
                end) ;;
  _ <- (match RepaymentUpdate.repayment_amount payload,
              RepaymentUpdate.repayment_date payload,
              RepaymentUpdate.other_fields payload with
        | None, None, false => raise 400 (Detail "No fields to update")
        | _, _, _ => inr tt
        end) ;;
  customer <- get_customer session (Repayment.customer_id repayment) ;;
  let loan_code := _loan_code_for session (Repayment.loan_id repayment) in
  loan_ref <- (match truthy (Repayment.loan_id repayment) with
               | Some lid =>
                   match loans session !! lid with
                   | Some loan => inr (Some loan)
                   | None => raise 404 (Detail "Loan not found")
                   end
               | None => inr None
               end) ;;
  let previous_cash_amount := Repayment.repayment_amount repayment in
  step <-
    (match RepaymentUpdate.repayment_amount payload with
     | Some value =>
         let new_amount := Qabs value in
         let old_amount := Qabs (Repayment.repayment_amount repayment) in
         session <-
           (match loan_ref with
            | Some loan =>
                if negb (isclose new_amount old_amount) then
                  _ensure_repayment_within_loan_balance session loan new_amount
                    (Some repayment_id)
                else inr session
            | None => inr session
            end) ;;
         let delta := - new_amount - - old_amount in
         let '(customer, session) :=
           if eps <? Qabs delta then
             let '(_, customer, session') :=
               _adjust_projected_balance customer delta now (Some session) in
             let session := default session session' in
             let customer :=
               Customer.set_last_principal customer
                 (Customer.last_principal customer + delta) in
             let '(_, session) :=
               _record_balance_event session customer "repayment_adjustment" delta
                 "还款金额调整"
                 (Some [("repayment_id", JInt repayment_id);
                        ("previous_amount", JNum old_amount);
                        ("new_amount", JNum new_amount);
                        ("loan_code", JStr loan_code)])
                 (Some (aware now)) now in
             (customer, session)
           else (customer, session) in
         let repayment := Repayment.set_repayment_amount repayment new_amount in
         let cash_delta := new_amount - previous_cash_amount in
         let session :=
           if eps <? Qabs cash_delta then
             snd (record_bank_transaction session "repayment_adjustment"
                    (_round_amount cash_delta)
                    (Some "repayment") (Some repayment_id)
                    (Some (Repayment.customer_id repayment)))
           else session in
         inr (customer, repayment, session)
     | None => inr (customer, repayment, session)
     end) ;;
  let '(customer, repayment, session) := step in
  let repayment :=
    match RepaymentUpdate.repayment_date payload with
    | Some d =>
        Repayment.set_repayment_date repayment
          (match ensure_myt_datetime (Some d) with
           | Some d' => Some d'
           | None => Repayment.repayment_date repayment
           end)
    | None => repayment
    end in
  let session := save_customer session (Repayment.customer_id repayment) customer in
  let session :=
    set_repayments session (<[repayment_id := repayment]> (repayments session)) in
  inr (repayment, session).

(** [delete_loan]; the value returned is the session. *)
Definition delete_loan (session : Session) (loan_id : Z) (now : Z) : result Session :=
  loan <- (match loans session !! loan_id with
           | Some loan => inr loan
           | None => raise 404 (Detail "Loan not found")
           end) ;;
  customer <- get_customer session (Loan.customer_id loan) ;;
  let deduction := - _initial_compounded_amount (Loan.loan_amount loan) in
  let '(_, customer, session') :=
    _adjust_projected_balance customer deduction now (Some session) in
  let session := default session session' in
  let customer :=
    Customer.set_last_principal customer (Customer.last_principal customer + deduction) in
  let session := save_customer session (Loan.customer_id loan) customer in
  let '(_, session) :=
    _record_balance_event session customer "loan_writeoff" deduction "借贷删除"
      (Some [("loan_id", opt_int (Loan.id loan));
             ("loan_code", JStr (Loan.loan_code loan));
             ("loan_amount", JNum (Loan.loan_amount loan))])
      (Some (aware now)) now in
  let '(_, session) :=
    record_bank_transaction session "loan_reversal"
      (_round_amount (Qabs (Loan.loan_amount loan)))
      (Some "loan") (Loan.id loan) (Some (Loan.customer_id loan)) in
  inr (set_loans session (delete loan_id (loans session))).

(** [delete_repayment]. *)
Definition delete_repayment (session : Session) (repayment_id : Z) (now : Z)
    : result Session :=
  repayment <- (match repayments session !! repayment_id with
                | Some r => inr r
                | None => raise 404 (Detail "Repayment not found")
                end) ;;
  customer <- get_customer session (Repayment.customer_id repayment) ;;
  let addition := Qabs (Repayment.repayment_amount repayment) in
  let '(_, customer, session') :=
    _adjust_projected_balance customer addition now (Some session) in
  let session := default session session' in
  let customer :=
    Customer.set_last_principal customer (Customer.last_principal customer + addition) in
  let loan_code := _loan_code_for session (Repayment.loan_id repayment) in
  let session := save_customer session (Repayment.customer_id repayment) customer in
  let '(_, session) :=
    _record_balance_event session customer "repayment_reversal" addition "还款删除"
      (Some [("repayment_id", opt_int (Repayment.id repayment));
             ("repayment_amount", JNum (Repayment.repayment_amount repayment));
             ("loan_id", opt_int (Repayment.loan_id repayment));
             ("loan_code", JStr loan_code)])
      (Some (aware now)) now in
  let '(_, session) :=
    record_bank_transaction session "repayment_reversal"
      (- _round_amount (Qabs (Repayment.repayment_amount repayment)))
      (Some "repayment") (Repayment.id repayment)
      (Some (Repayment.customer_id repayment)) in
  inr (set_repayments session (delete repayment_id (repayments session))).

(** [update_customer_balance]. *)
Definition update_customer_balance (session : Session) (customer_id : Z)
    (payload : CustomerBalanceUpdate.t) (now : Z) : result (Customer.t * Session) :=
  customer <- get_customer session customer_id ;;
  let previous_balance := Customer.projected_balance customer in
  let adjust_value := CustomerBalanceUpdate.adjust_amount payload in
  let requires_loan :=
    match CustomerBalanceUpdate.projected_balance payload with
    | Some _ => true
    | None => eps <? Qabs adjust_value
    end in
  loan_ref <-
    (match CustomerBalanceUpdate.loan_id payload with
     | Some lid =>
         match loans session !! lid with
         | Some loan => inr (Some loan)
         | None => raise 404 (Detail "Loan not found")
         end
     | None =>
         match CustomerBalanceUpdate.loan_code payload with
         | Some code =>
             if String.eqb code "" then inr None
             else (loan <- get_loan_by_code session code ;; inr (Some loan))
         | None => inr None
         end
     end) ;;
  _ <- (match loan_ref with
        | Some loan =>
            if opt_Z_eqb (Some (Loan.customer_id loan)) (Customer.id customer) then inr tt
            else raise 400 (Detail "Loan does not belong to the customer")
        | None => inr tt
        end) ;;
  loan_remaining <-
    (if requires_loan then
       match loan_ref with
       | None => raise 400 (Detail "loan_code is required for balance adjustments")
       | Some loan =>
           let loan_remaining := _loan_remaining_compounded_balance session loan None in
           if loan_remaining <=? 0
           then raise 400 (BalanceExhaustedAdjust (_ensure_loan_code loan))
           else inr (Some loan_remaining)
       end
     else inr None) ;;
  let loan_metadata :=
    match loan_ref with
    | Some loan =>
        [("loan_id", opt_int (Loan.id loan));
         ("loan_code", JStr (Loan.loan_code loan));
         ("loan_remaining",
          match loan_remaining with Some r => JNum r | None => JNull end)]
    | None => []
    end in
  let '(customer, session) :=
    match CustomerBalanceUpdate.projected_balance payload with
    | Some value =>
        let target := py_max value 0 in
        let delta := target - Customer.projected_balance customer in
        if eps <? Qabs delta then
          let '(_, customer, session') :=
            _adjust_projected_balance customer delta now (Some session) in
          let session := default session session' in
          let '(_, session) :=
            _record_balance_event session customer "manual_override" delta
              "手动设置复利余额"
              (Some ([("target_balance", JNum target);
                      ("previous_balance", JNum previous_balance)] ++ loan_metadata))
              (Some (aware now)) now in
          (customer, session)
        else (customer, session)
    | None =>
        if eps <? Qabs adjust_value then
          let '(_, customer, session') :=
            _adjust_projected_balance customer adjust_value now (Some session) in
          let session := default session session' in
          let '(_, session) :=
            _record_balance_event session customer "manual_adjust" adjust_value
              "手动调整复利余额"
              (Some ([("previous_balance", JNum previous_balance)] ++ loan_metadata))
              (Some (aware now)) now in
          (customer, session)
        else (customer, session)
    end in
  let customer :=
    match CustomerBalanceUpdate.next_compound_at payload with
    | Some d => Customer.set_next_compound_at customer (ensure_myt_datetime (Some d))
    | None => customer
    end in
  inr (customer, save_customer session customer_id customer).

(** The calculator run on a stored customer, as a summary read does for
    each customer: [advance] alone, and [reconcile] against a principal
    recomputed by the caller. *)
Definition advance (session : Session) (customer_id : Z) (now : Z) : result Session :=
  customer <- get_customer session customer_id ;;
  let '(_, customer, session') := _apply_compound_growth customer now (Some session) in
  inr (save_customer (default session session') customer_id customer).

Definition reconcile (session : Session) (customer_id : Z) (actual_balance : Q)
    (now : Z) : result Session :=
  customer <- get_customer session customer_id ;;
  let '(_, customer, session') :=
    _refresh_compounded_balance customer actual_balance now (Some session) in
  inr (save_customer (default session session') customer_id customer).

(** The operations of the core, with their arguments. *)
Inductive operation :=
| CreateCustomer (customer_code generated_code : string)
| CreateLoan (loan : Loan.t) (generated_code : string) (now : Z)
| CreateRepayment (repayment : Repayment.t) (now : Z)
| UpdateLoan (loan_id : Z) (payload : LoanUpdate.t) (now : Z)
| UpdateRepayment (repayment_id : Z) (payload : RepaymentUpdate.t) (now : Z)
| DeleteLoan (loan_id : Z) (now : Z)
| DeleteRepayment (repayment_id : Z) (now : Z)
| UpdateCustomerBalance (customer_id : Z) (payload : CustomerBalanceUpdate.t) (now : Z)
| Advance (customer_id : Z) (now : Z)
| Reconcile (customer_id : Z) (actual_balance : Q) (now : Z).

(** The row the create-customer endpoint builds from its payload: the
    balance columns at their defaults. *)
Definition new_customer (customer_code : string) : Customer.t :=
  Customer.mk None customer_code 0 0 None.

(** Running one operation.  New loans and repayments come without a key,
    as the endpoints build them. *)
Definition run (session : Session) (op : operation) : result Session :=
  match op with
  | CreateCustomer code generated =>
      r <- create_customer session (new_customer code) generated ;; inr (snd r)
  | CreateLoan loan generated now =>
      r <- create_loan session (Loan.set_id loan None) generated now ;; inr (snd r)
  | CreateRepayment repayment now =>
      r <- create_repayment session (Repayment.set_id repayment None) now ;; inr (snd r)
  | UpdateLoan loan_id payload now =>
      r <- update_loan session loan_id payload now ;; inr (snd r)
  | UpdateRepayment repayment_id payload now =>
      r <- update_repayment session repayment_id payload now ;; inr (snd r)
  | DeleteLoan loan_id now => delete_loan session loan_id now
  | DeleteRepayment repayment_id now => delete_repayment session repayment_id now
  | UpdateCustomerBalance customer_id payload now =>
      r <- update_customer_balance session customer_id payload now ;; inr (snd r)
  | Advance customer_id now => advance session customer_id now
  | Reconcile customer_id actual_balance now =>
      reconcile session customer_id actual_balance now
  end.

(** A session reached from the empty one by operations that [allowed]
    admits; an operation that raises changes nothing. *)
Inductive reachable (allowed : operation -> Prop) : Session -> Prop :=
| reachable_empty : reachable allowed empty_session
| reachable_step session op session' :
    reachable allowed session -> allowed op -> run session op = inr session' ->
    reachable allowed session'.

(** ** The balance timeline *)

(** Replaying a customer's events in a given order from a balance
    [prev]: every [balance_after] is the balance before it plus the
    event's [change_amount], floored at zero, within a hundredth. *)
Fixpoint replay_from (prev : Q) (events : list CompoundBalanceEvent.t) : Prop :=
  match events with
  | [] => True
  | e :: rest =>
      Qabs (CompoundBalanceEvent.balance_after e
            - py_max (prev + CompoundBalanceEvent.change_amount e) 0) <= 1 # 100 /\
      replay_from (CompoundBalanceEvent.balance_after e) rest
  end.

(** The [balance_after] of the last event, [prev] when there is none. *)
Definition balance_at_end (prev : Q) (events : list CompoundBalanceEvent.t) : Q :=
  match last events with
  | Some e => CompoundBalanceEvent.balance_after e
  | None => prev
  end.

(** Balance events are numbered 1, 2, ... in insertion order. *)
Definition event_keys_ok (events : list CompoundBalanceEvent.t) : Prop :=
  forall (i : nat) e, events !! i = Some e -> CompoundBalanceEvent.id e = Z.of_nat (S i).

(** The events of one customer among a list of events. *)
Definition of_customer (customer_id : Z) (events : list CompoundBalanceEvent.t)
    : list CompoundBalanceEvent.t :=
  List.filter (fun e => (CompoundBalanceEvent.customer_id e =? customer_id)%Z) events.

(** The state of a customer's balance as the data model has it: a
    non-negative two-decimal amount, with a schedule whenever it is
    positive. *)
Definition customer_ok (c : Customer.t) : Prop :=
  is_cents (Customer.projected_balance c) /\
  0 <= Customer.projected_balance c /\
  (Customer.next_compound_at c = None -> Customer.projected_balance c == 0).

(** No schedule is kept for a zero balance. *)
Definition schedule_ok (c : Customer.t) : Prop :=
  Customer.projected_balance c == 0 -> Customer.next_compound_at c = None.

(** The customer [c] stored under [k] agrees with the events recorded
    for it. *)
Definition timeline_ok (k : Z) (c : Customer.t) (events : list CompoundBalanceEvent.t)
    : Prop :=
  replay_from 0 (of_customer k events) /\
  balance_at_end 0 (of_customer k events) == Customer.projected_balance c.

(** Operations that record every change of the balance they make: all
    but [reconcile], which applies the difference to the recomputed
    principal without an event of its own. *)
Definition records_changes (op : operation) : Prop :=
  match op with
  | Reconcile _ _ _ => False
  | _ => True
  end.

(** Operations that leave the schedule to the calculator: all but a
    balance update that carries an explicit [next_compound_at]. *)
Definition leaves_schedule (op : operation) : Prop :=
  match op with
  | UpdateCustomerBalance _ payload _ =>
      CustomerBalanceUpdate.next_compound_at payload = None
  | _ => True
  end.

Definition any_operation (op : operation) : Prop := True.

(** The invariant of the sessions the operations reach.  [timeline]
    asks for the agreement of balances and events, [schedule] for
    [schedule_ok]. *)
Definition session_inv (timeline schedule : Prop) (s : Session) : Prop :=
  (event_keys_ok (balance_events s) /\
   forall e, e ∈ balance_events s ->
     is_Some (customers s !! CompoundBalanceEvent.customer_id e)) /\
  forall k c, customers s !! k = Some c ->
    Customer.id c = Some k /\ k <> 0%Z /\ customer_ok c /\
    (schedule -> schedule_ok c) /\
    (timeline -> timeline_ok k c (balance_events s)).

(** Running a list of operations; the first that raises ends the run. *)
Definition run_all (ops : list operation) (session : Session) : result Session :=
  fold_left (fun r op => s <- r ;; run s op) ops (inr session).

(** [ORDER BY event_time ASC, id ASC], the order of
    [get_customer_balance_timeline]. *)
Definition event_leb (a b : CompoundBalanceEvent.t) : bool :=
  (ticks (CompoundBalanceEvent.event_time a) <? ticks (CompoundBalanceEvent.event_time b))%Z
  || ((ticks (CompoundBalanceEvent.event_time a)
       =? ticks (CompoundBalanceEvent.event_time b))%Z
      && (CompoundBalanceEvent.id a <=? CompoundBalanceEvent.id b)%Z).

Fixpoint insert_event (e : CompoundBalanceEvent.t) (l : list CompoundBalanceEvent.t)
    : list CompoundBalanceEvent.t :=
  match l with
  | [] => [e]
  | x :: l' => if event_leb e x then e :: l else x :: insert_event e l'
  end.

Definition timeline (session : Session) (customer_id : Z) : list CompoundBalanceEvent.t :=
  fold_right insert_event [] (events_of session customer_id).



(** Sample runs. *)
Definition loan_of (customer_id : Z) (amount : Q) (date : Z) : Loan.t :=
  Loan.mk None customer_id "" (Some (mk_datetime false date)) amount 0.

Definition repayment_of (customer_id loan_id : Z) (amount : Q) (date : Z)
    : Repayment.t :=
  Repayment.mk None customer_id (Some loan_id) (Some (aware date)) amount.

(** A customer, a loan of 500 and a repayment of 200. *)
Definition sample_ops : list operation :=
  [CreateCustomer "" "CUST-AAAAAA";
   CreateLoan (loan_of 1 500 sample_now) "LN-0001" sample_now;
   CreateRepayment (repayment_of 1 1 200 sample_now) sample_now].



(** A schedule set by hand on a customer without balance. *)
Definition override_ops : list operation :=
  [CreateCustomer "" "CUST-AAAAAA";
   UpdateCustomerBalance 1
     (CustomerBalanceUpdate.mk None None None 0 (Some (aware (sample_now + day))))
     sample_now].

(** ** Consistency auditor *)

Module AuditIssue.
Record t := mk {
    severity : string;
    category : string;
    entity : string;
    entity_id : option Z;
    message : string;
    details : option (list (string * jvalue))
}.
End AuditIssue.

Module AuditReport.
Record t := mk {
    stats : list (string * Z);
    issues : list AuditIssue.t
}.
End AuditReport.

(** [Counter]: how often a code occurs among the normalised, non-empty
    codes. *)
Definition count_code (codes : list string) (code : string) : nat :=
  length (List.filter (String.eqb code) codes).

Definition nonempty_codes (codes : list string) : list string :=
  List.filter (fun code => negb (String.eqb code "")) (normalize_code <$> codes).

(** The issues of one customer. *)
Definition audit_customer (tolerance : Q) (customer_codes : list string)
    (loans : list Loan.t) (repayments : list Repayment.t)
    (events : list CompoundBalanceEvent.t) (customer : Customer.t)
    : list AuditIssue.t :=
  let normalized_code := normalize_code (Customer.customer_code customer) in
  let code_issues :=
    if String.eqb normalized_code "" then
      [AuditIssue.mk "error" "customer_code" "customer" (Customer.id customer)
         "customer_code is missing" None]
    else if (1 <? count_code customer_codes normalized_code)%nat then
      [AuditIssue.mk "error" "customer_code" "customer" (Customer.id customer)
         "customer_code is duplicated" (Some [("customer_code", JStr normalized_code)])]
    else [] in
  let loan_rows :=
    List.filter (fun loan => opt_Z_eqb (Some (Loan.customer_id loan)) (Customer.id customer))
      loans in
  let repayment_rows :=
    List.filter
      (fun r => opt_Z_eqb (Some (Repayment.customer_id r)) (Customer.id customer))
      repayments in
  let effective_loan_total :=
    Qsum ((fun loan => _initial_compounded_amount (py_max (Loan.loan_amount loan) 0))
            <$> loan_rows) in
  let repayment_total :=
    Qsum ((fun r => py_max (Repayment.repayment_amount r) 0) <$> repayment_rows) in
  let raw_balance := py_round (py_max (effective_loan_total - repayment_total) 0) 2 in
  let last_principal := py_round (Customer.last_principal customer) 2 in
  let principal_issues :=
    if tolerance <? Qabs (last_principal - raw_balance) then
      [AuditIssue.mk "warning" "customer_balance" "customer" (Customer.id customer)
         "last_principal deviates from recomputed balance"
         (Some [("expected", JNum raw_balance); ("actual", JNum last_principal)])]
    else [] in
  let projected := py_round (py_max (Customer.projected_balance customer) 0) 2 in
  let projected_issues :=
    if projected <? - tolerance then
      [AuditIssue.mk "error" "customer_balance" "customer" (Customer.id customer)
         "projected_balance is negative" (Some [("value", JNum projected)])]
    else [] in
  let event_rows :=
    fold_right insert_event []
      (List.filter
         (fun e => opt_Z_eqb (Some (CompoundBalanceEvent.customer_id e))
                     (Customer.id customer))
         events) in
  let event_issues :=
    match last event_rows with
    | None => []
    | Some latest =>
        let final_balance := py_round (CompoundBalanceEvent.balance_after latest) 2 in
        (if tolerance <? Qabs (final_balance - projected) then
           [AuditIssue.mk "warning" "balance_events" "customer" (Customer.id customer)
              "latest balance event drift from projected_balance"
              (Some [("event_balance", JNum final_balance);
                     ("projected_balance", JNum projected)])]
         else [])
        ++ ((fun entry =>
               AuditIssue.mk "error" "balance_events" "customer" (Customer.id customer)
                 "balance event recorded negative balance"
                 (Some [("event_id", JInt (CompoundBalanceEvent.id entry));
                        ("balance_after",
                         JNum (CompoundBalanceEvent.balance_after entry))]))
            <$> List.filter
                  (fun entry => CompoundBalanceEvent.balance_after entry <? - tolerance)
                  event_rows)
    end in
  code_issues ++ principal_issues ++ projected_issues ++ event_issues.

(** The issues of one loan. *)
Definition audit_loan (loan_codes : list string) (customer_ids : list (option Z))
    (loan : Loan.t) : list AuditIssue.t :=
  let normalized_code := normalize_code (Loan.loan_code loan) in
  (if String.eqb normalized_code "" then
     [AuditIssue.mk "error" "loan_code" "loan" (Loan.id loan) "loan_code is missing" None]
   else if (1 <? count_code loan_codes normalized_code)%nat then
     [AuditIssue.mk "error" "loan_code" "loan" (Loan.id loan) "loan_code is duplicated"
        (Some [("loan_code", JStr normalized_code)])]
   else [])
  ++ (if existsb (opt_Z_eqb (Some (Loan.customer_id loan))) customer_ids then []
      else
        [AuditIssue.mk "error" "loan_reference" "loan" (Loan.id loan)
           "customer_id does not point to an existing customer"
           (Some [("customer_id", JInt (Loan.customer_id loan))])])
  ++ (if Loan.loan_amount loan <? 0 then
        [AuditIssue.mk "error" "loan_amount" "loan" (Loan.id loan)
           "loan_amount cannot be negative"
           (Some [("loan_amount", JNum (Loan.loan_amount loan))])]
      else []).

(** The issues of one repayment. *)
Definition audit_repayment (loans : list Loan.t) (customer_ids : list (option Z))
    (repayment : Repayment.t) : list AuditIssue.t :=
  (if Repayment.repayment_amount repayment <=? 0 then
     [AuditIssue.mk "error" "repayment_amount" "repayment" (Repayment.id repayment)
        "repayment_amount must be positive"
        (Some [("repayment_amount", JNum (Repayment.repayment_amount repayment))])]
   else [])
  ++ (if existsb (opt_Z_eqb (Some (Repayment.customer_id repayment))) customer_ids then []
      else
        [AuditIssue.mk "error" "repayment_reference" "repayment" (Repayment.id repayment)
           "customer_id does not point to an existing customer"
           (Some [("customer_id", JInt (Repayment.customer_id repayment))])])
  ++ match Repayment.loan_id repayment with
     | None => []
     | Some lid =>
         match List.find (fun loan => opt_Z_eqb (Loan.id loan) (Some lid)) (rev loans) with
         | None =>
             [AuditIssue.mk "error" "repayment_reference" "repayment"
                (Repayment.id repayment) "loan_id does not point to an existing loan"
                (Some [("loan_id", JInt lid)])]
         | Some loan =>
             if (Loan.customer_id loan =? Repayment.customer_id repayment)%Z then []
             else
               [AuditIssue.mk "error" "repayment_reference" "repayment"
                  (Repayment.id repayment) "repayment loan_id/customer_id mismatch"
                  (Some [("repayment_customer_id", JInt (Repayment.customer_id repayment));
                         ("loan_customer_id", JInt (Loan.customer_id loan));
                         ("loan_id", opt_int (Loan.id loan))])]
         end
     end.

(** [run_audit]. *)
Definition run_audit (session : Session) (tolerance : Q) : AuditReport.t :=
  let tolerance := py_max tolerance 0 in
  let customers := snd <$> map_to_list (customers session) in
  let loans := snd <$> map_to_list (loans session) in
  let repayments := snd <$> map_to_list (repayments session) in
  let events := balance_events session in
  let stats :=
    [("customers", Z.of_nat (length customers));
     ("loans", Z.of_nat (length loans));
     ("repayments", Z.of_nat (length repayments));
     ("balance_events", Z.of_nat (length events))] in
  let customer_codes := nonempty_codes (Customer.customer_code <$> customers) in
  let loan_codes := nonempty_codes (Loan.loan_code <$> loans) in
  let customer_ids := Customer.id <$> customers in
  let issues :=
    concat (audit_customer tolerance customer_codes loans repayments events <$> customers)
    ++ concat (audit_loan loan_codes customer_ids <$> loans)
    ++ concat (audit_repayment loans customer_ids <$> repayments) in
  AuditReport.mk stats issues.

(** The issue the specification expects for a negative balance. *)
Definition reports_negative_balance (issue : AuditIssue.t) : bool :=
  String.eqb (AuditIssue.severity issue) "error"
  && String.eqb (AuditIssue.category issue) "customer_balance".

(** A table with one customer whose stored balance is -5. *)
Definition negative_balance_session : Session :=
  set_customers empty_session
    (<[1%Z := Customer.mk (Some 1%Z) "CUST-000001" (-5) 0 None]> ∅).

(** The session after one customer was created; a loan of 500 for
    that customer. *)
Definition one_customer_session : Session :=
  set_customers empty_session
    (<[1%Z := Customer.mk (Some 1%Z) "CUST-AAAAAA" 0 0 None]> ∅).

Definition loan_500 : Loan.t := loan_of 1 500 sample_now.

(** The session after that loan was created as well, as [run_all] gives
    it; the empty session on error. *)
Definition loan_500_session : Session :=
  match create_loan one_customer_session loan_500 "LN-0001" sample_now with
  | inr (_, s) => s
  | inl _ => empty_session
  end.


(** ** Manual bank adjustments *)

(** [BankManualAdjustmentRequest.direction], a [Literal]. *)
Inductive direction := Deposit | Withdrawal.


Module BankManualAdjustmentRequest.
Record t := mk {
    amount : Q;
    direction : direction
}.
End BankManualAdjustmentRequest.


(** ** The balance timeline of a customer *)

Module BalanceTimelineEvent.
Record t := mk {
    event_type : string;
    event_time : option datetime;
    change_amount : Q;
    balance_after : Q;
    description : string;
    metadata : list (string * jvalue)
}.
End BalanceTimelineEvent.

Module CustomerBalanceTimelineResponse.
Record t := mk {
    customer_id : option Z;
    customer_code : string;
    projected_balance : Q;
    next_compound_at : option datetime;
    events : list BalanceTimelineEvent.t
}.
End CustomerBalanceTimelineResponse.

(** One event as the timeline shows it.  [_decode_metadata] reads back
    the dictionary that [_record_balance_event] serialised. *)
Definition serialize_event (event : CompoundBalanceEvent.t) : BalanceTimelineEvent.t :=
  BalanceTimelineEvent.mk
    (CompoundBalanceEvent.event_type event)
    (_safe_myt (Some (CompoundBalanceEvent.event_time event))
       (Some (CompoundBalanceEvent.event_time event)))
    (CompoundBalanceEvent.change_amount event)
    (CompoundBalanceEvent.balance_after event)
    (CompoundBalanceEvent.description event)
    (default [] (CompoundBalanceEvent.metadata event)).

(** [get_customer_balance_timeline]; [clock] is the time at which a
    baseline event is written, if one is. *)
Definition get_customer_balance_timeline (session : Session) (customer_id : Z)
    (clock : Z) : result (CustomerBalanceTimelineResponse.t * Session) :=
  customer <- get_customer session customer_id ;;
  let session := _ensure_balance_event_baseline session customer clock in
  let events :=
    match Customer.id customer with
    | Some cid => fold_right insert_event [] (events_of session cid)
    | None => []
    end in
  inr (CustomerBalanceTimelineResponse.mk
         (Customer.id customer)
         (Customer.customer_code customer)
         (_round_amount (py_max (Customer.projected_balance customer) 0))
         (_safe_myt (Customer.next_compound_at customer) None)
         (serialize_event <$> events),
       session).

(** A list of events in the order of [ORDER BY event_time, id]. *)
Fixpoint in_timeline_order (l : list CompoundBalanceEvent.t) : Prop :=
  match l with
  | [] => True
  | e :: rest => Forall (fun e' => event_leb e e' = true) rest /\ in_timeline_order rest
  end.

(** ** Looking customers up by code *)

(** [get_customer_by_code]. *)
Definition get_customer_by_code (session : Session) (customer_code : string)
    : result Customer.t :=
  let normalized := normalize_code customer_code in
  if String.eqb normalized "" then raise 400 (Detail "customer_code is required")
  else
    match List.find (fun row => String.eqb (Customer.customer_code (snd row)) normalized)
            (map_to_list (customers session)) with
    | Some row => inr (snd row)
    | None => raise 404 (Detail "Customer not found")
    end.

(** ** Generated codes *)

(** [string.ascii_uppercase + string.digits]. *)
Definition charset : list ascii :=
  list_ascii_of_string "ABCDEFGHIJKLMNOPQRSTUVWXYZ0123456789".

(** [secrets.choice(charset)] when the random source draws [draw]. *)
Definition choice (draw : nat) : ascii := nth (draw mod 36) charset "A"%char.

(** The six drawings that make one candidate code. *)
Definition six_draws : Type := nat * nat * nat * nat * nat * nat.

Definition candidate_code (d : six_draws) : string :=
  let '(d1, d2, d3, d4, d5, d6) := d in
  "CUST-" ++ string_of_list_ascii
               [choice d1; choice d2; choice d3; choice d4; choice d5; choice d6].

(** [_generate_customer_code]: candidates are drawn until one is not
    in use.  [draws] is what the random source gives; the answer is
    [None] when the loop needs more drawings than that. *)
Fixpoint _generate_customer_code (session : Session) (draws : list six_draws)
    : option string :=
  match draws with
  | [] => None
  | d :: rest =>
      let code := candidate_code d in
      match List.find (fun row => String.eqb (Customer.customer_code (snd row)) code)
              (map_to_list (customers session)) with
      | Some _ => _generate_customer_code session rest
      | None => Some code
      end
  end.

(** No two stored customers carry the same code. *)
Definition codes_unique (session : Session) : Prop :=
  forall k1 k2 c1 c2,
    customers session !! k1 = Some c1 -> customers session !! k2 = Some c2 ->
    Customer.customer_code c1 = Customer.customer_code c2 -> k1 = k2.

(** ** Codes in request payloads *)

(** The outcome of a field validator: the value it passes on, or the
    [ValueError] it raises. *)
Inductive validated (A : Type) :=
| Valid (value : A)
| ValueError (message : string).
Arguments Valid {A} value.
Arguments ValueError {A} message.

(** The text of a request, as far as it is modelled: characters of the
    ASCII range, on which [isalnum], [isdigit], [strip] and [upper] are
    the ASCII ones. *)
Definition is_ascii_text (s : string) : Prop :=
  Forall (fun a => (nat_of_ascii a < 128)%nat) (list_ascii_of_string s).

(** [str.isdigit] and [str.isalnum] on one character. *)
Definition is_digit (a : ascii) : bool :=
  let n := nat_of_ascii a in (48 <=? n)%nat && (n <=? 57)%nat.

Definition is_alnum (a : ascii) : bool :=
  let n := nat_of_ascii a in
  is_digit a || ((65 <=? n)%nat && (n <=? 90)%nat) || ((97 <=? n)%nat && (n <=? 122)%nat).

(** [_normalize_optional_loan_code] of [schemas.py]
    ([_normalize_optional_customer_code] is the same function but for
    the message). *)
Definition _normalize_optional_loan_code (value : option string)
    : validated (option string) :=
  match value with
  | None => Valid None
  | Some value =>
      let trimmed := str_strip value in
      if String.eqb trimmed "" then Valid None
      else if forallb (fun ch => is_alnum ch || Ascii.eqb ch "-")
                (list_ascii_of_string trimmed)
      then Valid (Some (str_upper trimmed))
      else ValueError "loan_code must contain only letters, digits, or hyphen"
  end.

(** [_normalize_required_loan_code]. *)
Definition _normalize_required_loan_code (value : string) : validated string :=
  match _normalize_optional_loan_code (Some value) with
  | ValueError message => ValueError message
  | Valid None => ValueError "loan_code is required"
  | Valid (Some normalized) =>
      if String.eqb normalized "" then ValueError "loan_code is required"
      else Valid normalized
  end.

(** A character of a code in canonical form: a capital letter, a digit
    or a hyphen. *)
Definition code_char (a : ascii) : bool :=
  let n := nat_of_ascii a in
  is_digit a || ((65 <=? n)%nat && (n <=? 90)%nat) || Ascii.eqb a "-".

(** ** The suffix of a loan code *)

(** [secrets.choice(string.digits)] when the random source draws
    [draw]. *)
Definition choice_digit (draw : nat) : ascii :=
  nth (draw mod 10) (list_ascii_of_string "0123456789") "0"%char.

(** [str.zfill(width)] on a string of digits. *)
Definition zfill (width : nat) (l : list ascii) : list ascii :=
  repeat "0"%char (width - length l) ++ l.

(** [_id_suffix]; [draws] is what the random source gives when the card
    number holds no digit. *)
Definition _id_suffix (id_card : option string) (draws : nat * nat * nat * nat)
    : string :=
  let digits := List.filter is_digit (list_ascii_of_string (default "" id_card)) in
  match digits with
  | [] =>
      let '(d1, d2, d3, d4) := draws in
      string_of_list_ascii [choice_digit d1; choice_digit d2; choice_digit d3; choice_digit d4]
  | _ :: _ =>
      if (4 <=? length digits)%nat
      then string_of_list_ascii (skipn (length digits - 4) digits)
      else string_of_list_ascii (zfill 4 digits)
  end.

(** ** What the operations leave in place *)

(** A balance event as the calculator writes them: amounts of two
    decimals, a balance that is not negative, a time with a zone. *)
Definition event_wf (e : CompoundBalanceEvent.t) : Prop :=
  is_cents (CompoundBalanceEvent.change_amount e) /\
  is_cents (CompoundBalanceEvent.balance_after e) /\
  0 <= CompoundBalanceEvent.balance_after e /\
  tz_aware (CompoundBalanceEvent.event_time e) = true.

(** [s'] is [s] with balance events and bank rows appended and with the
    rows of the other tables replaced, added or deleted, those of
    customers never deleted. *)
Definition grows (s s' : Session) : Prop :=
  (exists evs, balance_events s' = balance_events s ++ evs /\ Forall event_wf evs) /\
  (exists rows, bank_transactions s' = bank_transactions s ++ rows) /\
  (ledger_inv (bank_transactions s) -> ledger_inv (bank_transactions s')) /\
  (forall k, is_Some (customers s !! k) -> is_Some (customers s' !! k)).

(** ** What an operation may touch *)

(** The customer an operation works for: the one it names, the one of
    the loan or repayment it names, or the key that a new customer
    gets. *)
Definition subject (session : Session) (op : operation) : option Z :=
  match op with
  | CreateCustomer _ _ => Some (next_map_key (customers session))
  | CreateLoan loan _ _ => Some (Loan.customer_id loan)
  | CreateRepayment repayment _ => Some (Repayment.customer_id repayment)
  | UpdateLoan loan_id _ _ => Loan.customer_id <$> loans session !! loan_id
  | DeleteLoan loan_id _ => Loan.customer_id <$> loans session !! loan_id
  | UpdateRepayment repayment_id _ _ =>
      Repayment.customer_id <$> repayments session !! repayment_id
  | DeleteRepayment repayment_id _ =>
      Repayment.customer_id <$> repayments session !! repayment_id
  | UpdateCustomerBalance customer_id _ _ => Some customer_id
  | Advance customer_id _ => Some customer_id
  | Reconcile customer_id _ _ => Some customer_id
  end.

(** Every stored customer carries its key. *)
Definition ids_ok (s : Session) : Prop :=
  forall k c, customers s !! k = Some c -> id_of c = Some k.

(** Every loan and every repayment carries its key and names a stored
    customer. *)
Definition references_ok (s : Session) : Prop :=
  (forall key loan, loans s !! key = Some loan ->
     Loan.id loan = Some key /\ is_Some (customers s !! Loan.customer_id loan)) /\
  (forall key r, repayments s !! key = Some r ->
     Repayment.id r = Some key /\ is_Some (customers s !! Repayment.customer_id r)).

(** From [s] to [s'] the tables of loans and repayments and the rows of
    the customers other than [k] are kept, and the events that were
    appended are events of [k]. *)
Definition keeps_rows (k : Z) (s s' : Session) : Prop :=
  (forall k', k' <> k -> customers s' !! k' = customers s !! k') /\
  loans s' = loans s /\ repayments s' = repayments s /\
  exists evs, balance_events s' = balance_events s ++ evs /\
    Forall (fun e => CompoundBalanceEvent.customer_id e = k) evs.

Definition keeps_rows_from (k : Z) (s : Session) (o : option Session) : Prop :=
  exists s', o = Some s' /\ keeps_rows k s s'.

(** From [s] to [s'] only rows of customer [k] were written: a loan or
    a repayment that differs was one of [k] before, if it was there,
    and is one of [k] under its own key after, if it is there. *)
Definition confined (k : Z) (s s' : Session) : Prop :=
  (forall k', k' <> k -> customers s' !! k' = customers s !! k') /\
  (forall key,
     loans s' !! key = loans s !! key \/
     (forall loan, loans s !! key = Some loan -> Loan.customer_id loan = k) /\
     (forall loan, loans s' !! key = Some loan ->
        Loan.customer_id loan = k /\ Loan.id loan = Some key)) /\
  (forall key,
     repayments s' !! key = repayments s !! key \/
     (forall r, repayments s !! key = Some r -> Repayment.customer_id r = k) /\
     (forall r, repayments s' !! key = Some r ->
        Repayment.customer_id r = k /\ Repayment.id r = Some key)) /\
  exists evs, balance_events s' = balance_events s ++ evs /\
    Forall (fun e => CompoundBalanceEvent.customer_id e = k) evs.
(** Two customers, and a loan for the first. *)
Definition two_customer_ops : list operation :=
  [CreateCustomer "" "CUST-AAAAAA"; CreateCustomer "" "CUST-BBBBBB"].

(** A customer and a loan entered with a negative amount. *)
Definition negative_loan_ops : list operation :=
  [CreateCustomer "" "CUST-AAAAAA";
   CreateLoan (loan_of 1 (-500) sample_now) "LN-0001" sample_now].


(** The loan of 500 as [create_loan] stores it: with its key, the code
    that was generated, and its date in the time zone. *)
Definition loan_500_stored : Loan.t :=
  Loan.mk (Some 1%Z) 1 "LN-0001" (Some (aware sample_now)) 500 0.

(** ** Auxiliary predicates of the proofs *)

(** A list that does not start with white space. *)
Definition no_leading_space (l : list ascii) : Prop :=
  match l with
  | [] => True
  | a :: _ => is_space a = false
  end.

(** The characters of a string after [strip()]. *)
Definition strip_chars (l : list ascii) : list ascii := rev (lstrip (rev (lstrip l))).

(** A character that [strip()] and [upper()] leave alone. *)
Definition plain_char (a : ascii) : Prop := is_space a = false /\ upper_ascii a = a.

(** The session that a call with a session gives back. *)
Definition grows_from (s : Session) (o : option Session) : Prop :=
  exists s', o = Some s' /\ grows s s'.

(* ===================================================================== *)
(** * Verification *)

(** ** Rounding *)

Lemma Qleb_true (x y : Q) : (x <=? y) = true <-> x <= y.
Proof. apply Qle_bool_iff. Qed.

Lemma Qleb_false (x y : Q) : (x <=? y) = false <-> y < x.
Proof.
  split; intros H.
  - apply Qnot_le_lt. intros Hle. apply Qle_bool_iff in Hle. congruence.
  - destruct (x <=? y) eqn:E; [|reflexivity].
    apply Qle_bool_iff in E. lra.
Qed.

Lemma Qltb_true (x y : Q) : (x <? y) = true <-> x < y.
Proof. rewrite negb_true_iff. apply Qleb_false. Qed.

Lemma Qltb_false (x y : Q) : (x <? y) = false <-> y <= x.
Proof. rewrite negb_false_iff. apply Qleb_true. Qed.

Lemma py_max_spec (a b : Q) :
  (a < b /\ py_max a b = b) \/ (b <= a /\ py_max a b = a).
Proof.
  unfold py_max. qcase b a; simpl; [right|left]; split; auto.
Qed.

Lemma py_max_ge_r (a b : Q) : b <= py_max a b.
Proof. destruct (py_max_spec a b) as [[? E]|[? E]]; rewrite E; lra. Qed.

Lemma py_max_ge_l (a b : Q) : a <= py_max a b.
Proof. destruct (py_max_spec a b) as [[? E]|[? E]]; rewrite E; lra. Qed.

Lemma py_max_id (a b : Q) : b <= a -> py_max a b = a.
Proof. intros H. destruct (py_max_spec a b) as [[? E]|[? E]]; [lra|exact E]. Qed.

Lemma round_half_even_bounds (x : Q) :
  inject_Z (round_half_even x) - x <= 1 # 2 /\
  x - inject_Z (round_half_even x) <= 1 # 2.
Proof.
  unfold round_half_even.
  pose proof (Qfloor_le x) as Hlo. pose proof (Qlt_floor x) as Hhi.
  rewrite inject_Z_plus in Hhi. change (inject_Z 1) with 1 in Hhi.
  destruct (Qcompare_spec (x - inject_Z (Qfloor x)) (1 # 2)) as [H|H|H].
  - destruct (Z.even (Qfloor x)); rewrite ?inject_Z_plus;
      change (inject_Z 1) with 1; split; lra.
  - split; lra.
  - rewrite inject_Z_plus. change (inject_Z 1) with 1. split; lra.
Qed.

Lemma round_half_even_comp (x y : Q) : x == y -> round_half_even x = round_half_even y.
Proof.
  intros H. unfold round_half_even.
  rewrite (Qfloor_comp _ _ H).
  assert (Hc : Qcompare (x - inject_Z (Qfloor y)) (1 # 2)
               = Qcompare (y - inject_Z (Qfloor y)) (1 # 2)).
  { apply Qcompare_comp; [rewrite H|]; reflexivity. }
  rewrite Hc. reflexivity.
Qed.

Lemma round_half_even_Z (z : Z) : round_half_even (inject_Z z) = z.
Proof.
  unfold round_half_even. rewrite Qfloor_Z.
  assert (H : Qcompare (inject_Z z - inject_Z z) (1 # 2) = Lt).
  { apply (proj1 (Qlt_alt _ _)). lra. }
  rewrite H. reflexivity.
Qed.

Lemma round_half_even_mono (x y : Q) :
  x <= y -> (round_half_even x <= round_half_even y)%Z.
Proof.
  intros Hxy.
  pose proof (Qfloor_resp_le _ _ Hxy) as Hf.
  assert (Hx : (Qfloor x <= round_half_even x <= Qfloor x + 1)%Z).
  { unfold round_half_even.
    destruct (Qcompare _ _); [destruct (Z.even _)|..]; lia. }
  assert (Hy : (Qfloor y <= round_half_even y <= Qfloor y + 1)%Z).
  { unfold round_half_even.
    destruct (Qcompare _ _); [destruct (Z.even _)|..]; lia. }
  destruct (Z.eq_dec (Qfloor x) (Qfloor y)) as [He|Hne]; [|lia].
  unfold round_half_even. rewrite He.
  destruct (Qcompare_spec (x - inject_Z (Qfloor y)) (1 # 2)) as [H1|H1|H1];
    destruct (Qcompare_spec (y - inject_Z (Qfloor y)) (1 # 2)) as [H2|H2|H2];
    try destruct (Z.even (Qfloor y)); try lia; exfalso; lra.
Qed.

Lemma py_round_2 (x : Q) :
  py_round x 2 = inject_Z (round_half_even (x * inject_Z 100)) / inject_Z 100.
Proof. reflexivity. Qed.

Lemma _round_amount_comp (x y : Q) : x == y -> _round_amount x = _round_amount y.
Proof.
  intros H. unfold _round_amount. rewrite !py_round_2.
  rewrite (round_half_even_comp (x * inject_Z 100) (y * inject_Z 100)); [reflexivity|].
  rewrite H. reflexivity.
Qed.

Lemma _round_amount_cents (x : Q) : is_cents (_round_amount x).
Proof.
  exists (round_half_even (x * inject_Z 100)).
  unfold _round_amount. rewrite py_round_2. reflexivity.
Qed.

Lemma _round_amount_of_cents (n : Z) : _round_amount (inject_Z n / 100) == inject_Z n / 100.
Proof.
  unfold _round_amount. rewrite py_round_2.
  rewrite (round_half_even_comp _ (inject_Z n)).
  - rewrite round_half_even_Z. reflexivity.
  - change (inject_Z 100) with 100. field.
Qed.

Lemma _round_amount_id (x : Q) : is_cents x -> _round_amount x == x.
Proof.
  intros [n Hn]. rewrite (_round_amount_comp _ _ Hn), Hn.
  apply _round_amount_of_cents.
Qed.

Lemma _round_amount_err (x : Q) :
  _round_amount x - x <= 1 # 200 /\ x - _round_amount x <= 1 # 200.
Proof.
  unfold _round_amount. rewrite py_round_2.
  destruct (round_half_even_bounds (x * inject_Z 100)) as [H1 H2].
  change (inject_Z 100) with 100 in *.
  set (r := inject_Z (round_half_even (x * 100))) in *.
  assert (E : r / 100 == r * (1 # 100)) by (field).
  rewrite E. split; lra.
Qed.

Lemma _round_amount_mono (x y : Q) : x <= y -> _round_amount x <= _round_amount y.
Proof.
  intros H. unfold _round_amount. rewrite !py_round_2.
  change (inject_Z 100) with 100.
  assert (Hm : x * 100 <= y * 100) by lra.
  apply round_half_even_mono in Hm.
  rewrite Zle_Qle in Hm.
  set (a := inject_Z (round_half_even (x * 100))) in *.
  set (b := inject_Z (round_half_even (y * 100))) in *.
  assert (Ea : a / 100 == a * (1 # 100)) by field.
  assert (Eb : b / 100 == b * (1 # 100)) by field.
  rewrite Ea, Eb. lra.
Qed.

Lemma _round_amount_0 : _round_amount 0 == 0.
Proof. reflexivity. Qed.

Lemma _round_amount_nonneg (x : Q) : 0 <= x -> 0 <= _round_amount x.
Proof. intros H. apply _round_amount_mono in H. rewrite _round_amount_0 in H. exact H. Qed.

Lemma is_cents_comp (x y : Q) : x == y -> is_cents x -> is_cents y.
Proof. intros H [n Hn]. exists n. rewrite <- H. exact Hn. Qed.

Lemma is_cents_0 : is_cents 0.
Proof. exists 0%Z. reflexivity. Qed.

Lemma is_cents_plus (x y : Q) : is_cents x -> is_cents y -> is_cents (x + y).
Proof.
  intros [n Hn] [m Hm]. exists (n + m)%Z.
  rewrite Hn, Hm, inject_Z_plus. field.
Qed.

Lemma is_cents_opp (x : Q) : is_cents x -> is_cents (- x).
Proof.
  intros [n Hn]. exists (- n)%Z. rewrite Hn, inject_Z_opp. field.
Qed.

(** Two-decimal amounts are a hundredth apart. *)
Lemma is_cents_gap (x y : Q) : is_cents x -> is_cents y -> x < y -> x + (1 # 100) <= y.
Proof.
  intros [n Hn] [m Hm] H. rewrite Hn, Hm in *.
  assert (Hlt : inject_Z n < inject_Z m).
  { assert (E1 : inject_Z n / 100 == inject_Z n * (1 # 100)) by field.
    assert (E2 : inject_Z m / 100 == inject_Z m * (1 # 100)) by field.
    rewrite E1, E2 in H. lra. }
  rewrite <- Zlt_Qlt in Hlt.
  assert (Hle : (n + 1 <= m)%Z) by lia.
  rewrite Zle_Qle, inject_Z_plus in Hle.
  assert (E1 : inject_Z n / 100 == inject_Z n * (1 # 100)) by field.
  assert (E2 : inject_Z m / 100 == inject_Z m * (1 # 100)) by field.
  rewrite E1, E2. change (inject_Z 1) with 1 in Hle. lra.
Qed.

(** ** The bank transaction ledger *)

Lemma Qsum_app (l1 l2 : list Q) : Qsum (l1 ++ l2) == Qsum l1 + Qsum l2.
Proof.
  induction l1 as [|a l1 IH]; simpl.
  - lra.
  - unfold Qsum in *. simpl. rewrite IH. lra.
Qed.

Lemma Qsum_cents (l : list Q) : Forall is_cents l -> is_cents (Qsum l).
Proof.
  induction 1 as [|a l Ha Hl IH]; simpl.
  - apply is_cents_0.
  - apply is_cents_plus; assumption.
Qed.

Lemma ledger_keys_ok_prefix (l : list BankTransaction.t) x :
  ledger_keys_ok (l ++ [x]) -> ledger_keys_ok l.
Proof.
  intros H i row Hi. apply H. rewrite lookup_app_l; [exact Hi|].
  eapply lookup_lt_Some; eauto.
Qed.

Lemma latest_step (l : list BankTransaction.t) x s :
  _latest_bank_transaction (set_bank_transactions s (l ++ [x])) =
  match _latest_bank_transaction (set_bank_transactions s l) with
  | None => Some x
  | Some b => if (BankTransaction.id b <? BankTransaction.id x)%Z then Some x else Some b
  end.
Proof.
  unfold _latest_bank_transaction. simpl. rewrite fold_left_app. reflexivity.
Qed.

Lemma latest_is_last (s : Session) :
  ledger_keys_ok (bank_transactions s) ->
  _latest_bank_transaction s = last (bank_transactions s).
Proof.
  destruct s as [cs ls rs es rows]. simpl.
  induction rows as [|x l IH] using rev_ind; intros Hk.
  - reflexivity.
  - change (mk_session cs ls rs es (l ++ [x]))
      with (set_bank_transactions (mk_session cs ls rs es l) (l ++ [x])).
    rewrite latest_step. simpl.
    change (set_bank_transactions (mk_session cs ls rs es l) l)
      with (mk_session cs ls rs es l).
    rewrite IH by (eapply ledger_keys_ok_prefix; eauto).
    rewrite last_snoc.
    destruct (last l) as [b|] eqn:Hl; [|reflexivity].
    rewrite last_lookup in Hl.
    assert (Hb : BankTransaction.id b = Z.of_nat (S (Nat.pred (length l)))).
    { apply Hk. rewrite lookup_app_l; [exact Hl|]. eapply lookup_lt_Some; eauto. }
    assert (Hx : BankTransaction.id x = Z.of_nat (S (length l))).
    { apply Hk. rewrite lookup_app_r by lia. rewrite Nat.sub_diag. reflexivity. }
    assert (Hlen : (0 < length l)%nat).
    { destruct l; simpl in *; [discriminate|lia]. }
    destruct (Z.ltb_spec (BankTransaction.id b) (BankTransaction.id x)); [reflexivity|lia].
Qed.

Lemma next_key_ok (rows : list BankTransaction.t) :
  ledger_keys_ok rows ->
  next_key BankTransaction.id rows = Z.of_nat (S (length rows)).
Proof.
  unfold next_key.
  induction rows as [|x l IH] using rev_ind; intros Hk.
  - reflexivity.
  - rewrite fold_left_app. simpl.
    assert (Hx : BankTransaction.id x = Z.of_nat (S (length l))).
    { apply Hk. rewrite lookup_app_r by lia. rewrite Nat.sub_diag. reflexivity. }
    specialize (IH (ledger_keys_ok_prefix _ _ Hk)).
    rewrite length_app. simpl. lia.
Qed.

Lemma ledger_balance_is_sum (rows : list BankTransaction.t) :
  ledger_inv rows ->
  match last rows with
  | Some r => BankTransaction.balance_after r
  | None => 0
  end == Qsum (BankTransaction.amount <$> rows)
  /\ Forall is_cents (BankTransaction.amount <$> rows).
Proof.
  intros [Hk Hr]. split.
  - destruct (last rows) as [r|] eqn:Hl.
    + rewrite last_lookup in Hl.
      destruct (Hr _ _ Hl) as (_ & _ & Hb). rewrite Hb. unfold running_sum_at.
      rewrite take_ge; [reflexivity|]. lia.
    + apply last_None in Hl. subst. reflexivity.
  - apply Forall_fmap. apply Forall_lookup. intros i x Hi.
    destruct (Hr _ _ Hi) as (Hc & _). exact Hc.
Qed.

Lemma get_bank_balance_last (s : Session) :
  ledger_inv (bank_transactions s) ->
  get_bank_balance s ==
  match last (bank_transactions s) with
  | Some r => BankTransaction.balance_after r
  | None => 0
  end.
Proof.
  intros Hinv. unfold get_bank_balance.
  rewrite latest_is_last by apply Hinv.
  destruct (last (bank_transactions s)) as [r|] eqn:Hl; [|reflexivity].
  apply _round_amount_id.
  destruct (ledger_balance_is_sum _ Hinv) as [Hs Hc]. rewrite Hl in Hs.
  eapply is_cents_comp; [symmetry; exact Hs|]. apply Qsum_cents. exact Hc.
Qed.

Lemma cents_small_is_zero (x : Q) : is_cents x -> Qabs x <= eps -> x == 0.
Proof.
  intros Hc Hsmall. apply Qabs_Qle_condition in Hsmall. unfold eps in Hsmall.
  destruct (Qlt_le_dec x 0) as [Hneg|Hpos].
  - pose proof (is_cents_gap x 0 Hc is_cents_0 Hneg). lra.
  - destruct (Qlt_le_dec 0 x) as [Hp|Hz]; [|lra].
    pose proof (is_cents_gap 0 x is_cents_0 Hc Hp). lra.
Qed.

Lemma append_preserves_ledger_inv (s : Session) (r : append_request) :
  ledger_inv (bank_transactions s) -> ledger_inv (bank_transactions (append s r)).
Proof.
  intros Hinv. unfold append, record_bank_transaction.
  qcase (Qabs (_round_amount (req_amount r))) eps; simpl; [exact Hinv|].
  pose proof (get_bank_balance_last s Hinv) as Hbal.
  destruct (ledger_balance_is_sum _ Hinv) as [Hsum Hcents].
  destruct Hinv as [Hk Hr].
  set (rows := bank_transactions s) in *.
  split.
  - intros i row Hi. destruct (decide (i < length rows)%nat) as [Hlt|Hge].
    + rewrite lookup_app_l in Hi by exact Hlt. apply Hk. exact Hi.
    + rewrite lookup_app_r in Hi by lia.
      destruct (i - length rows)%nat eqn:Hd; simpl in Hi; [|discriminate].
      injection Hi as <-. simpl. rewrite (next_key_ok _ Hk).
      f_equal. lia.
  - intros i row Hi. destruct (decide (i < length rows)%nat) as [Hlt|Hge].
    + rewrite lookup_app_l in Hi by exact Hlt.
      destruct (Hr _ _ Hi) as (Ha & Hb & Hc). repeat split; auto.
      rewrite Hc. unfold running_sum_at. rewrite take_app_le by lia. reflexivity.
    + rewrite lookup_app_r in Hi by lia.
      destruct (i - length rows)%nat eqn:Hd; simpl in Hi; [|discriminate].
      injection Hi as <-. simpl. repeat split.
      * apply _round_amount_cents.
      * intros Hz. rewrite Hz in H. unfold eps in H.
        change (Qabs 0) with 0 in H. lra.
      * unfold running_sum_at. rewrite take_ge by (rewrite length_app; simpl; lia).
        rewrite fmap_app, Qsum_app. simpl.
        assert (Hc : is_cents (get_bank_balance s + _round_amount (req_amount r))).
        { apply is_cents_plus; [|apply _round_amount_cents].
          eapply is_cents_comp; [symmetry; exact Hbal|].
          eapply is_cents_comp; [symmetry; exact Hsum|]. apply Qsum_cents. exact Hcents. }
        rewrite (_round_amount_id _ Hc), Hbal, Hsum. unfold Qsum. simpl. lra.
Qed.




(** ** The loan balance guard *)

Lemma Qsum_nonneg (l : list Q) : Forall (fun x => 0 <= x) l -> 0 <= Qsum l.
Proof.
  induction 1 as [|a l Ha Hl IH]; unfold Qsum in *; simpl; lra.
Qed.

Lemma paid_total_nonneg (session : Session) (loan : Loan.t) (ex : option Z) :
  0 <= paid_total session loan ex.
Proof.
  unfold paid_total. apply Qsum_nonneg. apply Forall_fmap, Forall_forall.
  intros r _. simpl. apply Qabs_nonneg.
Qed.

Lemma round_half_even_pos (y : Q) : 1 # 2 < y -> (1 <= round_half_even y)%Z.
Proof.
  intros Hy.
  assert (Hf : (0 <= Qfloor y)%Z).
  { change 0%Z with (Qfloor 0). apply Qfloor_resp_le. lra. }
  unfold round_half_even.
  destruct (Qcompare_spec (y - inject_Z (Qfloor y)) (1 # 2)) as [H|H|H].
  - assert (Hne : Qfloor y <> 0%Z).
    { intros E. rewrite E in H. change (inject_Z 0) with 0 in H. lra. }
    destruct (Z.even (Qfloor y)); lia.
  - assert (Hne : Qfloor y <> 0%Z).
    { intros E. rewrite E in H. change (inject_Z 0) with 0 in H. lra. }
    lia.
  - lia.
Qed.

(** An amount rounds to a positive value exactly when it exceeds half a
    hundredth. *)
Lemma _round_amount_pos_iff (x : Q) : 0 < _round_amount x <-> 1 # 200 < x.
Proof.
  split; intros H.
  - apply Qnot_le_lt. intros Hle. apply _round_amount_mono in Hle.
    assert (E : _round_amount (1 # 200) == 0) by reflexivity.
    rewrite E in Hle. lra.
  - unfold _round_amount. rewrite py_round_2. change (inject_Z 100) with 100.
    assert (Hy : 1 # 2 < x * 100) by lra.
    apply round_half_even_pos in Hy. rewrite Zle_Qle in Hy.
    change (inject_Z 1) with 1 in Hy.
    set (r := inject_Z (round_half_even (x * 100))) in *.
    assert (E : r / 100 == r * (1 # 100)) by field.
    rewrite E. lra.
Qed.

Lemma _initial_compounded_amount_nonneg (x : Q) : 0 <= _initial_compounded_amount x.
Proof.
  unfold _initial_compounded_amount. apply _round_amount_nonneg.
  pose proof (py_max_ge_r x 0). unfold COMPOUND_INTEREST_RATE.
  set (m := py_max x 0) in *. lra.
Qed.

Lemma _initial_compounded_amount_neg (x : Q) : x <= 0 -> _initial_compounded_amount x == 0.
Proof.
  intros H. unfold _initial_compounded_amount.
  assert (E : py_max x 0 * (1 + COMPOUND_INTEREST_RATE) == 0).
  { destruct (py_max_spec x 0) as [[_ E]|[H0 E]]; rewrite E.
    - lra.
    - assert (x == 0) by lra. unfold COMPOUND_INTEREST_RATE. nra. }
  change (py_round ?a 2) with (_round_amount a).
  rewrite (_round_amount_comp _ _ E). reflexivity.
Qed.

Lemma remaining_nonneg (session : Session) (loan : Loan.t) (ex : option Z) :
  0 <= _loan_remaining_compounded_balance session loan ex.
Proof. unfold _loan_remaining_compounded_balance. apply py_max_ge_r. Qed.

Lemma py_max_0_nonpos (a : Q) : a <= 0 -> py_max a 0 == 0.
Proof.
  intros H. destruct (py_max_spec a 0) as [[_ E]|[H0 E]]; rewrite E; lra.
Qed.

Lemma guard_cases (session : Session) (loan : Loan.t) (amount : Q) (ex : option Z) :
  let p := py_max (_round_amount (Qabs amount)) 0 in
  let allowed := _loan_remaining_compounded_balance session loan ex in
  (allowed <= 0 /\ 0 < p /\
   _ensure_repayment_within_loan_balance session loan amount ex
   = raise 400 (BalanceExhausted (label_of loan)))
  \/
  (~ (allowed <= 0 /\ 0 < p) /\ eps < p - allowed /\
   _ensure_repayment_within_loan_balance session loan amount ex
   = raise 400 (BalanceRemaining (label_of loan) allowed))
  \/
  (~ (allowed <= 0 /\ 0 < p) /\ p - allowed <= eps /\
   _ensure_repayment_within_loan_balance session loan amount ex = inr session).
Proof.
  intros p allowed. unfold _ensure_repayment_within_loan_balance.
  fold p. fold allowed.
  qcase allowed 0; simpl.
  - qcase p 0; simpl.
    + qcase (p - allowed) eps; simpl.
      * right. right. repeat split; auto. intros [_ ?]. lra.
      * right. left. repeat split; auto. intros [_ ?]. lra.
    + left. repeat split; auto.
  - qcase (p - allowed) eps; simpl.
    + right. right. repeat split; auto. intros [? _]. lra.
    + right. left. repeat split; auto. intros [? _]. lra.
Qed.

(** C6 (as the code has it).  The guard raises [InsufficientLoanBalance]
    exactly when [allowed <= 0 < p] or [p - allowed > 1e-9], where [p] is
    the proposed amount's absolute value rounded to two decimals and
    [allowed] is the compounded loan amount minus the absolute repayments
    recorded on the loan (the excluded one apart), rounded to two
    decimals and floored at zero.  It raises nothing else, and when it
    does not raise the session is the one it was given. *)
Theorem guard_raises_iff (session : Session) (loan : Loan.t) (amount : Q)
    (exclude_repayment_id : option Z) :
  let p := py_max (_round_amount (Qabs amount)) 0 in
  let allowed := _loan_remaining_compounded_balance session loan exclude_repayment_id in
  let outcome :=
    _ensure_repayment_within_loan_balance session loan amount exclude_repayment_id in
  allowed = py_max (_round_amount (compounded (py_max (Loan.loan_amount loan) 0)
                                   - paid_total session loan exclude_repayment_id)) 0 /\
  ((exists e, outcome = inl e /\ is_InsufficientLoanBalance e = true)
   <-> ((allowed <= 0 /\ 0 < p) \/ eps < p - allowed)) /\
  (forall e, outcome = inl e -> is_InsufficientLoanBalance e = true) /\
  (forall session', outcome = inr session' -> session' = session).
Proof.
  intros p allowed outcome. split; [reflexivity|].
  destruct (guard_cases session loan amount exclude_repayment_id)
    as [(H1 & H2 & E)|[(H1 & H2 & E)|(H1 & H2 & E)]];
    fold p in H1, H2; fold allowed in H1, H2; fold outcome in E; rewrite E.
  - split; [split|split].
    + intros _. left. split; assumption.
    + intros _. eexists. split; [reflexivity|reflexivity].
    + intros e He. injection He as <-. reflexivity.
    + intros s' He. discriminate.
  - split; [split|split].
    + intros _. right. assumption.
    + intros _. eexists. split; [reflexivity|reflexivity].
    + intros e He. injection He as <-. reflexivity.
    + intros s' He. discriminate.
  - split; [split|split].
    + intros (e & He & _). discriminate.
    + intros [H|H]; [contradiction|lra].
    + intros e He. discriminate.
    + intros s' He. injection He as <-. reflexivity.
Qed.

(** C6, the statement as the specification words it, fails on the code:
    a proposed amount of -700 against a fresh loan of 500 is rejected
    (the guard takes its absolute value) although the stated condition
    does not hold, and a proposed amount of 0.004 against a loan with
    nothing left is let through (it rounds to 0.00) although the stated
    condition holds. *)
Lemma guard_stated_condition_fails :
  (exists e,
     _ensure_repayment_within_loan_balance
       (sample_session_with_loan 500) (sample_loan 500) (-700) None = inl e /\
     is_InsufficientLoanBalance e = true) /\
  assertWithinBalance_fails_spec
    (sample_session_with_loan 500) (sample_loan 500) (-700) None = false /\
  _ensure_repayment_within_loan_balance
    (sample_session_with_loan 0) (sample_loan 0) (4 # 1000) None
  = inr (sample_session_with_loan 0) /\
  assertWithinBalance_fails_spec
    (sample_session_with_loan 0) (sample_loan 0) (4 # 1000) None = true.
Proof.
  split; [|split; [|split]].
  - eexists. split; vm_compute; reflexivity.
  - vm_compute. reflexivity.
  - vm_compute. reflexivity.
  - vm_compute. reflexivity.
Qed.

(** C10 (as the code has it).  The compounded amount of a loan is
    [round(max(loan_amount, 0) * 1.20, 2)]; a loan with a negative
    [loan_amount] has remaining balance 0, and a proposed repayment
    against it is rejected as soon as its magnitude exceeds 0.005, that
    is as soon as it does not round to 0.00; smaller ones pass. *)
Theorem negative_principal_guard (session : Session) (loan : Loan.t) (amount : Q)
    (exclude_repayment_id : option Z) :
  Loan.loan_amount loan < 0 ->
  _initial_compounded_amount (Loan.loan_amount loan)
  = py_round (py_max (Loan.loan_amount loan) 0 * (1 + (20 # 100))) 2 /\
  _initial_compounded_amount (Loan.loan_amount loan) == 0 /\
  _loan_remaining_compounded_balance session loan exclude_repayment_id == 0 /\
  (1 # 200 < Qabs amount ->
   _ensure_repayment_within_loan_balance session loan amount exclude_repayment_id
   = raise 400 (BalanceExhausted (label_of loan))) /\
  (Qabs amount <= 1 # 200 ->
   _ensure_repayment_within_loan_balance session loan amount exclude_repayment_id
   = inr session).
Proof.
  intros Hneg.
  assert (Hbase : _initial_compounded_amount (Loan.loan_amount loan) == 0).
  { apply _initial_compounded_amount_neg. lra. }
  assert (Hrem : _loan_remaining_compounded_balance session loan exclude_repayment_id == 0).
  { unfold _loan_remaining_compounded_balance. apply py_max_0_nonpos.
    pose proof (paid_total_nonneg session loan exclude_repayment_id) as Hp.
    assert (Hle : _initial_compounded_amount (Loan.loan_amount loan)
                  - paid_total session loan exclude_repayment_id <= 0) by lra.
    apply _round_amount_mono in Hle. rewrite _round_amount_0 in Hle. exact Hle. }
  split; [reflexivity|]. split; [exact Hbase|]. split; [exact Hrem|].
  pose proof (_round_amount_pos_iff (Qabs amount)) as Hpos.
  pose proof (_round_amount_nonneg (Qabs amount) (Qabs_nonneg amount)) as Hnn.
  assert (Hp : py_max (_round_amount (Qabs amount)) 0 = _round_amount (Qabs amount)).
  { apply py_max_id. exact Hnn. }
  destruct (guard_cases session loan amount exclude_repayment_id)
    as [(H1 & H2 & E)|[(H1 & H2 & E)|(H1 & H2 & E)]];
    try rewrite Hp in H1; try rewrite Hp in H2; rewrite E.
  - split; [reflexivity|]. intros Hs. exfalso.
    apply Hpos in H2. lra.
  - exfalso. apply H1. split; [lra|]. unfold eps in H2. lra.
  - split; [|reflexivity]. intros Hs. exfalso. apply H1.
    split; [lra|]. apply Hpos. exact Hs.
Qed.

Lemma negative_principal_guard_witness :
  Loan.loan_amount (sample_loan (-100)) < 0 /\
  _ensure_repayment_within_loan_balance
    (sample_session_with_loan (-100)) (sample_loan (-100)) 50 None
  = raise 400 (BalanceExhausted (LabelCode "LN-0001")).
Proof.
  split; [reflexivity|].
  apply (negative_principal_guard
           (sample_session_with_loan (-100)) (sample_loan (-100)) 50 None);
    reflexivity.
Defined.

(** C10, the statement as worded, fails on the code: against a loan of
    -100 a proposed repayment of 0.004, which is positive, is not
    rejected. *)
Lemma negative_principal_small_amount_passes :
  Loan.loan_amount (sample_loan (-100)) < 0 /\
  0 < 4 # 1000 /\
  _ensure_repayment_within_loan_balance
    (sample_session_with_loan (-100)) (sample_loan (-100)) (4 # 1000) None
  = inr (sample_session_with_loan (-100)).
Proof.
  split; [reflexivity|]. split; [reflexivity|]. vm_compute. reflexivity.
Qed.

(** ** Timeline lemmas *)

Lemma balance_at_end_snoc (p : Q) (l : list CompoundBalanceEvent.t) e :
  balance_at_end p (l ++ [e]) = CompoundBalanceEvent.balance_after e.
Proof. unfold balance_at_end. rewrite last_snoc. reflexivity. Qed.

Lemma balance_at_end_cons (p : Q) e (l : list CompoundBalanceEvent.t) :
  balance_at_end p (e :: l) = balance_at_end (CompoundBalanceEvent.balance_after e) l.
Proof.
  unfold balance_at_end. destruct l as [|e' l]; [reflexivity|].
  rewrite last_cons. destruct (last (e' :: l)) eqn:E; [reflexivity|].
  apply last_None in E. discriminate.
Qed.

Lemma replay_from_comp (p q : Q) (l : list CompoundBalanceEvent.t) :
  p == q -> replay_from p l -> replay_from q l.
Proof.
  intros Hpq. destruct l as [|e l]; [trivial|]. cbn [replay_from].
  intros [H1 H2]. split; [|exact H2].
  apply Qabs_Qle_condition in H1. apply Qabs_Qle_condition.
  destruct (py_max_spec (p + CompoundBalanceEvent.change_amount e) 0) as [[A1 A2]|[A1 A2]];
    destruct (py_max_spec (q + CompoundBalanceEvent.change_amount e) 0) as [[B1 B2]|[B1 B2]];
    rewrite A2 in H1; rewrite B2; lra.
Qed.

Lemma replay_from_snoc (p : Q) (l : list CompoundBalanceEvent.t) e :
  replay_from p (l ++ [e]) <->
  replay_from p l /\
  Qabs (CompoundBalanceEvent.balance_after e
        - py_max (balance_at_end p l + CompoundBalanceEvent.change_amount e) 0) <= 1 # 100.
Proof.
  revert p. induction l as [|a l IH]; intros p.
  - cbn [replay_from app]. unfold balance_at_end. cbn [last]. tauto.
  - cbn [replay_from app]. rewrite IH, balance_at_end_cons. tauto.
Qed.

Lemma of_customer_app (k : Z) (l1 l2 : list CompoundBalanceEvent.t) :
  of_customer k (l1 ++ l2) = of_customer k l1 ++ of_customer k l2.
Proof. apply List.filter_app. Qed.

Lemma of_customer_all (k : Z) (l : list CompoundBalanceEvent.t) :
  Forall (fun e => CompoundBalanceEvent.customer_id e = k) l -> of_customer k l = l.
Proof.
  induction 1 as [|e l He Hl IH]; [reflexivity|].
  unfold of_customer in *. simpl. rewrite He, Z.eqb_refl, IH. reflexivity.
Qed.

Lemma of_customer_none (k k' : Z) (l : list CompoundBalanceEvent.t) :
  k' <> k -> Forall (fun e => CompoundBalanceEvent.customer_id e = k) l ->
  of_customer k' l = [].
Proof.
  intros Hne. induction 1 as [|e l He Hl IH]; [reflexivity|].
  unfold of_customer in *. simpl. rewrite He.
  destruct (Z.eqb_spec k k'); [congruence|]. exact IH.
Qed.

Lemma event_keys_ok_snoc (l : list CompoundBalanceEvent.t) e :
  event_keys_ok l ->
  CompoundBalanceEvent.id e = next_key CompoundBalanceEvent.id l ->
  event_keys_ok (l ++ [e]).
Proof.
  intros Hk He.
  assert (Hnext : next_key CompoundBalanceEvent.id l = Z.of_nat (S (length l))).
  { clear He. unfold next_key. induction l as [|x l IH] using rev_ind; [reflexivity|].
    rewrite fold_left_app. simpl.
    assert (Hx : CompoundBalanceEvent.id x = Z.of_nat (S (length l))).
    { apply Hk. rewrite lookup_app_r by lia. rewrite Nat.sub_diag. reflexivity. }
    assert (Hl : event_keys_ok l).
    { intros i y Hi. apply Hk. rewrite lookup_app_l; [exact Hi|].
      eapply lookup_lt_Some; eauto. }
    specialize (IH Hl). rewrite length_app. simpl. lia. }
  intros i y Hi. destruct (decide (i < length l)%nat) as [Hlt|Hge].
  - rewrite lookup_app_l in Hi by exact Hlt. apply Hk. exact Hi.
  - rewrite lookup_app_r in Hi by lia.
    destruct (i - length l)%nat eqn:Hd; simpl in Hi; [|discriminate].
    injection Hi as <-. rewrite He, Hnext. f_equal. lia.
Qed.


(** ** The compounding loop *)

Lemma COMPOUND_INTERVAL_pos : (0 < COMPOUND_INTERVAL)%Z.
Proof. reflexivity. Qed.

Lemma periods_due_zero (now : Z) (t : datetime) :
  periods_due now t = O <-> (now < ticks t)%Z.
Proof.
  unfold periods_due. pose proof COMPOUND_INTERVAL_pos as HI.
  split; intros H.
  - destruct (Z.lt_ge_cases now (ticks t)) as [Hlt|Hge]; [exact Hlt|].
    assert (0 <= (now - ticks t) / COMPOUND_INTERVAL)%Z by (apply Z.div_pos; lia).
    lia.
  - assert ((now - ticks t) / COMPOUND_INTERVAL < 0)%Z by (apply Z.div_lt_upper_bound; lia).
    lia.
Qed.

Lemma periods_due_step (now : Z) (t : datetime) :
  (ticks t <= now)%Z ->
  periods_due now t = S (periods_due now (dt_add t COMPOUND_INTERVAL)).
Proof.
  intros Hle. unfold periods_due, dt_add. simpl.
  pose proof COMPOUND_INTERVAL_pos as HI.
  replace (now - ticks t)%Z with ((now - (ticks t + COMPOUND_INTERVAL)) + 1 * COMPOUND_INTERVAL)%Z
    by lia.
  rewrite Z.div_add by lia.
  assert (-1 <= (now - (ticks t + COMPOUND_INTERVAL)) / COMPOUND_INTERVAL)%Z.
  { apply Z.div_le_lower_bound; lia. }
  lia.
Qed.

(** The bounds that make [periods_due] the number of boundaries crossed. *)
Lemma periods_due_bounds (now : Z) (t : datetime) :
  (ticks t <= now)%Z ->
  (1 <= periods_due now t)%nat /\
  (ticks t + (Z.of_nat (periods_due now t) - 1) * COMPOUND_INTERVAL <= now
   < ticks t + Z.of_nat (periods_due now t) * COMPOUND_INTERVAL)%Z.
Proof.
  intros Hle. unfold periods_due. pose proof COMPOUND_INTERVAL_pos as HI.
  assert (H0 : (0 <= (now - ticks t) / COMPOUND_INTERVAL)%Z) by (apply Z.div_pos; lia).
  pose proof (Z.div_mod (now - ticks t) COMPOUND_INTERVAL ltac:(lia)) as Hdm.
  pose proof (Z.mod_pos_bound (now - ticks t) COMPOUND_INTERVAL HI) as Hm.
  rewrite Z2Nat.id by lia.
  split; [lia|]. nia.
Qed.

Lemma growth_step_next (now : Z) (st : growth_state) :
  g_next_compound_at (growth_step now st) = dt_add (g_next_compound_at st) COMPOUND_INTERVAL.
Proof. reflexivity. Qed.

(** The loop runs all the turns [periods_due] counts ... *)
Lemma growth_loop_iter (now : Z) (fuel : nat) (st : growth_state) :
  (fuel <= periods_due now (g_next_compound_at st))%nat ->
  growth_loop fuel now st = Nat.iter fuel (growth_step now) st.
Proof.
  revert st. induction fuel as [|k IH]; intros st Hle; [reflexivity|].
  assert (Hdue : (ticks (g_next_compound_at st) <= now)%Z).
  { destruct (Z.le_gt_cases (ticks (g_next_compound_at st)) now) as [H|H]; [exact H|].
    apply periods_due_zero in H. lia. }
  cbn [growth_loop].
  destruct (Z.leb_spec (ticks (g_next_compound_at st)) now) as [_|Hgt]; [|lia].
  rewrite IH.
  - rewrite Nat.iter_succ_r. reflexivity.
  - rewrite growth_step_next. rewrite (periods_due_step now _ Hdue) in Hle. lia.
Qed.

(** ... and then stops: it never runs out of fuel. *)
Lemma growth_loop_exit (now : Z) (fuel : nat) (st : growth_state) :
  (periods_due now (g_next_compound_at st) <= fuel)%nat ->
  (now < ticks (g_next_compound_at (growth_loop fuel now st)))%Z.
Proof.
  revert st. induction fuel as [|k IH]; intros st Hle.
  - apply periods_due_zero. simpl. lia.
  - cbn [growth_loop].
    destruct (Z.leb_spec (ticks (g_next_compound_at st)) now) as [Hdue|Hgt]; [|exact Hgt].
    apply IH. rewrite growth_step_next.
    rewrite (periods_due_step now _ Hdue) in Hle. lia.
Qed.

(** An invariant of the loop body is an invariant of the loop. *)
Lemma growth_loop_ind (now : Z) (I : growth_state -> Prop) :
  (forall st, I st -> I (growth_step now st)) ->
  forall fuel st, I st -> I (growth_loop fuel now st).
Proof.
  intros Hstep fuel. induction fuel as [|k IH]; intros st Hst; [exact Hst|].
  cbn [growth_loop]. destruct (_ <=? _)%Z; [|exact Hst].
  apply IH, Hstep, Hst.
Qed.

Lemma growth_iter_projected (now : Z) (n : nat) (st : growth_state) :
  g_projected (Nat.iter n (growth_step now) st) = compound_n n (g_projected st).
Proof.
  induction n as [|n IH]; [reflexivity|].
  unfold compound_n in *. simpl. rewrite IH. reflexivity.
Qed.

Lemma growth_iter_next (now : Z) (n : nat) (st : growth_state) :
  g_next_compound_at (Nat.iter n (growth_step now) st)
  = mk_datetime (tz_aware (g_next_compound_at st))
      (ticks (g_next_compound_at st) + Z.of_nat n * COMPOUND_INTERVAL).
Proof.
  induction n as [|n IH].
  - simpl. destruct (g_next_compound_at st). simpl. f_equal. lia.
  - rewrite Nat.iter_succ, growth_step_next, IH. unfold dt_add. simpl. f_equal. lia.
Qed.

Lemma growth_iter_customer (now : Z) (n : nat) (st : growth_state) :
  let c := g_customer (Nat.iter n (growth_step now) st) in
  Customer.id c = Customer.id (g_customer st) /\
  Customer.customer_code c = Customer.customer_code (g_customer st) /\
  Customer.last_principal c = Customer.last_principal (g_customer st) /\
  ((0 < n)%nat ->
   Customer.projected_balance c = compound_n n (g_projected st) /\
   Customer.next_compound_at c
   = Some (g_next_compound_at (Nat.iter n (growth_step now) st)) /\
   g_updated (Nat.iter n (growth_step now) st) = true).
Proof.
  induction n as [|n IH]; simpl.
  - repeat split; try reflexivity; lia.
  - destruct IH as (H1 & H2 & H3 & _). repeat split; auto.
    rewrite growth_iter_projected. reflexivity.
Qed.

Lemma same_but_events_refl (s : Session) : same_but_events s s.
Proof. repeat split. Qed.

Lemma same_but_events_trans (s1 s2 s3 : Session) :
  same_but_events s1 s2 -> same_but_events s2 s3 -> same_but_events s1 s3.
Proof.
  intros (A1 & A2 & A3 & A4) (B1 & B2 & B3 & B4).
  repeat split; congruence.
Qed.

Lemma id_of_set_projected_balance (c : Customer.t) (v : Q) :
  id_of (Customer.set_projected_balance c v) = id_of c.
Proof. reflexivity. Qed.

Lemma id_of_set_next_compound_at (c : Customer.t) v :
  id_of (Customer.set_next_compound_at c v) = id_of c.
Proof. reflexivity. Qed.

Lemma id_of_set_last_principal (c : Customer.t) v :
  id_of (Customer.set_last_principal c v) = id_of c.
Proof. reflexivity. Qed.

(** What [_record_balance_event] does when it records. *)
Lemma _record_balance_event_some (s : Session) (c : Customer.t) (cid : Z)
    ty change descr meta time clock :
  id_of c = Some cid -> eps < Qabs change ->
  exists e,
    _record_balance_event s c ty change descr meta time clock
    = (Some e, set_balance_events s (balance_events s ++ [e])) /\
    event_view e
    = (cid, ty,
       match ensure_myt_datetime time with Some t => t | None => aware clock end,
       _round_amount change,
       _round_amount (py_max (Customer.projected_balance c) 0)) /\
    CompoundBalanceEvent.id e = next_key CompoundBalanceEvent.id (balance_events s).
Proof.
  intros Hid Hch. unfold _record_balance_event. rewrite Hid.
  qcase (Qabs change) eps; [lra|].
  eexists. split; [reflexivity|]. split; [|reflexivity].
  unfold event_view. simpl. repeat f_equal.
  unfold _safe_myt, to_myt_datetime. destruct time; reflexivity.
Qed.

Lemma _record_balance_event_none (s : Session) (c : Customer.t)
    ty change descr meta time clock :
  Qabs change <= eps ->
  _record_balance_event s c ty change descr meta time clock = (None, s).
Proof.
  intros Hch. unfold _record_balance_event.
  destruct (id_of c); [|reflexivity].
  qcase (Qabs change) eps; [reflexivity|lra].
Qed.

Lemma growing_periods_S (P : Q) (n : nat) :
  growing_periods P (S n)
  = growing_periods P n
    ++ (if eps <? compound_n (S n) P - compound_n n P then [n] else []).
Proof.
  unfold growing_periods. rewrite seq_S, List.filter_app. reflexivity.
Qed.

Lemma growth_iter_session_none (now : Z) (n : nat) (st : growth_state) :
  g_session st = None -> g_session (Nat.iter n (growth_step now) st) = None.
Proof.
  intros H. induction n as [|n IH]; [exact H|].
  rewrite Nat.iter_succ. unfold growth_step at 1. simpl. rewrite IH. reflexivity.
Qed.

(** The events the loop records in [n] turns. *)
Lemma growth_iter_events (now : Z) (n : nat) (st : growth_state) (s : Session) (cid : Z) :
  g_session st = Some s ->
  id_of (g_customer st) = Some cid ->
  exists s' evs,
    g_session (Nat.iter n (growth_step now) st) = Some s' /\
    same_but_events s s' /\
    balance_events s' = balance_events s ++ evs /\
    event_view <$> evs
    = growth_view cid (g_projected st) (ticks (g_next_compound_at st))
        <$> growing_periods (g_projected st) n /\
    (event_keys_ok (balance_events s) -> event_keys_ok (balance_events s')).
Proof.
  intros Hs Hid. induction n as [|n IH].
  - exists s, []. simpl. rewrite app_nil_r.
    split; [assumption|]. split; [apply same_but_events_refl|].
    split; [reflexivity|]. split; [reflexivity|]. auto.
  - destruct IH as (s1 & evs & Hs1 & Hsame & Hev & Hview & Hkeys).
    rewrite Nat.iter_succ. rewrite growing_periods_S.
    pose proof (growth_iter_projected now n st) as Hp.
    pose proof (growth_iter_next now n st) as Hn.
    destruct (growth_iter_customer now n st) as (Hcid & _).
    set (stn := Nat.iter n (growth_step now) st) in *.
    unfold growth_step at 1. cbn [g_session]. rewrite Hs1, Hp.
    change (py_round (compound_n n (g_projected st) * (1 + COMPOUND_INTEREST_RATE)) 2)
      with (compound_n (S n) (g_projected st)).
    qcase (compound_n (S n) (g_projected st) - compound_n n (g_projected st)) eps;
      cbn [negb].
    + exists s1, evs. rewrite app_nil_r.
      split; [reflexivity|]. split; [assumption|]. split; [assumption|].
      split; assumption.
    + set (inc := compound_n (S n) (g_projected st) - compound_n n (g_projected st)) in *.
      set (c' := Customer.set_projected_balance (g_customer stn)
                   (compound_n (S n) (g_projected st))).
      assert (Hid' : id_of c' = Some cid).
      { unfold c'. rewrite id_of_set_projected_balance. unfold id_of. rewrite Hcid.
        exact Hid. }
      assert (Habs : eps < Qabs inc).
      { pose proof (Qle_Qabs inc). lra. }
      match goal with
      | |- context [_record_balance_event s1 c' ?ty ?ch ?d ?m ?t ?cl] =>
          destruct (_record_balance_event_some s1 c' cid ty ch d m t cl Hid' Habs)
            as (e & He & Hv & Hkey)
      end.
      rewrite He. cbn [snd].
      exists (set_balance_events s1 (balance_events s1 ++ [e])), (evs ++ [e]).
      split; [reflexivity|]. split.
      { destruct Hsame as (A1 & A2 & A3 & A4). repeat split; simpl; assumption. }
      split.
      { simpl. rewrite Hev, app_assoc. reflexivity. }
      split.
      { rewrite !fmap_app, Hview. f_equal. simpl. f_equal.
        rewrite Hv. unfold growth_view. simpl. rewrite Hn. reflexivity. }
      intros Hk. simpl. apply event_keys_ok_snoc; [apply Hkeys; exact Hk|exact Hkey].
Qed.

(** ** [_apply_compound_growth] *)

Lemma Qabs_self (x : Q) : Qabs (x - x) <= eps.
Proof. apply Qabs_Qle_condition. unfold eps. split; lra. Qed.

Lemma dt_eqb_ensure (v : option datetime) :
  dt_eqb (ensure_myt_datetime v) v = true -> ensure_myt_datetime v = v.
Proof.
  destruct v as [[a t]|]; simpl; [|reflexivity].
  destruct a; simpl; [reflexivity|discriminate].
Qed.

Lemma ensure_myt_datetime_idem (v : option datetime) :
  ensure_myt_datetime (ensure_myt_datetime v) = ensure_myt_datetime v.
Proof. destruct v; reflexivity. Qed.

Lemma dt_eqb_refl (v : option datetime) : dt_eqb v v = true.
Proof.
  destruct v as [[a t]|]; simpl; [|reflexivity].
  rewrite Z.eqb_refl. destruct a; reflexivity.
Qed.

Lemma run_growth_spec (now : Z) (c : Customer.t) (session : option Session)
    (t : datetime) (u : bool) :
  let n := periods_due now t in
  let st := Nat.iter n (growth_step now)
              (mk_growth c session (Customer.projected_balance c) t u) in
  run_growth now c session (Customer.projected_balance c) t u
  = (g_updated st, g_customer st, g_session st) /\
  Customer.projected_balance (g_customer st) = compound_n n (Customer.projected_balance c) /\
  (now < ticks t + Z.of_nat n * COMPOUND_INTERVAL)%Z.
Proof.
  intros n st.
  assert (Hloop : growth_loop n now (mk_growth c session (Customer.projected_balance c) t u) = st).
  { apply growth_loop_iter. reflexivity. }
  assert (Hpb : Customer.projected_balance (g_customer st)
                = compound_n n (Customer.projected_balance c)).
  { destruct (growth_iter_customer now n
                (mk_growth c session (Customer.projected_balance c) t u)) as (_ & _ & _ & H).
    destruct n as [|n'] eqn:En; [reflexivity|].
    destruct H as (H & _); [lia|]. exact H. }
  split; [|split].
  - unfold run_growth. fold n. rewrite Hloop. rewrite Hpb.
    unfold st at 1. rewrite growth_iter_projected. cbn [g_projected].
    qcase (Qabs (compound_n n (Customer.projected_balance c)
                 - compound_n n (Customer.projected_balance c))) eps.
    + reflexivity.
    + pose proof (Qabs_self (compound_n n (Customer.projected_balance c))). lra.
  - exact Hpb.
  - pose proof (growth_loop_exit now n
                  (mk_growth c session (Customer.projected_balance c) t u)) as Hex.
    rewrite Hloop in Hex. unfold st in Hex. rewrite growth_iter_next in Hex.
    simpl in Hex. apply Hex. reflexivity.
Qed.

(** A customer with no balance: the balance is put to zero and the
    schedule is cleared; nothing is recorded. *)
Lemma advance_inactive (c : Customer.t) (now : Z) (session : option Session) :
  Customer.projected_balance c <= 0 ->
  exists u c',
    _apply_compound_growth c now session = (u, c', session) /\
    Customer.projected_balance c' == 0 /\
    Customer.next_compound_at c' = None /\
    Customer.id c' = Customer.id c /\
    Customer.customer_code c' = Customer.customer_code c /\
    Customer.last_principal c' = Customer.last_principal c /\
    (Customer.projected_balance c == 0 ->
     Customer.projected_balance c' = Customer.projected_balance c).
Proof.
  intros Hle. unfold _apply_compound_growth.
  assert (Hp : py_max (Customer.projected_balance c) 0 <= 0).
  { destruct (py_max_spec (Customer.projected_balance c) 0) as [[_ E]|[_ E]];
      rewrite E; lra. }
  destruct c as [id code pb lp nca]. cbn in Hle, Hp |- *.
  destruct nca as [[a t]|]; [destruct a|]; cbn;
    rewrite ?Z.eqb_refl; cbn;
    (qcase (py_max pb 0) 0; [|lra]);
    (destruct (Qeq_bool pb 0) eqn:Ez;
     [pose proof (proj1 (Qeq_bool_iff _ _) Ez) as Ez'
     |pose proof (Qeq_bool_neq _ _ Ez) as Ez']);
    cbn; rewrite ?Ez; cbn;
    (eexists; eexists; split; [reflexivity|]);
    cbn; repeat split; try reflexivity; try assumption; try (intros; contradiction).
Qed.

Lemma first_boundary_aware (c : Customer.t) (now : Z) :
  tz_aware (first_boundary c now) = true.
Proof.
  unfold first_boundary. destruct (Customer.next_compound_at c); reflexivity.
Qed.

Lemma _apply_compound_growth_positive (c : Customer.t) (now : Z) (session : option Session) :
  0 < Customer.projected_balance c ->
  exists u c0,
    _apply_compound_growth c now session
    = run_growth now c0 session (Customer.projected_balance c0) (first_boundary c now) u /\
    Customer.projected_balance c0 = Customer.projected_balance c /\
    Customer.id c0 = Customer.id c /\
    Customer.customer_code c0 = Customer.customer_code c /\
    Customer.last_principal c0 = Customer.last_principal c /\
    Customer.next_compound_at c0 = Some (first_boundary c now) /\
    (u = false -> c0 = c) /\
    (forall t, Customer.next_compound_at c = Some (aware t) -> u = false).
Proof.
  intros Hpos. unfold _apply_compound_growth, first_boundary.
  assert (Hmax : py_max (Customer.projected_balance c) 0 = Customer.projected_balance c).
  { apply py_max_id. lra. }
  rewrite Hmax.
  destruct c as [id code pb lp nca]. cbn in Hpos |- *.
  destruct nca as [[a t]|]; [destruct a|]; cbn; rewrite ?Z.eqb_refl; cbn;
    (qcase pb 0; [lra|]); cbn.
  - exists false, (Customer.mk id code pb lp (Some (mk_datetime true t))).
    split; [reflexivity|]. repeat split.
  - exists true, (Customer.mk id code pb lp (Some (mk_datetime true t))).
    split; [reflexivity|]. repeat split; discriminate.
  - exists true, (Customer.mk id code pb lp (Some (aware (now + COMPOUND_INTERVAL)))).
    split; [reflexivity|]. repeat split; discriminate.
Qed.

(** What [_apply_compound_growth] leaves behind for a customer with a
    positive balance: the balance compounded over the periods due, the
    next boundary beyond [now], the other fields untouched, and the
    growth events of the periods in which the balance grew. *)
Lemma advance_positive (c : Customer.t) (now : Z) (session : option Session) :
  0 < Customer.projected_balance c ->
  let t := first_boundary c now in
  let n := periods_due now t in
  exists u c' session',
    _apply_compound_growth c now session = (u, c', session') /\
    Customer.projected_balance c' = compound_n n (Customer.projected_balance c) /\
    Customer.next_compound_at c'
    = Some (aware (ticks t + Z.of_nat n * COMPOUND_INTERVAL)) /\
    (now < ticks t + Z.of_nat n * COMPOUND_INTERVAL)%Z /\
    Customer.id c' = Customer.id c /\
    Customer.customer_code c' = Customer.customer_code c /\
    Customer.last_principal c' = Customer.last_principal c /\
    (session = None -> session' = None) /\
    (forall s cid, session = Some s -> id_of c = Some cid ->
     exists s' evs,
       session' = Some s' /\ same_but_events s s' /\
       balance_events s' = balance_events s ++ evs /\
       event_view <$> evs
       = growth_view cid (Customer.projected_balance c) (ticks t)
           <$> growing_periods (Customer.projected_balance c) n /\
       (event_keys_ok (balance_events s) -> event_keys_ok (balance_events s'))).
Proof.
  intros Hpos t n.
  destruct (_apply_compound_growth_positive c now session Hpos)
    as (u & c0 & Heq & Hpb & Hid & Hcode & Hlp & Hnca & _ & _).
  fold t in Heq, Hnca.
  destruct (run_growth_spec now c0 session t u) as (Hrun & Hpb' & Hexit).
  fold n in Hrun, Hpb', Hexit.
  set (st0 := mk_growth c0 session (Customer.projected_balance c0) t u) in *.
  set (st := Nat.iter n (growth_step now) st0) in *.
  exists (g_updated st), (g_customer st), (g_session st).
  split; [rewrite Heq; exact Hrun|].
  destruct (growth_iter_customer now n st0) as (Hi & Hc & Hl & Hn). fold st in Hi, Hc, Hl, Hn.
  split; [rewrite Hpb', Hpb; reflexivity|].
  split.
  { destruct n as [|n'] eqn:En.
    - unfold st. simpl. rewrite Hnca. unfold aware. f_equal.
      pose proof (first_boundary_aware c now) as Ha. fold t in Ha.
      destruct t as [a tt]. simpl in *. subst a. f_equal. lia.
    - destruct Hn as (_ & Hn & _); [lia|]. rewrite Hn. unfold st.
      rewrite growth_iter_next. unfold st0. cbn [g_next_compound_at].
      pose proof (first_boundary_aware c now) as Ha. fold t in Ha. rewrite Ha.
      reflexivity. }
  split; [exact Hexit|].
  split; [rewrite Hi; exact Hid|].
  split; [rewrite Hc; exact Hcode|].
  split; [rewrite Hl; exact Hlp|].
  split.
  { intros ->. apply growth_iter_session_none. reflexivity. }
  intros s cid -> Hcid.
  assert (Hcid0 : id_of (g_customer st0) = Some cid).
  { unfold st0. cbn [g_customer]. unfold id_of in *. rewrite Hid. exact Hcid. }
  destruct (growth_iter_events now n st0 s cid eq_refl Hcid0)
    as (s' & evs & H1 & H2 & H3 & H4 & H5).
  exists s', evs. fold st in H1.
  unfold st0 in H4. cbn [g_projected g_next_compound_at] in H4. rewrite Hpb in H4.
  split; [exact H1|]. split; [exact H2|]. split; [exact H3|]. split; [exact H4|exact H5].
Qed.

(** A customer whose schedule is ahead of [now], or who has neither
    balance nor schedule, is left exactly as it is. *)
Lemma advance_fixed (c : Customer.t) (now : Z) (session : option Session) :
  (exists t, 0 < Customer.projected_balance c /\
             Customer.next_compound_at c = Some (aware t) /\ (now < t)%Z) \/
  (Customer.projected_balance c == 0 /\ Customer.next_compound_at c = None) ->
  _apply_compound_growth c now session = (false, c, session).
Proof.
  intros [(t & Hpos & Hnca & Hlt)|(Hz & Hnca)].
  - destruct (_apply_compound_growth_positive c now session Hpos)
      as (u & c0 & Heq & _ & _ & _ & _ & _ & Hc0 & Hu).
    specialize (Hu t Hnca). subst u. specialize (Hc0 eq_refl). subst c0.
    assert (Hfb : first_boundary c now = aware t).
    { unfold first_boundary. rewrite Hnca. reflexivity. }
    rewrite Hfb in Heq. rewrite Heq.
    destruct (run_growth_spec now c session (aware t) false) as (Hrun & _).
    rewrite Hrun.
    assert (Hn : periods_due now (aware t) = O) by (apply periods_due_zero; exact Hlt).
    rewrite Hn. reflexivity.
  - unfold _apply_compound_growth. rewrite Hnca. cbn.
    assert (Hmax : py_max (Customer.projected_balance c) 0 <= 0).
    { destruct (py_max_spec (Customer.projected_balance c) 0) as [[_ E]|[_ E]];
        rewrite E; lra. }
    qcase (py_max (Customer.projected_balance c) 0) 0; [|lra].
    apply Qeq_bool_iff in Hz. rewrite Hz. cbn. rewrite Hnca. reflexivity.
Qed.

(** ** Growth of a two-decimal balance *)

Lemma compound_n_S (n : nat) (P : Q) :
  compound_n (S n) P = _round_amount (compound_n n P * (1 + COMPOUND_INTEREST_RATE)).
Proof. reflexivity. Qed.

Lemma compound_step_ge (c : Q) :
  is_cents c -> 0 <= c -> c <= _round_amount (c * (1 + COMPOUND_INTEREST_RATE)).
Proof.
  intros Hc H0.
  assert (Hle : c <= c * (1 + COMPOUND_INTEREST_RATE)).
  { unfold COMPOUND_INTEREST_RATE. lra. }
  apply _round_amount_mono in Hle. rewrite (_round_amount_id c Hc) in Hle. exact Hle.
Qed.

Lemma compound_n_lower (n : nat) (P b : Q) :
  is_cents b -> 0 <= b -> b <= _round_amount (P * (1 + COMPOUND_INTEREST_RATE)) ->
  b <= compound_n (S n) P.
Proof.
  intros Hb H0 H1. induction n as [|n IH]; [exact H1|].
  rewrite compound_n_S.
  pose proof (compound_step_ge (compound_n (S n) P)) as Hs.
  assert (Hc : is_cents (compound_n (S n) P)) by (rewrite compound_n_S; apply _round_amount_cents).
  specialize (Hs Hc ltac:(lra)). lra.
Qed.

(** A balance above 1/240 never compounds down to zero. *)
Lemma compound_n_pos (n : nat) (P : Q) : 1 # 240 < P -> 0 < compound_n n P.
Proof.
  intros HP. destruct n as [|n]; [simpl; unfold compound_n; simpl; lra|].
  assert (H1 : 0 < _round_amount (P * (1 + COMPOUND_INTEREST_RATE))).
  { apply _round_amount_pos_iff. unfold COMPOUND_INTEREST_RATE. lra. }
  pose proof (is_cents_gap 0 _ is_cents_0 (_round_amount_cents _) H1) as Hgap.
  pose proof (compound_n_lower n P (1 # 100)) as Hl.
  assert (Hc : is_cents (1 # 100)) by (exists 1%Z; reflexivity).
  specialize (Hl Hc ltac:(lra) ltac:(lra)). lra.
Qed.

(** From three hundredths on, every period makes a two-decimal balance
    grow. *)
Lemma compound_n_grows (k : nat) (P : Q) :
  is_cents P -> 3 # 100 <= P ->
  is_cents (compound_n k P) /\ 3 # 100 <= compound_n k P /\
  1 # 100 <= compound_n (S k) P - compound_n k P.
Proof.
  intros Hc HP.
  assert (Hk : is_cents (compound_n k P) /\ 3 # 100 <= compound_n k P).
  { induction k as [|k [IH1 IH2]]; [split; assumption|].
    rewrite compound_n_S. split; [apply _round_amount_cents|].
    pose proof (compound_step_ge _ IH1 ltac:(lra)). lra. }
  destruct Hk as [Hk1 Hk2]. split; [exact Hk1|]. split; [exact Hk2|].
  rewrite compound_n_S.
  set (b := compound_n k P) in *.
  destruct (_round_amount_err (b * (1 + COMPOUND_INTEREST_RATE))) as [_ He].
  assert (Hlt : b < _round_amount (b * (1 + COMPOUND_INTEREST_RATE))).
  { unfold COMPOUND_INTEREST_RATE in *. lra. }
  pose proof (is_cents_gap _ _ Hk1 (_round_amount_cents _) Hlt). lra.
Qed.

Lemma growing_periods_all (P : Q) (n : nat) :
  is_cents P -> 3 # 100 <= P -> growing_periods P n = seq 0 n.
Proof.
  intros Hc HP. induction n as [|n IH]; [reflexivity|].
  rewrite growing_periods_S, IH, seq_S, Nat.add_0_l.
  destruct (compound_n_grows n P Hc HP) as (_ & _ & Hg).
  qcase (compound_n (S n) P - compound_n n P) eps; [unfold eps in *; lra|reflexivity].
Qed.





(** The balances the calculator writes are two-decimal amounts; for
    those a second [advance] at the same [now] changes nothing. *)
Lemma advance_twice_two_decimal (c : Customer.t) (now : Z) (session : option Session) :
  is_cents (Customer.projected_balance c) ->
  let '(_, c1, session1) := _apply_compound_growth c now session in
  _apply_compound_growth c1 now session1 = (false, c1, session1).
Proof.
  intros Hc.
  destruct (Qlt_le_dec 0 (Customer.projected_balance c)) as [Hpos|Hle].
  - destruct (advance_positive c now session Hpos)
      as (u & c1 & s1 & Heq & Hpb & Hnca & Hlt & _).
    rewrite Heq. apply advance_fixed. left.
    eexists. split; [|split; [exact Hnca|exact Hlt]].
    rewrite Hpb. apply compound_n_pos.
    pose proof (is_cents_gap 0 _ is_cents_0 Hc Hpos). lra.
  - destruct (advance_inactive c now session Hle) as (u & c1 & Heq & Hz & Hnca & _).
    rewrite Heq. apply advance_fixed. right. split; assumption.
Qed.

(** C5 (as the code has it).  For a customer with a positive balance
    [P] whose boundary [t0] is due, [advance] multiplies the balance by
    1.20 and rounds it to two decimals once per boundary from [t0] up to
    [now], and moves [next_compound_at] to [t0] plus that many 30-day
    intervals, the first boundary beyond [now].  It records one
    [compound_growth] event for each period in which the balance grows
    by more than 1e-9, dated at the period's boundary, with the
    difference of the balances after and before the period as
    [change_amount]; for a two-decimal balance of at least 0.03 that is
    one event per period.  With [P = 400] and one boundary crossed the
    balance becomes 480.00 and the one event has [change_amount] 80.00. *)
Theorem advance_compounds (c : Customer.t) (s : Session) (now : Z)
    (t0 : datetime) (cid : Z) :
  0 < Customer.projected_balance c ->
  Customer.next_compound_at c = Some t0 ->
  (ticks t0 <= now)%Z ->
  id_of c = Some cid ->
  let P := Customer.projected_balance c in
  let n := periods_due now t0 in
  exists c' s' evs,
    _apply_compound_growth c now (Some s) = (true, c', Some s') /\
    (1 <= n)%nat /\
    (ticks t0 + (Z.of_nat n - 1) * COMPOUND_INTERVAL <= now
     < ticks t0 + Z.of_nat n * COMPOUND_INTERVAL)%Z /\
    Customer.projected_balance c' = compound_n n P /\
    Customer.next_compound_at c'
    = Some (aware (ticks t0 + Z.of_nat n * COMPOUND_INTERVAL)) /\
    same_but_events s s' /\
    balance_events s' = balance_events s ++ evs /\
    event_view <$> evs = growth_view cid P (ticks t0) <$> growing_periods P n /\
    (is_cents P -> 3 # 100 <= P ->
     event_view <$> evs = growth_view cid P (ticks t0) <$> seq 0 n /\
     forall (k : nat) e, evs !! k = Some e ->
       CompoundBalanceEvent.change_amount e == compound_n (S k) P - compound_n k P) /\
    (P == 400 -> n = 1%nat ->
     Customer.projected_balance c' == 480 /\
     exists e, evs = [e] /\
       CompoundBalanceEvent.event_type e = "compound_growth" /\
       CompoundBalanceEvent.change_amount e == 80 /\
       CompoundBalanceEvent.balance_after e == 480).
Proof.
  intros Hpos Hnca Hdue Hid P n.
  assert (Hfb : first_boundary c now = mk_datetime true (ticks t0)).
  { unfold first_boundary. rewrite Hnca. reflexivity. }
  assert (Hn : periods_due now (first_boundary c now) = n).
  { rewrite Hfb. reflexivity. }
  destruct (periods_due_bounds now t0 Hdue) as [Hn1 Hbounds]. fold n in Hn1, Hbounds.
  destruct (advance_positive c now (Some s) Hpos)
    as (u & c' & s1 & Heq & Hpb & Hnext & Hlt & _ & _ & _ & _ & Hev).
  rewrite Hn in Hpb, Hnext, Hlt, Hev. rewrite Hfb in Hnext, Hlt, Hev.
  cbn [ticks] in Hnext, Hlt, Hev.
  destruct (Hev s cid eq_refl Hid) as (s' & evs & -> & Hsame & Happ & Hview & _).
  fold P in Hpb, Hview.
  assert (Hu : u = true).
  { destruct (_apply_compound_growth_positive c now (Some s) Hpos)
      as (u0 & c0 & Heq0 & Hpb0 & _).
    destruct (run_growth_spec now c0 (Some s) (first_boundary c now) u0) as (Hrun & _).
    rewrite Heq0, Hrun, Hn in Heq.
    destruct (growth_iter_customer now n
                (mk_growth c0 (Some s) (Customer.projected_balance c0)
                   (first_boundary c now) u0)) as (_ & _ & _ & Hg).
    destruct Hg as (_ & _ & Hg); [lia|]. congruence. }
  subst u. exists c', s', evs.
  split; [exact Heq|]. split; [exact Hn1|]. split; [exact Hbounds|].
  split; [exact Hpb|]. split; [exact Hnext|]. split; [exact Hsame|].
  split; [exact Happ|]. split; [exact Hview|]. split.
  - intros Hc H3. rewrite (growing_periods_all P n Hc H3) in Hview.
    split; [exact Hview|]. intros k e Hk.
    assert (Hvk : (event_view <$> evs) !! k = Some (event_view e)).
    { rewrite list_lookup_fmap, Hk. reflexivity. }
    rewrite Hview, list_lookup_fmap in Hvk.
    destruct (seq 0 n !! k) as [k'|] eqn:Hseq; [|discriminate].
    apply lookup_seq in Hseq. destruct Hseq as [-> _]. simpl in Hvk.
    assert (Hv : event_view e = growth_view cid P (ticks t0) k) by congruence.
    apply (f_equal (fun v => snd (fst v))) in Hv. cbn in Hv. rewrite Hv.
    apply _round_amount_id.
    destruct (compound_n_grows k P Hc H3) as (Hk1 & _).
    destruct (compound_n_grows (S k) P Hc H3) as (Hk2 & _).
    apply is_cents_plus; [exact Hk2|apply is_cents_opp; exact Hk1].
  - intros HP400 Hone. rewrite Hone in *.
    assert (E1 : compound_n 1 P == 480).
    { rewrite compound_n_S. unfold compound_n. simpl Nat.iter.
      rewrite (_round_amount_comp _ (400 * (1 + COMPOUND_INTEREST_RATE)))
        by (rewrite HP400; reflexivity).
      reflexivity. }
    change (compound_n 0 P) with P in *.
    split; [rewrite Hpb; exact E1|].
    assert (Hgp : growing_periods P 1 = [O]).
    { unfold growing_periods. cbn [seq List.filter].
      change (compound_n 0 P) with P.
      qcase (compound_n 1 P - P) eps; [unfold eps in *; lra|reflexivity]. }
    rewrite Hgp in Hview.
    destruct evs as [|e [|e' evs']]; try discriminate.
    exists e. split; [reflexivity|].
    assert (Hv : event_view e = growth_view cid P (ticks t0) 0) by (simpl in Hview; congruence).
    pose proof (f_equal (fun v => snd (fst (fst (fst v)))) Hv) as Hty.
    pose proof (f_equal (fun v => snd (fst v)) Hv) as Hch.
    pose proof (f_equal (fun v => snd v) Hv) as Hafter.
    cbn [event_view growth_view fst snd] in Hty, Hch, Hafter.
    change (compound_n 0 P) with P in Hch.
    split; [exact Hty|].
    rewrite Hch, Hafter.
    split.
    + rewrite (_round_amount_comp (compound_n 1 P - P) 80)
        by lra.
      reflexivity.
    + rewrite (py_max_id (compound_n 1 P) 0) by lra.
      rewrite (_round_amount_comp _ _ E1). reflexivity.
Qed.

Lemma advance_compounds_witness :
  let c := sample_customer 400 (Some (aware (sample_now - day))) in
  exists c' s',
    _apply_compound_growth c sample_now (Some empty_session) = (true, c', Some s') /\
    Customer.projected_balance c' == 480 /\
    Customer.next_compound_at c' = Some (aware (sample_now - day + COMPOUND_INTERVAL)) /\
    exists e, balance_events s' = [e] /\ CompoundBalanceEvent.change_amount e == 80.
Proof.
  intros c.
  destruct (advance_compounds c empty_session sample_now (aware (sample_now - day)) 1)
    as (c' & s' & evs & Heq & _ & _ & _ & Hnext & _ & Happ & _ & _ & H400).
  - reflexivity.
  - reflexivity.
  - vm_compute. discriminate.
  - reflexivity.
  - destruct H400 as (Hpb & e & He & _ & Hch & _); [reflexivity|reflexivity|].
    exists c', s'. split; [exact Heq|]. split; [exact Hpb|].
    split; [exact Hnext|]. exists e. split; [|exact Hch].
    rewrite Happ, He. reflexivity.
Defined.

(** C5, for every positive balance, fails on the code: a balance of
    0.01 compounds to round(0.012, 2) = 0.01, the increment is zero and no
    [compound_growth] event is recorded for the period. *)
Lemma advance_sub_cent_growth_emits_nothing :
  let c := sample_customer (1 # 100) (Some (aware (sample_now - day))) in
  0 < Customer.projected_balance c /\
  due c sample_now /\
  exists c',
    _apply_compound_growth c sample_now (Some empty_session)
    = (true, c', Some empty_session) /\
    Customer.projected_balance c' == 1 # 100 /\
    balance_events empty_session = [].
Proof.
  split; [reflexivity|]. split; [vm_compute; discriminate|].
  eexists. split; [vm_compute; reflexivity|]. split; reflexivity.
Qed.

(** ** The calculator and the invariants *)

(** From here on the arithmetic stays folded under simplification. *)
#[local] Arguments Qabs : simpl never.
#[local] Arguments Qplus : simpl never.
#[local] Arguments Qminus : simpl never.
#[local] Arguments Qmult : simpl never.
#[local] Arguments Qopp : simpl never.
#[local] Arguments Qle_bool : simpl never.
#[local] Arguments Qeq_bool : simpl never.
#[local] Arguments py_max : simpl never.
#[local] Arguments py_round : simpl never.
#[local] Arguments _round_amount : simpl never.
#[local] Arguments _initial_compounded_amount : simpl never.
#[local] Arguments periods_due : simpl never.

Lemma compound_n_cents (n : nat) (P : Q) :
  is_cents P -> 0 <= P ->
  is_cents (compound_n n P) /\ P <= compound_n n P /\
  compound_n n P <= compound_n (S n) P.
Proof.
  intros Hc H0.
  assert (H : is_cents (compound_n n P) /\ P <= compound_n n P).
  { induction n as [|n [IH1 IH2]]; [split; [exact Hc|unfold compound_n; simpl; lra]|].
    rewrite compound_n_S. split; [apply _round_amount_cents|].
    pose proof (compound_step_ge _ IH1 ltac:(lra)). lra. }
  destruct H as [H1 H2]. split; [exact H1|]. split; [exact H2|].
  rewrite compound_n_S. apply compound_step_ge; [exact H1|lra].
Qed.

Lemma event_view_fields (e : CompoundBalanceEvent.t) k ty time change after :
  event_view e = (k, ty, time, change, after) ->
  CompoundBalanceEvent.customer_id e = k /\
  CompoundBalanceEvent.event_type e = ty /\
  CompoundBalanceEvent.event_time e = time /\
  CompoundBalanceEvent.change_amount e = change /\
  CompoundBalanceEvent.balance_after e = after.
Proof. unfold event_view. intros H. injection H. auto. Qed.

(** The growth events continue the timeline. *)
Lemma growth_chain (k : Z) (P : Q) (t : Z) (n : nat)
    (evs0 evs : list CompoundBalanceEvent.t) :
  is_cents P -> 0 < P ->
  event_view <$> evs = growth_view k P t <$> growing_periods P n ->
  replay_from 0 evs0 -> balance_at_end 0 evs0 == P ->
  Forall (fun e => CompoundBalanceEvent.customer_id e = k) evs /\
  replay_from 0 (evs0 ++ evs) /\
  balance_at_end 0 (evs0 ++ evs) == compound_n n P.
Proof.
  intros Hc Hpos. revert evs. induction n as [|n IH]; intros evs Hview Hrep Hend.
  - apply fmap_nil_inv in Hview. subst evs. rewrite app_nil_r.
    split; [constructor|]. split; [exact Hrep|exact Hend].
  - rewrite growing_periods_S, fmap_app in Hview.
    apply fmap_app_inv in Hview. destruct Hview as (evs1 & evs2 & Hv1 & Hv2 & ->).
    destruct (IH evs1 ltac:(symmetry; exact Hv1) Hrep Hend) as (Hall & Hrep1 & Hend1).
    destruct (compound_n_cents n P Hc ltac:(lra)) as (Hcn & Hge & Hmono).
    assert (Hcs : is_cents (compound_n (S n) P))
      by (rewrite compound_n_S; apply _round_amount_cents).
    revert Hv2.
    qcase (compound_n (S n) P - compound_n n P) eps; cbn [negb]; intros Hv2.
    + symmetry in Hv2. apply fmap_nil_inv in Hv2. subst evs2. rewrite !app_nil_r.
      split; [exact Hall|]. split; [exact Hrep1|].
      rewrite Hend1.
      destruct (Qlt_le_dec (compound_n n P) (compound_n (S n) P)) as [Hlt|Hle]; [|lra].
      pose proof (is_cents_gap _ _ Hcn Hcs Hlt). unfold eps in *. lra.
    + destruct evs2 as [|e [|e' evs2]]; try discriminate.
      assert (Hv : event_view e = growth_view k P t n) by (simpl in Hv2; congruence).
      unfold growth_view in Hv.
      apply event_view_fields in Hv. destruct Hv as (Hk & _ & _ & Hch & Haf).
      split; [apply Forall_app; split; [exact Hall|constructor; [exact Hk|constructor]]|].
      rewrite app_assoc. split.
      * apply replay_from_snoc. split; [exact Hrep1|].
        rewrite Hch, Haf.
        assert (E1 : _round_amount (compound_n (S n) P - compound_n n P)
                     == compound_n (S n) P - compound_n n P).
        { apply _round_amount_id. apply is_cents_plus; [exact Hcs|].
          apply is_cents_opp. exact Hcn. }
        assert (E2 : py_max (compound_n (S n) P) 0 = compound_n (S n) P)
          by (apply py_max_id; lra).
        rewrite E2.
        pose proof (_round_amount_id _ Hcs) as E3.
        apply Qabs_Qle_condition.
        destruct (py_max_spec
                    (balance_at_end 0 (evs0 ++ evs1)
                     + _round_amount (compound_n (S n) P - compound_n n P)) 0)
          as [[A1 A2]|[A1 A2]]; rewrite A2; lra.
      * rewrite balance_at_end_snoc, Haf.
        rewrite (py_max_id (compound_n (S n) P) 0) by lra.
        apply _round_amount_id. exact Hcs.
Qed.

(** [advance] on a stored customer. *)
Lemma advance_session (c : Customer.t) (k now : Z) (s : Session) :
  customer_ok c -> id_of c = Some k -> event_keys_ok (balance_events s) ->
  exists u c1 s1 evs,
    _apply_compound_growth c now (Some s) = (u, c1, Some s1) /\
    customer_ok c1 /\ schedule_ok c1 /\
    Customer.id c1 = Customer.id c /\
    Customer.customer_code c1 = Customer.customer_code c /\
    Customer.last_principal c1 = Customer.last_principal c /\
    same_but_events s s1 /\
    balance_events s1 = balance_events s ++ evs /\
    Forall (fun e => CompoundBalanceEvent.customer_id e = k) evs /\
    event_keys_ok (balance_events s1) /\
    (timeline_ok k c (balance_events s) -> timeline_ok k c1 (balance_events s1)).
Proof.
  intros (Hc & H0 & Hnone) Hid Hkeys.
  destruct (Qlt_le_dec 0 (Customer.projected_balance c)) as [Hpos|Hle].
  - destruct (advance_positive c now (Some s) Hpos)
      as (u & c1 & s1' & Heq & Hpb & Hnca & Hlt & Hi & Hco & Hl & _ & Hev).
    destruct (Hev s k eq_refl Hid) as (s1 & evs & -> & Hsame & Happ & Hview & Hk).
    set (n := periods_due now (first_boundary c now)) in *.
    destruct (compound_n_cents n _ Hc H0) as (Hcn & Hge & _).
    exists u, c1, s1, evs. split; [exact Heq|].
    split.
    { split; [rewrite Hpb; exact Hcn|]. split; [rewrite Hpb; lra|].
      rewrite Hnca. discriminate. }
    split; [intros Hz; rewrite Hpb in Hz; lra|].
    split; [exact Hi|]. split; [exact Hco|]. split; [exact Hl|]. split; [exact Hsame|].
    split; [exact Happ|].
    assert (Hall : Forall (fun e => CompoundBalanceEvent.customer_id e = k) evs).
    { apply Forall_forall. intros e He.
      apply (list_elem_of_fmap_2 event_view) in He. rewrite Hview in He.
      apply list_elem_of_fmap in He. destruct He as (j & Hj & _).
      unfold growth_view in Hj. apply event_view_fields in Hj. tauto. }
    split; [exact Hall|]. split; [apply Hk; exact Hkeys|].
    intros [Hrep Hend]. unfold timeline_ok.
    rewrite Happ, of_customer_app, (of_customer_all k evs Hall), Hpb.
    destruct (growth_chain k _ _ n _ evs Hc Hpos Hview Hrep Hend) as (_ & R1 & R2).
    split; assumption.
  - destruct (advance_inactive c now (Some s) Hle)
      as (u & c1 & Heq & Hz & Hnca & Hi & Hco & Hl & Hsame).
    assert (Hz0 : Customer.projected_balance c == 0) by lra.
    specialize (Hsame Hz0).
    exists u, c1, s, []. split; [exact Heq|].
    split.
    { split; [eapply is_cents_comp; [symmetry; exact Hz|apply is_cents_0]|].
      split; [lra|]. intros _. exact Hz. }
    split; [intros _; exact Hnca|].
    split; [exact Hi|]. split; [exact Hco|]. split; [exact Hl|].
    split; [apply same_but_events_refl|]. split; [rewrite app_nil_r; reflexivity|].
    split; [constructor|]. split; [exact Hkeys|].
    unfold timeline_ok. rewrite Hsame. auto.
Qed.

Lemma cents_close_eq (x y : Q) : is_cents x -> is_cents y -> Qabs (x - y) <= eps -> x == y.
Proof.
  intros Hx Hy H.
  assert (Hd : x - y == 0).
  { apply cents_small_is_zero; [|exact H].
    apply is_cents_plus; [exact Hx|apply is_cents_opp; exact Hy]. }
  lra.
Qed.

(** [_adjust_projected_balance] once [_apply_compound_growth] has
    brought the customer up to date. *)
Lemma adjust_after_advance (c : Customer.t) (delta : Q) (now : Z)
    (session : option Session) u c1 s1 :
  eps < Qabs delta ->
  _apply_compound_growth c now session = (u, c1, s1) ->
  customer_ok c1 ->
  exists u' c',
    _adjust_projected_balance c delta now session = (u', c', s1) /\
    customer_ok c' /\ schedule_ok c' /\
    Customer.projected_balance c'
    == _round_amount (py_max (Customer.projected_balance c1 + delta) 0) /\
    Customer.id c' = Customer.id c1 /\
    Customer.customer_code c' = Customer.customer_code c1 /\
    Customer.last_principal c' = Customer.last_principal c1.
Proof.
  intros Hd Heq (Hc & H0 & Hnone).
  unfold _adjust_projected_balance.
  qcase (Qabs delta) eps; [lra|]. rewrite Heq.
  rewrite (py_max_id (Customer.projected_balance c1) 0 H0).
  change (py_round ?x 2) with (_round_amount x).
  remember (_round_amount (py_max (Customer.projected_balance c1 + delta) 0))
    as projected eqn:Hdef.
  assert (Hpc : is_cents projected) by (rewrite Hdef; apply _round_amount_cents).
  assert (Hp0 : 0 <= projected).
  { rewrite Hdef. apply _round_amount_nonneg. apply py_max_ge_r. }
  clear Hdef.
  destruct c1 as [id code pb lp nca]. cbn in Hc, H0, Hnone |- *.
  qcase (Qabs (projected - pb)) eps; cbn.
  - (* the balance is left as it is *)
    pose proof (cents_close_eq _ _ Hpc Hc E) as Hsame.
    qcase projected 0; cbn.
    + destruct nca as [[a t]|]; cbn;
        (eexists; eexists; split; [reflexivity|]);
        unfold customer_ok, schedule_ok; cbn;
        (split; [split; [exact Hc|split; [exact H0|intros _; lra]]|]);
        (split; [intros _; reflexivity|]);
        (split; [lra|]); repeat split.
    + destruct nca as [[a t]|]; [destruct a|]; cbn; rewrite ?Z.eqb_refl; cbn;
        (eexists; eexists; split; [reflexivity|]);
        unfold customer_ok, schedule_ok; cbn;
        (split; [split; [exact Hc|split; [exact H0|discriminate]]|]);
        (split; [intros Hz; exfalso; lra|]);
        (split; [lra|]); repeat split.
  - qcase projected 0; cbn.
    + destruct nca as [[a t]|]; cbn;
        (eexists; eexists; split; [reflexivity|]);
        unfold customer_ok, schedule_ok; cbn;
        (split; [split; [exact Hpc|split; [exact Hp0|intros _; lra]]|]);
        (split; [intros _; reflexivity|]);
        (split; [reflexivity|]); repeat split.
    + destruct nca as [[a t]|]; [destruct a|]; cbn; rewrite ?Z.eqb_refl; cbn;
        (eexists; eexists; split; [reflexivity|]);
        unfold customer_ok, schedule_ok; cbn;
        (split; [split; [exact Hpc|split; [exact Hp0|discriminate]]|]);
        (split; [intros Hz; exfalso; lra|]);
        (split; [reflexivity|]); repeat split.
Qed.

(** [_adjust_projected_balance] on a stored customer: the balance moves
    by [delta], floored at zero and rounded, and the timeline is ready
    for the event that records [delta]. *)
Lemma adjust_session (c : Customer.t) (k : Z) (delta : Q) (now : Z) (s : Session) :
  eps < Qabs delta ->
  customer_ok c -> id_of c = Some k -> event_keys_ok (balance_events s) ->
  exists u c' s1 evs,
    _adjust_projected_balance c delta now (Some s) = (u, c', Some s1) /\
    customer_ok c' /\ schedule_ok c' /\
    Customer.id c' = Customer.id c /\
    Customer.customer_code c' = Customer.customer_code c /\
    Customer.last_principal c' = Customer.last_principal c /\
    same_but_events s s1 /\
    balance_events s1 = balance_events s ++ evs /\
    Forall (fun e => CompoundBalanceEvent.customer_id e = k) evs /\
    event_keys_ok (balance_events s1) /\
    (timeline_ok k c (balance_events s) ->
     replay_from 0 (of_customer k (balance_events s1)) /\
     Qabs (Customer.projected_balance c'
           - py_max (balance_at_end 0 (of_customer k (balance_events s1))
                     + _round_amount delta) 0) <= 1 # 100).
Proof.
  intros Hd Hok Hid Hkeys.
  destruct (advance_session c k now s Hok Hid Hkeys)
    as (u & c1 & s1 & evs & Heq & Hok1 & _ & Hi & Hco & Hl & Hsame & Happ & Hall & Hk1 & Htl).
  destruct (adjust_after_advance c delta now (Some s) u c1 (Some s1) Hd Heq Hok1)
    as (u' & c' & Heq' & Hok' & Hsch' & Hpb & Hi' & Hco' & Hl').
  exists u', c', s1, evs. split; [exact Heq'|]. split; [exact Hok'|].
  split; [exact Hsch'|]. split; [congruence|]. split; [congruence|]. split; [congruence|].
  split; [exact Hsame|]. split; [exact Happ|]. split; [exact Hall|]. split; [exact Hk1|].
  intros Ht. destruct (Htl Ht) as [Hrep Hend]. split; [exact Hrep|].
  destruct Hok1 as (Hc1 & H01 & _).
  set (b := balance_at_end 0 (of_customer k (balance_events s1))) in *.
  set (p1 := Customer.projected_balance c1) in *.
  destruct (_round_amount_err delta) as [Hr1 Hr2].
  destruct (_round_amount_err (py_max (p1 + delta) 0)) as [Hr3 Hr4].
  apply Qabs_Qle_condition.
  destruct (py_max_spec (p1 + delta) 0) as [[A1 A2]|[A1 A2]]; rewrite A2 in *;
    destruct (py_max_spec (b + _round_amount delta) 0) as [[B1 B2]|[B1 B2]]; rewrite B2;
    lra.
Qed.

(** Recording the event of a change [delta] that the calculator has
    applied. *)
Lemma record_session (s : Session) (c : Customer.t) (k : Z) ty (delta : Q)
    descr meta time clock :
  eps < Qabs delta -> id_of c = Some k -> customer_ok c ->
  event_keys_ok (balance_events s) ->
  exists e,
    _record_balance_event s c ty delta descr meta time clock
    = (Some e, set_balance_events s (balance_events s ++ [e])) /\
    CompoundBalanceEvent.customer_id e = k /\
    CompoundBalanceEvent.event_type e = ty /\
    CompoundBalanceEvent.change_amount e = _round_amount delta /\
    CompoundBalanceEvent.balance_after e == Customer.projected_balance c /\
    event_keys_ok (balance_events s ++ [e]) /\
    (replay_from 0 (of_customer k (balance_events s)) ->
     Qabs (Customer.projected_balance c
           - py_max (balance_at_end 0 (of_customer k (balance_events s))
                     + _round_amount delta) 0) <= 1 # 100 ->
     timeline_ok k c (balance_events s ++ [e])).
Proof.
  intros Hd Hid (Hc & H0 & _) Hkeys.
  destruct (_record_balance_event_some s c k ty delta descr meta time clock Hid Hd)
    as (e & He & Hv & Hkey).
  apply event_view_fields in Hv. destruct Hv as (Hk & Hty & _ & Hch & Haf).
  assert (Hafter : CompoundBalanceEvent.balance_after e == Customer.projected_balance c).
  { rewrite Haf, (py_max_id _ 0 H0). apply _round_amount_id. exact Hc. }
  exists e. split; [exact He|]. split; [exact Hk|]. split; [exact Hty|].
  split; [exact Hch|]. split; [exact Hafter|].
  split; [apply event_keys_ok_snoc; assumption|].
  intros Hrep Hclose. unfold timeline_ok.
  rewrite of_customer_app, (of_customer_all k [e]) by (constructor; [exact Hk|constructor]).
  split.
  - apply replay_from_snoc. split; [exact Hrep|]. rewrite Hch.
    apply Qabs_Qle_condition in Hclose. apply Qabs_Qle_condition. lra.
  - rewrite balance_at_end_snoc. exact Hafter.
Qed.

Lemma timeline_ok_same_balance (k : Z) (c c' : Customer.t) events :
  Customer.projected_balance c' = Customer.projected_balance c ->
  timeline_ok k c events -> timeline_ok k c' events.
Proof. unfold timeline_ok. intros ->. auto. Qed.

Lemma customer_ok_same (c c' : Customer.t) :
  Customer.projected_balance c' = Customer.projected_balance c ->
  Customer.next_compound_at c' = Customer.next_compound_at c ->
  customer_ok c -> customer_ok c'.
Proof. unfold customer_ok. intros -> ->. auto. Qed.

Lemma schedule_ok_same (c c' : Customer.t) :
  Customer.projected_balance c' = Customer.projected_balance c ->
  Customer.next_compound_at c' = Customer.next_compound_at c ->
  schedule_ok c -> schedule_ok c'.
Proof. unfold schedule_ok. intros -> ->. auto. Qed.

(** The pattern of every mutation: the calculator applies [delta], then
    the event of [delta] is recorded for the customer as it then is
    ([c2]: the calculator's result, the principal apart), on a session
    [s2] that holds the same events. *)
Lemma adjust_then_record (c : Customer.t) (k : Z) (delta : Q) (now : Z) (s : Session)
    u c1 s1' (c2 : Customer.t) (s2 : Session) ty descr meta time o s3 :
  customer_ok c -> id_of c = Some k -> event_keys_ok (balance_events s) ->
  _adjust_projected_balance c delta now (Some s) = (u, c1, s1') ->
  Customer.projected_balance c2 = Customer.projected_balance c1 ->
  Customer.next_compound_at c2 = Customer.next_compound_at c1 ->
  Customer.id c2 = Customer.id c1 ->
  balance_events s2 = balance_events (default s s1') ->
  _record_balance_event s2 c2 ty delta descr meta time now = (o, s3) ->
  same_but_events s (default s s1') /\
  same_but_events s2 s3 /\
  customer_ok c2 /\ (schedule_ok c -> schedule_ok c2) /\
  Customer.id c2 = Customer.id c /\
  Customer.customer_code c1 = Customer.customer_code c /\
  exists evs,
    balance_events s3 = balance_events s ++ evs /\
    Forall (fun e => CompoundBalanceEvent.customer_id e = k) evs /\
    event_keys_ok (balance_events s3) /\
    (timeline_ok k c (balance_events s) -> timeline_ok k c2 (balance_events s3)) /\
    (eps < Qabs delta ->
     exists evs0 e,
       evs = evs0 ++ [e] /\
       CompoundBalanceEvent.event_type e = ty /\
       CompoundBalanceEvent.change_amount e = _round_amount delta /\
       CompoundBalanceEvent.balance_after e == Customer.projected_balance c2 /\
       balance_events (default s s1') = balance_events s ++ evs0).
Proof.
  intros Hok Hid Hkeys Hadj Hpb2 Hnca2 Hid2 Hev2 Hrec.
  destruct (Qlt_le_dec eps (Qabs delta)) as [Hd|Hd].
  - destruct (adjust_session c k delta now s Hd Hok Hid Hkeys)
      as (u' & c' & s1 & evs & Heq & Hok' & Hsch' & Hi & Hco & Hl & Hsame & Happ & Hall
          & Hk1 & Htl).
    rewrite Heq in Hadj. injection Hadj as -> -> <-. cbn [from_option id] in *.
    assert (Hid2' : id_of c2 = Some k).
    { unfold id_of in *. rewrite Hid2, Hi. exact Hid. }
    assert (Hok2 : customer_ok c2) by (eapply customer_ok_same; eauto).
    assert (Hkeys2 : event_keys_ok (balance_events s2)) by (rewrite Hev2; exact Hk1).
    destruct (record_session s2 c2 k ty delta descr meta time now Hd Hid2' Hok2 Hkeys2)
      as (e & He & Hke & Hty & Hch & Haf & Hk3 & Htl3).
    rewrite He in Hrec. injection Hrec as <- <-.
    split; [exact Hsame|]. split; [repeat split|]. split; [exact Hok2|].
    split; [intros _; eapply schedule_ok_same; eauto|].
    split; [congruence|]. split; [exact Hco|].
    exists (evs ++ [e]). cbn [balance_events set_balance_events].
    split; [rewrite Hev2, Happ, app_assoc; reflexivity|].
    split; [apply Forall_app; split; [exact Hall|constructor; [exact Hke|constructor]]|].
    split; [exact Hk3|]. split.
    + intros Ht. destruct (Htl Ht) as [Hrep Hclose].
      apply Htl3; rewrite Hev2; [exact Hrep|rewrite Hpb2; exact Hclose].
    + intros _. exists evs, e. repeat split; auto.
  - assert (Hadj' : _adjust_projected_balance c delta now (Some s) = (false, c, Some s)).
    { unfold _adjust_projected_balance. qcase (Qabs delta) eps; [reflexivity|lra]. }
    rewrite Hadj' in Hadj. injection Hadj as <- <- <-. cbn [from_option id] in *.
    rewrite (_record_balance_event_none s2 c2 ty delta descr meta time now Hd) in Hrec.
    injection Hrec as <- <-.
    split; [apply same_but_events_refl|]. split; [apply same_but_events_refl|].
    split; [eapply customer_ok_same; eauto|].
    split; [intros Hs; eapply schedule_ok_same; eauto|].
    split; [exact Hid2|]. split; [reflexivity|].
    exists []. rewrite app_nil_r. split; [exact Hev2|]. split; [constructor|].
    split; [rewrite Hev2; exact Hkeys|]. split.
    + intros Ht. rewrite Hev2. eapply timeline_ok_same_balance; eauto.
    + intros Hd'. lra.
Qed.

(** Replacing the row of one customer and appending events of that
    customer keeps the invariant of the session. *)
Lemma session_inv_update (T S : Prop) (s s' : Session) (k : Z) (c c' : Customer.t) evs :
  session_inv T S s ->
  customers s !! k = Some c ->
  customers s' = <[k := c']> (customers s) ->
  balance_events s' = balance_events s ++ evs ->
  Forall (fun e => CompoundBalanceEvent.customer_id e = k) evs ->
  event_keys_ok (balance_events s') ->
  Customer.id c' = Customer.id c ->
  customer_ok c' ->
  (S -> schedule_ok c') ->
  (T -> timeline_ok k c' (balance_events s')) ->
  session_inv T S s'.
Proof.
  intros [[Hkeys Hdom] Hinv] Hc Hcs Hevs Hall Hkeys' Hid Hok Hsch Htl.
  split.
  { split; [exact Hkeys'|]. intros e He. rewrite Hevs in He. rewrite Hcs.
    apply elem_of_app in He. destruct He as [He|He].
    - apply lookup_insert_is_Some'. right. apply Hdom. exact He.
    - rewrite Forall_forall in Hall. rewrite (Hall e He).
      apply lookup_insert_is_Some'. left. reflexivity. }
  intros k' c'' Hlook. rewrite Hcs in Hlook.
  destruct (decide (k = k')) as [<-|Hne].
  - rewrite lookup_insert_eq in Hlook. injection Hlook as <-.
    destruct (Hinv k c Hc) as (Hi & Hk0 & _).
    split; [congruence|]. split; [exact Hk0|]. split; [exact Hok|].
    split; [exact Hsch|exact Htl].
  - rewrite lookup_insert_ne in Hlook by exact Hne.
    destruct (Hinv k' c'' Hlook) as (Hi & Hk0 & Hok'' & Hsch'' & Htl'').
    split; [exact Hi|]. split; [exact Hk0|]. split; [exact Hok''|].
    split; [exact Hsch''|].
    intros HT. specialize (Htl'' HT). unfold timeline_ok in *.
    rewrite Hevs, of_customer_app, (of_customer_none k k' evs) by auto.
    rewrite app_nil_r. exact Htl''.
Qed.

Lemma record_bank_transaction_frame (s : Session) ty amount rt rid cid o s' :
  record_bank_transaction s ty amount rt rid cid = (o, s') ->
  customers s' = customers s /\ loans s' = loans s /\ repayments s' = repayments s /\
  balance_events s' = balance_events s.
Proof.
  unfold record_bank_transaction.
  destruct (Qabs (_round_amount amount) <=? eps); intros H; injection H as <- <-;
    repeat split.
Qed.

Lemma session_inv_id_of (T S : Prop) (s : Session) (k : Z) (c : Customer.t) :
  session_inv T S s -> customers s !! k = Some c -> id_of c = Some k.
Proof.
  intros [_ Hinv] Hc. destruct (Hinv k c Hc) as (Hi & Hk0 & _).
  unfold id_of. rewrite Hi. destruct (Z.eqb_spec k 0); [contradiction|reflexivity].
Qed.

(** ** Every operation keeps the invariant *)

#[local] Arguments _record_balance_event : simpl never.
#[local] Arguments _adjust_projected_balance : simpl never.
#[local] Arguments _apply_compound_growth : simpl never.
#[local] Arguments _refresh_compounded_balance : simpl never.
#[local] Arguments record_bank_transaction : simpl never.
#[local] Arguments _ensure_repayment_within_loan_balance : simpl never.
#[local] Arguments _loan_remaining_compounded_balance : simpl never.
#[local] Arguments _loan_code_for : simpl never.
#[local] Arguments flush_key : simpl never.
#[local] Arguments get_loan_by_code : simpl never.
#[local] Arguments isclose : simpl never.

(** Naming the results of the calls in a hypothesis, one call at a
    time. *)
Ltac name_adjust H :=
  match type of H with
  | context [_adjust_projected_balance ?c ?d ?n ?s] =>
      let u := fresh "u" in let c1 := fresh "c1" in let s1 := fresh "s1" in
      destruct (_adjust_projected_balance c d n s) as [[u c1] s1] eqn:Hadj
  end.

Ltac name_record H :=
  match type of H with
  | context [_record_balance_event ?s ?c ?ty ?d ?de ?m ?t ?cl] =>
      let o := fresh "o" in let s3 := fresh "s3" in
      destruct (_record_balance_event s c ty d de m t cl) as [o s3] eqn:Hrec
  end.

Ltac name_bank H :=
  match type of H with
  | context [record_bank_transaction ?s ?ty ?a ?rt ?ri ?ci] =>
      let o := fresh "ob" in let s4 := fresh "s4" in
      destruct (record_bank_transaction s ty a rt ri ci) as [o s4] eqn:Hbank;
      destruct (record_bank_transaction_frame _ _ _ _ _ _ _ _ Hbank)
        as (B1 & _ & _ & B4)
  end.

Ltac name_advance H :=
  match type of H with
  | context [_apply_compound_growth ?c ?n ?s] =>
      let u := fresh "u" in let c1 := fresh "c0" in let s1 := fresh "s0" in
      destruct (_apply_compound_growth c n s) as [[u c1] s1] eqn:Hadv
  end.

Ltac step_bind H :=
  match type of H with
  | bind ?r _ = _ =>
      let E := fresh "Hb" in
      destruct r as [?|?] eqn:E; [discriminate|]; cbn [bind] in H
  end.

(** The facts about "adjust, then record" for the calls named in
    [Hadj] and [Hrec]. *)
Ltac use_adjust_then_record Hinv Hc :=
  let Hid := fresh "Hid" in
  pose proof (session_inv_id_of _ _ _ _ _ Hinv Hc) as Hid;
  match goal with
  | Hadj : _adjust_projected_balance ?c _ ?now (Some ?s) = _,
    Hrec : _record_balance_event ?s2 ?c2 _ _ _ _ _ _ = _ |- _ =>
      destruct (proj2 Hinv _ _ Hc) as (Hi & Hk0 & Hok & Hsch & Htl);
      destruct (adjust_then_record c _ _ now s _ _ _ c2 s2 _ _ _ _ _ _
                  Hok Hid (proj1 (proj1 Hinv)) Hadj eq_refl eq_refl eq_refl eq_refl Hrec)
        as ((A1 & _) & (C1 & _) & Hok2 & Hsch2 & Hid2 & _ & evs & Hev & Hfor & Hk3
            & Htl3 & _)
  end.

(** Closing the proof that the invariant is kept once those facts are
    at hand: by [session_inv_update] on the events [evs]. *)
Ltac chase_customers :=
  cbn;
  repeat (match goal with
          | E : customers _ = _ |- _ => rewrite E
          end; cbn).

Ltac chase_events :=
  cbn;
  repeat (match goal with
          | E : balance_events _ = balance_events _ |- _ => rewrite E
          end; cbn).

Ltac close_update Hinv Hc :=
  match goal with
  | Hev : balance_events _ = balance_events ?s ++ ?evs |- session_inv ?T ?S _ =>
      eapply (session_inv_update T S s _ _ _ _ evs);
      [ exact Hinv | exact Hc
      | chase_customers; reflexivity
      | chase_events; exact Hev
      | assumption
      | chase_events; assumption
      | auto | auto | auto
      | let HT := fresh in intros HT; chase_events; auto ]
  end.

Lemma get_customer_inr (s : Session) (k : Z) (c : Customer.t) :
  get_customer s k = inr c -> customers s !! k = Some c.
Proof.
  unfold get_customer. destruct (customers s !! k); [|discriminate].
  intros H. injection H as <-. reflexivity.
Qed.

Ltac find_customer :=
  match goal with
  | H : get_customer _ _ = inr _ |- _ => apply get_customer_inr in H; rename H into Hc
  end.

Lemma guard_inr (s : Session) loan amount ex s2 :
  _ensure_repayment_within_loan_balance s loan amount ex = inr s2 -> s2 = s.
Proof.
  unfold _ensure_repayment_within_loan_balance.
  destruct (_ && _); [discriminate|]. destruct (negb _); [discriminate|].
  intros H. injection H as <-. reflexivity.
Qed.

(** Saving a customer as it was read changes nothing that the
    invariant sees. *)
Lemma session_inv_same (T S : Prop) (s s' : Session) (k : Z) (c : Customer.t) :
  session_inv T S s ->
  customers s !! k = Some c ->
  customers s' = <[k := c]> (customers s) ->
  balance_events s' = balance_events s ->
  session_inv T S s'.
Proof.
  intros Hinv Hc Hcs Hev.
  destruct (proj2 Hinv _ _ Hc) as (Hi & Hk0 & Hok & Hsch & Htl).
  eapply (session_inv_update T S s s' k c c []); try eassumption; auto.
  - rewrite app_nil_r. exact Hev.
  - rewrite Hev. exact (proj1 (proj1 Hinv)).
  - intros HT. rewrite Hev. auto.
Qed.

Lemma create_loan_preserves (T S : Prop) (s : Session) loan generated now loan' s' :
  session_inv T S s ->
  create_loan s loan generated now = inr (loan', s') ->
  session_inv T S s'.
Proof.
  intros Hinv Hrun. unfold create_loan in Hrun.
  step_bind Hrun. find_customer.
  cbn in Hrun. name_adjust Hrun. cbn in Hrun. step_bind Hrun.
  cbn in Hrun. name_record Hrun. name_bank Hrun. injection Hrun as <- <-.
  use_adjust_then_record Hinv Hc. close_update Hinv Hc.
Qed.

Lemma delete_loan_preserves (T S : Prop) (s : Session) loan_id now s' :
  session_inv T S s -> delete_loan s loan_id now = inr s' -> session_inv T S s'.
Proof.
  intros Hinv Hrun. unfold delete_loan in Hrun.
  step_bind Hrun. step_bind Hrun. find_customer.
  cbn in Hrun. name_adjust Hrun. cbn in Hrun. name_record Hrun. name_bank Hrun.
  injection Hrun as <-.
  use_adjust_then_record Hinv Hc. close_update Hinv Hc.
Qed.

Lemma delete_repayment_preserves (T S : Prop) (s : Session) repayment_id now s' :
  session_inv T S s -> delete_repayment s repayment_id now = inr s' ->
  session_inv T S s'.
Proof.
  intros Hinv Hrun. unfold delete_repayment in Hrun.
  step_bind Hrun. step_bind Hrun. find_customer.
  cbn in Hrun. name_adjust Hrun. cbn in Hrun. name_record Hrun. name_bank Hrun.
  injection Hrun as <-.
  use_adjust_then_record Hinv Hc. close_update Hinv Hc.
Qed.

Lemma update_loan_preserves (T S : Prop) (s : Session) loan_id payload now loan' s' :
  session_inv T S s -> update_loan s loan_id payload now = inr (loan', s') ->
  session_inv T S s'.
Proof.
  intros Hinv Hrun. unfold update_loan in Hrun.
  step_bind Hrun. step_bind Hrun. step_bind Hrun. find_customer.
  destruct payload as [la ld pf other].
  cbn [LoanUpdate.loan_amount LoanUpdate.loan_date LoanUpdate.processing_fee] in Hrun.
  destruct la as [new_amount|]; destruct ld as [d|]; destruct pf as [fee|].
  all: cbn in Hrun.
  5-8: injection Hrun as <- <-;
    eapply (session_inv_same T S s _ _ _ Hinv Hc); reflexivity.
  all: match type of Hrun with
       | context [eps <? Qabs ?d] => destruct (eps <? Qabs d) eqn:Hd
       end.
  all: try (name_adjust Hrun; cbn in Hrun; name_record Hrun).
  all: name_bank Hrun;
    match type of Hrun with
    | context [if ?b then _ else _] => destruct b
    end; cbn in Hrun; injection Hrun as <- <-.
  all: try (use_adjust_then_record Hinv Hc; close_update Hinv Hc).
  all: eapply (session_inv_same T S s _ _ _ Hinv Hc);
    [ cbn; rewrite ?B1; reflexivity | cbn; rewrite ?B4; reflexivity ].
Qed.

Lemma create_repayment_preserves (T S : Prop) (s : Session) repayment now r' s' :
  session_inv T S s ->
  create_repayment s repayment now = inr (r', s') ->
  session_inv T S s'.
Proof.
  intros Hinv Hrun. unfold create_repayment in Hrun.
  step_bind Hrun. find_customer. step_bind Hrun. step_bind Hrun.
  match goal with
  | H : match ?l with Some _ => _ | None => _ end = inr ?s2 |- _ =>
      assert (s2 = s)
        by (destruct l; [eapply guard_inr; exact H|injection H as <-; reflexivity]);
      subst s2; clear H
  end.
  cbn in Hrun. name_advance Hrun. cbn in Hrun.
  pose proof (session_inv_id_of _ _ _ _ _ Hinv Hc) as Hid.
  destruct (proj2 Hinv _ _ Hc) as (Hi & Hk0 & Hok & Hsch & Htl).
  destruct (advance_session _ _ now s Hok Hid (proj1 (proj1 Hinv)))
    as (u1 & c1 & s1 & evs0 & Heq & Hok1 & Hsch1 & Hi1 & _ & _ & (A0 & _) & Hev0 & Hfor0
        & Hk1 & Htl1).
  rewrite Heq in Hadv. injection Hadv as <- <- <-. cbn [from_option id] in Hrun.
  name_adjust Hrun. cbn in Hrun. step_bind Hrun. cbn in Hrun.
  name_record Hrun. name_bank Hrun. injection Hrun as <- <-.
  assert (Hid1 : id_of c1 = Some (Repayment.customer_id repayment)).
  { unfold id_of in *. rewrite Hi1. exact Hid. }
  match type of Hrec with
  | _record_balance_event ?s2 ?c2 _ _ _ _ _ _ = _ =>
      destruct (adjust_then_record c1 _ _ now s1 _ _ _ c2 s2 _ _ _ _ _ _
                  Hok1 Hid1 Hk1 Hadj eq_refl eq_refl eq_refl eq_refl Hrec)
        as ((A1 & _) & (C1 & _) & Hok2 & Hsch2 & Hid2 & _ & evs & Hev & Hfor & Hk3
            & Htl3 & _)
  end.
  rewrite Hev0, <- app_assoc in Hev.
  eapply (session_inv_update T S s _ _ _ _ (evs0 ++ evs)).
  - exact Hinv.
  - exact Hc.
  - chase_customers. reflexivity.
  - chase_events. exact Hev.
  - apply Forall_app. split; assumption.
  - chase_events. assumption.
  - congruence.
  - assumption.
  - auto.
  - intros HT. chase_events. auto.
Qed.

Lemma update_repayment_preserves (T S : Prop) (s : Session) repayment_id payload now
    r' s' :
  session_inv T S s ->
  update_repayment s repayment_id payload now = inr (r', s') ->
  session_inv T S s'.
Proof.
  intros Hinv Hrun. unfold update_repayment in Hrun.
  step_bind Hrun. step_bind Hrun. step_bind Hrun. find_customer.
  step_bind Hrun. step_bind Hrun.
  destruct payload as [ra rd other].
  cbn [RepaymentUpdate.repayment_amount RepaymentUpdate.repayment_date] in *.
  destruct ra as [value|]; destruct rd as [d|].
  3-4: match goal with
       | H : inr _ = inr _ |- _ => injection H as <-
       end; cbn in Hrun; injection Hrun as <- <-;
       eapply (session_inv_same T S s _ _ _ Hinv Hc); reflexivity.
  all: match goal with
       | H : bind _ _ = inr _ |- _ => rename H into Hstep
       end; step_bind Hstep;
    match goal with
    | H : match ?l with Some _ => _ | None => _ end = inr ?s2 |- _ =>
        assert (s2 = s)
          by (destruct l;
              [destruct (negb _); [eapply guard_inr; exact H|injection H as <-; reflexivity]
              |injection H as <-; reflexivity]);
        subst s2; clear H
    end.
  all: match type of Hstep with
       | context [eps <? Qabs ?d] => destruct (eps <? Qabs d) eqn:Hd
       end.
  all: try (name_adjust Hstep; cbn in Hstep; name_record Hstep).
  all: name_bank Hstep;
    match type of Hstep with
    | context [if ?b then _ else _] => destruct b
    end; cbn in Hstep; injection Hstep as <-; cbn in Hrun; injection Hrun as <- <-.
  all: try (use_adjust_then_record Hinv Hc; close_update Hinv Hc).
  all: eapply (session_inv_same T S s _ _ _ Hinv Hc);
    [ cbn; rewrite ?B1; reflexivity | cbn; rewrite ?B4; reflexivity ].
Qed.

Lemma advance_preserves (T S : Prop) (s : Session) customer_id now s' :
  session_inv T S s -> advance s customer_id now = inr s' -> session_inv T S s'.
Proof.
  intros Hinv Hrun. unfold advance in Hrun.
  step_bind Hrun. find_customer. name_advance Hrun.
  pose proof (session_inv_id_of _ _ _ _ _ Hinv Hc) as Hid.
  destruct (proj2 Hinv _ _ Hc) as (Hi & Hk0 & Hok & Hsch & Htl).
  destruct (advance_session _ _ now s Hok Hid (proj1 (proj1 Hinv)))
    as (u1 & c1 & s1 & evs0 & Heq & Hok1 & Hsch1 & Hi1 & _ & _ & (A0 & _) & Hev0 & Hfor0
        & Hk1 & Htl1).
  rewrite Heq in Hadv. injection Hadv as <- <- <-. cbn in Hrun. injection Hrun as <-.
  eapply (session_inv_update T S s _ _ _ _ evs0).
  - exact Hinv.
  - exact Hc.
  - chase_customers. reflexivity.
  - cbn. exact Hev0.
  - assumption.
  - cbn. assumption.
  - congruence.
  - assumption.
  - auto.
  - intros HT. cbn. auto.
Qed.

Lemma reconcile_preserves (T S : Prop) (s : Session) customer_id actual now s' :
  ~ T ->
  session_inv T S s -> reconcile s customer_id actual now = inr s' ->
  session_inv T S s'.
Proof.
  intros HnT Hinv Hrun. unfold reconcile in Hrun.
  step_bind Hrun. find_customer.
  pose proof (session_inv_id_of _ _ _ _ _ Hinv Hc) as Hid.
  destruct (proj2 Hinv _ _ Hc) as (Hi & Hk0 & Hok & Hsch & Htl).
  unfold _refresh_compounded_balance in Hrun.
  match type of Hrun with
  | context [eps <? Qabs ?d] => destruct (Qlt_le_dec eps (Qabs d)) as [Hd|Hd]
  end.
  - destruct (adjust_session _ _ _ now s Hd Hok Hid (proj1 (proj1 Hinv)))
      as (u1 & c1 & s1 & evs0 & Heq & Hok1 & Hsch1 & Hi1 & _ & _ & (A0 & _) & Hev0
          & Hfor0 & Hk1 & _).
    rewrite Heq in Hrun.
    match type of Hrun with
    | context [Qle_bool ?a ?b] => qcase a b; [lra|]
    end.
    cbn in Hrun. injection Hrun as <-.
    eapply (session_inv_update T S s _ _ _ _ evs0).
    + exact Hinv.
    + exact Hc.
    + chase_customers. reflexivity.
    + cbn. exact Hev0.
    + assumption.
    + cbn. assumption.
    + cbn. congruence.
    + eapply customer_ok_same; [| |exact Hok1]; reflexivity.
    + intros _. eapply schedule_ok_same; [| |exact Hsch1]; reflexivity.
    + intros HT. contradiction.
  - match type of Hrun with
    | context [Qle_bool ?a ?b] => qcase a b; [|lra]
    end.
    cbn in Hrun.
    destruct (advance_session _ _ now s Hok Hid (proj1 (proj1 Hinv)))
      as (u1 & c1 & s1 & evs0 & Heq & Hok1 & Hsch1 & Hi1 & _ & _ & (A0 & _) & Hev0
          & Hfor0 & Hk1 & _).
    rewrite Heq in Hrun. cbn in Hrun. injection Hrun as <-.
    eapply (session_inv_update T S s _ _ _ _ evs0).
    + exact Hinv.
    + exact Hc.
    + chase_customers. reflexivity.
    + cbn. exact Hev0.
    + assumption.
    + cbn. assumption.
    + congruence.
    + assumption.
    + auto.
    + intros HT. contradiction.
Qed.

(** The explicit [next_compound_at] of a balance update. *)
Lemma override_ok (S : Prop) (c : Customer.t) (requested : option datetime) :
  customer_ok c -> (S -> schedule_ok c) -> (S -> requested = None) ->
  let c' :=
    match requested with
    | Some d => Customer.set_next_compound_at c (ensure_myt_datetime (Some d))
    | None => c
    end in
  customer_ok c' /\ (S -> schedule_ok c') /\
  Customer.projected_balance c' = Customer.projected_balance c /\
  Customer.id c' = Customer.id c.
Proof.
  intros Hok Hsch Hreq. destruct requested as [d|]; cbn.
  - split; [|split; [|split; reflexivity]].
    + destruct Hok as (H1 & H2 & _). split; [exact H1|]. split; [exact H2|]. discriminate.
    + intros HS. specialize (Hreq HS). discriminate.
  - auto.
Qed.

Lemma update_customer_balance_preserves (T S : Prop) (s : Session) customer_id payload
    now c' s' :
  (S -> CustomerBalanceUpdate.next_compound_at payload = None) ->
  session_inv T S s ->
  update_customer_balance s customer_id payload now = inr (c', s') ->
  session_inv T S s'.
Proof.
  intros Hreq Hinv Hrun. unfold update_customer_balance in Hrun.
  step_bind Hrun. find_customer. step_bind Hrun. step_bind Hrun. step_bind Hrun.
  pose proof (session_inv_id_of _ _ _ _ _ Hinv Hc) as Hid.
  destruct (proj2 Hinv _ _ Hc) as (Hi & Hk0 & Hok & Hsch & Htl).
  assert (Hunchanged :
            forall s2, customers s2 = customers s -> balance_events s2 = balance_events s ->
            session_inv T S
              (save_customer s2 customer_id
                 match CustomerBalanceUpdate.next_compound_at payload with
                 | Some d =>
                     Customer.set_next_compound_at t (ensure_myt_datetime (Some d))
                 | None => t
                 end)).
  { intros s2 E1 E2.
    pose proof (override_ok S t _ Hok Hsch Hreq) as HO. cbv zeta in HO.
    destruct HO as (O1 & O2 & O3 & O4).
    eapply (session_inv_update T S s _ _ _ _ []).
    - exact Hinv.
    - exact Hc.
    - cbn. rewrite E1. reflexivity.
    - cbn. rewrite E2, app_nil_r. reflexivity.
    - constructor.
    - cbn. rewrite E2. exact (proj1 (proj1 Hinv)).
    - exact O4.
    - exact O1.
    - exact O2.
    - intros HT. cbn. rewrite E2. eapply timeline_ok_same_balance; [exact O3|auto]. }
  destruct (CustomerBalanceUpdate.projected_balance payload) as [value|].
  - match type of Hrun with
    | context [eps <? Qabs ?d] => destruct (eps <? Qabs d) eqn:Hd
    end.
    + name_adjust Hrun. cbn in Hrun. name_record Hrun. injection Hrun as <- <-.
      match type of Hrec with
      | _record_balance_event ?s2 ?c2 _ _ _ _ _ _ = _ =>
          destruct (adjust_then_record t _ _ now s _ _ _ c2 s2 _ _ _ _ _ _
                      Hok Hid (proj1 (proj1 Hinv)) Hadj eq_refl eq_refl eq_refl eq_refl
                      Hrec)
            as ((A1 & _) & (C1 & _) & Hok2 & Hsch2 & Hid2 & _ & evs & Hev & Hfor & Hk3
                & Htl3 & _)
      end.
      pose proof (override_ok S c1 _ Hok2 ltac:(auto) Hreq) as HO. cbv zeta in HO.
      destruct HO as (O1 & O2 & O3 & O4).
      eapply (session_inv_update T S s _ _ _ _ evs).
      * exact Hinv.
      * exact Hc.
      * chase_customers. reflexivity.
      * cbn. exact Hev.
      * assumption.
      * cbn. assumption.
      * exact (eq_trans O4 Hid2).
      * exact O1.
      * exact O2.
      * intros HT. cbn. eapply timeline_ok_same_balance; [exact O3|auto].
    + injection Hrun as <- <-. apply Hunchanged; reflexivity.
  - match type of Hrun with
    | context [eps <? Qabs ?d] => destruct (eps <? Qabs d) eqn:Hd
    end.
    + name_adjust Hrun. cbn in Hrun. name_record Hrun. injection Hrun as <- <-.
      match type of Hrec with
      | _record_balance_event ?s2 ?c2 _ _ _ _ _ _ = _ =>
          destruct (adjust_then_record t _ _ now s _ _ _ c2 s2 _ _ _ _ _ _
                      Hok Hid (proj1 (proj1 Hinv)) Hadj eq_refl eq_refl eq_refl eq_refl
                      Hrec)
            as ((A1 & _) & (C1 & _) & Hok2 & Hsch2 & Hid2 & _ & evs & Hev & Hfor & Hk3
                & Htl3 & _)
      end.
      pose proof (override_ok S c1 _ Hok2 ltac:(auto) Hreq) as HO. cbv zeta in HO.
      destruct HO as (O1 & O2 & O3 & O4).
      eapply (session_inv_update T S s _ _ _ _ evs).
      * exact Hinv.
      * exact Hc.
      * chase_customers. reflexivity.
      * cbn. exact Hev.
      * assumption.
      * cbn. assumption.
      * exact (eq_trans O4 Hid2).
      * exact O1.
      * exact O2.
      * intros HT. cbn. eapply timeline_ok_same_balance; [exact O3|auto].
    + injection Hrun as <- <-. apply Hunchanged; reflexivity.
Qed.

(** The key of a new row is fresh and not zero. *)
Lemma next_map_key_fresh {A} (m : gmap Z A) :
  m !! next_map_key m = None /\ next_map_key m <> 0%Z.
Proof.
  unfold next_map_key.
  assert (H : (0 <= map_fold (fun k _ acc => Z.max acc k) 0 m)%Z /\
              forall k, is_Some (m !! k) ->
                        (k <= map_fold (fun k _ acc => Z.max acc k) 0 m)%Z).
  { apply (map_fold_weak_ind
             (fun r (m : gmap Z A) => (0 <= r)%Z /\ forall k, is_Some (m !! k) -> (k <= r)%Z)).
    - split; [lia|]. intros k [x Hx]. rewrite lookup_empty in Hx. discriminate.
    - intros i x m' r Hi [IH0 IH]. split; [lia|].
      intros k Hk. apply lookup_insert_is_Some' in Hk. destruct Hk as [->|Hk]; [lia|].
      specialize (IH k Hk). lia. }
  destruct H as [H0 Hmax]. split; [|lia].
  destruct (m !! (1 + map_fold (fun k _ acc => Z.max acc k) 0 m)%Z) eqn:E; [|reflexivity].
  specialize (Hmax _ (ex_intro _ _ E)). lia.
Qed.

Lemma create_customer_preserves (T S : Prop) (s : Session) code generated c' s' :
  session_inv T S s ->
  create_customer s (new_customer code) generated = inr (c', s') ->
  session_inv T S s'.
Proof.
  intros Hinv Hrun. unfold create_customer in Hrun.
  step_bind Hrun. step_bind Hrun. injection Hrun as <- <-.
  assert (Hdata : Customer.projected_balance t = 0 /\ Customer.next_compound_at t = None /\
                  Customer.id t = None).
  { destruct (String.eqb _ ""); [injection Hb as <-; repeat split|].
    destruct (List.find _ _); [discriminate|]. injection Hb as <-. repeat split. }
  destruct Hdata as (Hpb & Hnca & Hidn).
  unfold flush_key in Hb0. rewrite Hidn in Hb0. injection Hb0 as <-.
  destruct (next_map_key_fresh (customers s)) as [Hfresh Hnz].
  set (key := next_map_key (customers s)) in *.
  destruct Hinv as [[Hkeys Hdom] Hall].
  split.
  - split; [exact Hkeys|]. intros e He. cbn.
    apply lookup_insert_is_Some'. right. apply Hdom. exact He.
  - intros k c Hlook. cbn in Hlook.
    destruct (decide (key = k)) as [<-|Hne].
    + rewrite lookup_insert_eq in Hlook. injection Hlook as <-.
      split; [reflexivity|]. split; [exact Hnz|].
      split.
      { unfold customer_ok. cbn. rewrite Hpb.
        split; [apply is_cents_0|]. split; [lra|]. intros _. reflexivity. }
      split; [intros _ _; cbn; exact Hnca|].
      intros _. unfold timeline_ok.
      cbn [balance_events set_customers Customer.projected_balance Customer.set_id].
      assert (Hnone : of_customer key (balance_events s) = []).
      { unfold of_customer.
        destruct (List.filter _ (balance_events s)) as [|e l] eqn:Hf; [reflexivity|].
        assert (Hin : List.In e (List.filter
                                   (fun e => (CompoundBalanceEvent.customer_id e =? key)%Z)
                                   (balance_events s))) by (rewrite Hf; left; reflexivity).
        apply List.filter_In in Hin. destruct Hin as [Hin Hk].
        apply Z.eqb_eq in Hk. apply list_elem_of_In in Hin.
        specialize (Hdom e Hin). rewrite Hk, Hfresh in Hdom. destruct Hdom. discriminate. }
      rewrite Hnone. split; [exact I|]. rewrite Hpb. reflexivity.
    + rewrite lookup_insert_ne in Hlook by exact Hne.
      exact (Hall k c Hlook).
Qed.

(** Every operation that succeeds keeps the invariant, as long as
    [timeline] is asked only of operations that record the changes they
    make and [schedule] only of those that leave the schedule alone. *)
Lemma run_preserves (T S : Prop) (s s' : Session) (op : operation) :
  (T -> records_changes op) -> (S -> leaves_schedule op) ->
  session_inv T S s -> run s op = inr s' -> session_inv T S s'.
Proof.
  intros HT HS Hinv Hrun. destruct op; cbn [run] in Hrun.
  - step_bind Hrun. injection Hrun as <-. destruct p. eapply create_customer_preserves; eauto.
  - step_bind Hrun. injection Hrun as <-. destruct p. eapply create_loan_preserves; eauto.
  - step_bind Hrun. injection Hrun as <-. destruct p.
    eapply create_repayment_preserves; eauto.
  - step_bind Hrun. injection Hrun as <-. destruct p. eapply update_loan_preserves; eauto.
  - step_bind Hrun. injection Hrun as <-. destruct p.
    eapply update_repayment_preserves; eauto.
  - eapply delete_loan_preserves; eauto.
  - eapply delete_repayment_preserves; eauto.
  - step_bind Hrun. injection Hrun as <-. destruct p.
    eapply update_customer_balance_preserves; eauto.
  - eapply advance_preserves; eauto.
  - eapply reconcile_preserves; eauto.
Qed.

Lemma session_inv_empty (T S : Prop) : session_inv T S empty_session.
Proof.
  split.
  - split.
    + intros i e Hi. cbn in Hi. rewrite lookup_nil in Hi. discriminate.
    + intros e He. cbn in He. apply elem_of_nil in He. contradiction.
  - intros k c Hk. cbn in Hk. rewrite lookup_empty in Hk. discriminate.
Qed.

Lemma reachable_inv (allowed : operation -> Prop) (s : Session) :
  reachable allowed s ->
  session_inv (forall op, allowed op -> records_changes op)
              (forall op, allowed op -> leaves_schedule op) s.
Proof.
  induction 1 as [|s op s' Hreach IH Hop Hrun].
  - apply session_inv_empty.
  - eapply run_preserves; [| |exact IH|exact Hrun]; intros H; apply H; exact Hop.
Qed.

(** ** The invariants of the reachable sessions *)

Lemma reachable_run_all (allowed : operation -> Prop) (ops : list operation)
    (s0 s : Session) :
  reachable allowed s0 -> Forall allowed ops -> run_all ops s0 = inr s ->
  reachable allowed s.
Proof.
  unfold run_all. revert s0. induction ops as [|op ops IH]; intros s0 H0 Hall Hrun.
  - cbn in Hrun. injection Hrun as <-. exact H0.
  - apply Forall_cons in Hall. destruct Hall as [Hop Hall]. cbn [fold_left bind] in Hrun.
    destruct (run s0 op) as [e|s1] eqn:E.
    + exfalso. clear -Hrun.
      assert (Hstuck : forall l (e : HTTPException),
                 fold_left (fun r op => s <- r ;; run s op) l (inl e) = inl e).
      { induction l as [|x l IHl]; intros e'; [reflexivity|]. cbn. apply IHl. }
      rewrite Hstuck in Hrun. discriminate.
    + apply (IH s1); [|exact Hall|exact Hrun].
      eapply reachable_step; eauto.
Qed.




(** C2 (as the code has it).  In every session the operations reach,
    every customer's [projected_balance] is non-negative and a customer
    without [next_compound_at] has a zero balance; and when no balance
    update has carried an explicit [next_compound_at], a customer with a
    zero balance has no [next_compound_at] either. *)
Theorem balance_schedule_invariant (allowed : operation -> Prop) (s : Session) (k : Z)
    (c : Customer.t) :
  reachable allowed s ->
  customers s !! k = Some c ->
  0 <= Customer.projected_balance c /\
  (Customer.next_compound_at c = None -> Customer.projected_balance c == 0) /\
  ((forall op, allowed op -> leaves_schedule op) ->
   (Customer.next_compound_at c = None <-> Customer.projected_balance c == 0)).
Proof.
  intros Hreach Hc.
  destruct (reachable_inv allowed s Hreach) as [_ Hall].
  destruct (Hall k c Hc) as (_ & _ & (_ & H0 & Hnone) & Hsch & _).
  split; [exact H0|]. split; [exact Hnone|].
  intros Hleave. split; [exact Hnone|]. exact (Hsch Hleave).
Qed.

Lemma balance_schedule_invariant_witness :
  exists s c,
    run_all sample_ops empty_session = inr s /\
    customers s !! 1%Z = Some c /\
    0 <= Customer.projected_balance c /\
    (Customer.next_compound_at c = None -> Customer.projected_balance c == 0) /\
    ((forall op, leaves_schedule op -> leaves_schedule op) ->
     (Customer.next_compound_at c = None <-> Customer.projected_balance c == 0)).
Proof.
  eexists. eexists.
  split; [vm_compute; reflexivity|].
  split; [vm_compute; reflexivity|].
  eapply (balance_schedule_invariant leaves_schedule _ 1%Z).
  - eapply (reachable_run_all leaves_schedule sample_ops empty_session).
    + apply reachable_empty.
    + repeat constructor.
    + vm_compute. reflexivity.
  - vm_compute. reflexivity.
Defined.

(** C2, for every reachable state including those of
    [update_customer_balance], fails on the code: a balance update that
    carries only a [next_compound_at] stores it on a customer whose
    balance is zero. *)
Lemma schedule_set_on_zero_balance :
  exists s c,
    run_all override_ops empty_session = inr s /\
    customers s !! 1%Z = Some c /\
    Customer.projected_balance c == 0 /\
    Customer.next_compound_at c = Some (aware (sample_now + day)).
Proof.
  eexists. eexists.
  split; [vm_compute; reflexivity|].
  split; [vm_compute; reflexivity|].
  split; [reflexivity|]. vm_compute. reflexivity.
Qed.

(** ** The consistency auditor *)

Lemma audit_customer_no_negative_report (tolerance : Q) codes loans repayments events
    (customer : Customer.t) (issue : AuditIssue.t) :
  0 <= tolerance ->
  issue ∈ audit_customer tolerance codes loans repayments events customer ->
  reports_negative_balance issue = false.
Proof.
  intros Htol Hin. unfold audit_customer in Hin.
  assert (Hproj : 0 <= py_round (py_max (Customer.projected_balance customer) 0) 2).
  { apply _round_amount_nonneg. apply py_max_ge_r. }
  repeat rewrite elem_of_app in Hin.
  destruct Hin as [Hin|[Hin|[Hin|Hin]]].
  - destruct (String.eqb _ ""); [|destruct (_ <? _)%nat];
      repeat (apply elem_of_cons in Hin; destruct Hin as [->|Hin]; [reflexivity|]);
      apply elem_of_nil in Hin; contradiction.
  - destruct (negb _);
      repeat (apply elem_of_cons in Hin; destruct Hin as [->|Hin]; [reflexivity|]);
      apply elem_of_nil in Hin; contradiction.
  - match type of Hin with
    | context [Qle_bool ?a ?b] => qcase a b
    end; cbn [negb] in Hin.
    + apply elem_of_nil in Hin. contradiction.
    + exfalso. lra.
  - destruct (last _) as [latest|]; [|apply elem_of_nil in Hin; contradiction].
    apply elem_of_app in Hin. destruct Hin as [Hin|Hin].
    + destruct (negb _);
        repeat (apply elem_of_cons in Hin; destruct Hin as [->|Hin]; [reflexivity|]);
        apply elem_of_nil in Hin; contradiction.
    + apply list_elem_of_fmap in Hin. destruct Hin as (entry & -> & _). reflexivity.
Qed.

Lemma elem_of_concat_fmap {A B : Type} (f : A -> list B) (l : list A) (y : B) :
  y ∈ concat (f <$> l) -> exists x, x ∈ l /\ y ∈ f x.
Proof.
  induction l as [|a l IH]; cbn [fmap list_fmap concat].
  - intros H. apply elem_of_nil in H. contradiction.
  - rewrite elem_of_app. intros [H|H].
    + exists a. split; [apply list_elem_of_here | exact H].
    + destruct (IH H) as (x & Hx & Hy). exists x. split; [apply list_elem_of_further; exact Hx | exact Hy].
Qed.

(** Whatever the tables and the tolerance, no issue of severity [error]
    in category [customer_balance] comes out of an audit: the balance is
    floored at zero before it is compared with [-tolerance]. *)
Lemma audit_never_reports_negative_balance (session : Session) (tolerance : Q)
    (issue : AuditIssue.t) :
  issue ∈ AuditReport.issues (run_audit session tolerance) ->
  reports_negative_balance issue = false.
Proof.
  unfold run_audit. cbn [AuditReport.issues].
  rewrite !elem_of_app. intros [Hin|[Hin|Hin]].
  - apply elem_of_concat_fmap in Hin. destruct Hin as (customer & _ & Hin).
    eapply audit_customer_no_negative_report; [|exact Hin]. apply py_max_ge_r.
  - apply elem_of_concat_fmap in Hin. destruct Hin as (loan & _ & Hin).
    unfold audit_loan in Hin. repeat rewrite elem_of_app in Hin.
    destruct Hin as [Hin|[Hin|Hin]].
    + destruct (String.eqb _ ""); [|destruct (_ <? _)%nat];
        repeat (apply elem_of_cons in Hin; destruct Hin as [->|Hin]; [reflexivity|]);
        apply elem_of_nil in Hin; contradiction.
    + destruct (existsb _ _);
        repeat (apply elem_of_cons in Hin; destruct Hin as [->|Hin]; [reflexivity|]);
        apply elem_of_nil in Hin; contradiction.
    + destruct (negb _);
        repeat (apply elem_of_cons in Hin; destruct Hin as [->|Hin]; [reflexivity|]);
        apply elem_of_nil in Hin; contradiction.
  - apply elem_of_concat_fmap in Hin. destruct Hin as (repayment & _ & Hin).
    unfold audit_repayment in Hin. repeat rewrite elem_of_app in Hin.
    destruct Hin as [Hin|[Hin|Hin]].
    + destruct (_ <=? _);
        repeat (apply elem_of_cons in Hin; destruct Hin as [->|Hin]; [reflexivity|]);
        apply elem_of_nil in Hin; contradiction.
    + destruct (existsb _ _);
        repeat (apply elem_of_cons in Hin; destruct Hin as [->|Hin]; [reflexivity|]);
        apply elem_of_nil in Hin; contradiction.
    + destruct (Repayment.loan_id repayment); [|apply elem_of_nil in Hin; contradiction].
      destruct (List.find _ _); [destruct (_ =? _)%Z|];
        repeat (apply elem_of_cons in Hin; destruct Hin as [->|Hin]; [reflexivity|]);
        apply elem_of_nil in Hin; contradiction.
Qed.

(** C8 at a failing input.  For a table whose only customer has a
    stored [projected_balance] of -5, an audit with the default tolerance
    reports no issue at all, and so none about the negative balance. *)
Theorem audit_misses_negative_balance :
  (exists c,
     customers negative_balance_session !! 1%Z = Some c /\
     Customer.projected_balance c < 0) /\
  AuditReport.issues (run_audit negative_balance_session (1 # 100)) = [].
Proof.
  split.
  - eexists. split; [vm_compute; reflexivity|]. reflexivity.
  - vm_compute. reflexivity.
Qed.

(** ** The sign of a repayment amount *)



Lemma advance_keeps (c : Customer.t) (now : Z) (session : option Session) u c1 s1 :
  _apply_compound_growth c now session = (u, c1, s1) ->
  Customer.last_principal c1 = Customer.last_principal c /\
  Customer.id c1 = Customer.id c.
Proof.
  intros H.
  destruct (Qlt_le_dec 0 (Customer.projected_balance c)) as [Hpos|Hle].
  - destruct (advance_positive c now session Hpos)
      as (u' & c' & s' & Heq & _ & _ & _ & Hi & _ & Hl & _).
    rewrite Heq in H. injection H as _ <- _. split; assumption.
  - destruct (advance_inactive c now session Hle)
      as (u' & c' & Heq & _ & _ & Hi & _ & Hl & _).
    rewrite Heq in H. injection H as _ <- _. split; assumption.
Qed.

(** What [_adjust_projected_balance] does to the balance for a [delta]
    above the threshold: the balance brought current, plus [delta],
    floored at zero and rounded to two decimals. *)
Lemma adjust_balance (c : Customer.t) (delta : Q) (now : Z) (session : option Session)
    u c2 s2 :
  _adjust_projected_balance c delta now session = (u, c2, s2) ->
  Customer.last_principal c2 = Customer.last_principal c /\
  Customer.id c2 = Customer.id c /\
  (eps < Qabs delta ->
   exists u1 c1,
     _apply_compound_growth c now session = (u1, c1, s2) /\
     Qabs (Customer.projected_balance c2
           - _round_amount (py_max (py_max (Customer.projected_balance c1) 0 + delta) 0))
     <= eps).
Proof.
  unfold _adjust_projected_balance.
  qcase (Qabs delta) eps.
  - intros H. injection H as _ <- _. split; [reflexivity|]. split; [reflexivity|].
    intros Hd. exfalso. lra.
  - destruct (_apply_compound_growth c now session) as [[u1 c1] s1] eqn:Hadv.
    destruct (advance_keeps _ _ _ _ _ _ Hadv) as [Hl Hi].
    change (py_round ?x 2) with (_round_amount x).
    remember (_round_amount (py_max (py_max (Customer.projected_balance c1) 0 + delta) 0))
      as projected eqn:Hdef.
    assert (Hgoal : forall c2',
              Customer.last_principal c2' = Customer.last_principal c1 ->
              Customer.id c2' = Customer.id c1 ->
              Qabs (Customer.projected_balance c2' - projected) <= eps ->
              Customer.last_principal c2' = Customer.last_principal c /\
              Customer.id c2' = Customer.id c /\
              (eps < Qabs delta ->
               exists u0 c0,
                 (u1, c1, s1) = (u0, c0, s1) /\
                 Qabs (Customer.projected_balance c2'
                       - _round_amount
                           (py_max (py_max (Customer.projected_balance c0) 0 + delta) 0))
                 <= eps)).
    { intros c2' Hl' Hi' Hclose. split; [congruence|]. split; [congruence|].
      intros _. exists u1, c1. split; [reflexivity|]. rewrite <- Hdef. exact Hclose. }
    clear Hdef Hl Hi Hadv.
    destruct c1 as [id code pb lp nca].
    cbn [Customer.projected_balance Customer.set_projected_balance
         Customer.next_compound_at Customer.last_principal Customer.id] in *.
    intros Hrun.
    assert (Hzero : Qabs (projected - projected) <= eps).
    { assert (E0 : projected - projected == 0) by lra. rewrite E0. discriminate. }
    assert (Hsym : forall x, Qabs (projected - x) <= eps -> Qabs (x - projected) <= eps).
    { intros x Hx. assert (E1 : x - projected == - (projected - x)) by lra.
      rewrite E1, Qabs_opp. exact Hx. }
    qcase (Qabs (projected - pb)) eps; cbn in Hrun.
    + qcase projected 0; cbn in Hrun.
      * destruct nca as [t|]; cbn in Hrun; injection Hrun as _ <- <-;
          apply Hgoal; cbn; first [reflexivity | exact Hzero | apply Hsym; exact E].
      * destruct nca as [[a t]|]; [destruct a|]; cbn in Hrun;
          rewrite ?Z.eqb_refl in Hrun; cbn in Hrun; injection Hrun as _ <- <-;
          apply Hgoal; cbn; first [reflexivity | exact Hzero | apply Hsym; exact E].
    + qcase projected 0; cbn in Hrun.
      * destruct nca as [t|]; cbn in Hrun; injection Hrun as _ <- <-;
          apply Hgoal; cbn; first [reflexivity | exact Hzero | apply Hsym; exact E].
      * destruct nca as [[a t]|]; [destruct a|]; cbn in Hrun;
          rewrite ?Z.eqb_refl in Hrun; cbn in Hrun; injection Hrun as _ <- <-;
          apply Hgoal; cbn; first [reflexivity | exact Hzero | apply Hsym; exact E].
Qed.


(** ** A loan of 500 *)

Lemma _initial_compounded_amount_500 (x : Q) :
  x == 500 -> _initial_compounded_amount x == 600.
Proof.
  intros Hx. unfold _initial_compounded_amount.
  rewrite (py_max_id x 0) by lra.
  change (py_round ?a 2) with (_round_amount a).
  assert (E : x * (1 + COMPOUND_INTEREST_RATE) == inject_Z 60000 / 100).
  { rewrite Hx. reflexivity. }
  rewrite (_round_amount_comp _ _ E), _round_amount_of_cents. reflexivity.
Qed.

Lemma _round_amount_500 (x : Q) : x == 500 -> _round_amount x == 500.
Proof.
  intros Hx.
  assert (E : x == inject_Z 50000 / 100) by (rewrite Hx; reflexivity).
  rewrite (_round_amount_comp _ _ E), _round_amount_of_cents. reflexivity.
Qed.

Lemma record_bank_transaction_some (s : Session) ty (amount : Q) rt rid cid :
  eps < Qabs (_round_amount amount) ->
  exists b,
    record_bank_transaction s ty amount rt rid cid
    = (Some b, set_bank_transactions s (bank_transactions s ++ [b])) /\
    BankTransaction.transaction_type b = ty /\
    BankTransaction.amount b = _round_amount amount /\
    BankTransaction.balance_after b
    = _round_amount (get_bank_balance s + _round_amount amount).
Proof.
  intros H. unfold record_bank_transaction.
  qcase (Qabs (_round_amount amount)) eps; [lra|].
  eexists. split; [reflexivity|]. repeat split.
Qed.

(** C7, amended.  A loan of 500 for a stored customer whose balance is
    zero is accepted; the customer's balance becomes 600; one balance
    event is added, of type [loan_disbursement], whose [change_amount] is
    600 (the compounded amount) and whose [balance_after] is 600; and one
    row is added to the bank ledger with amount -500. *)
Theorem create_loan_500 (s : Session) (loan : Loan.t) (generated : string) (now : Z)
    (c : Customer.t) (cid : Z) :
  customers s !! Loan.customer_id loan = Some c ->
  id_of c = Some cid ->
  Customer.projected_balance c == 0 ->
  Loan.loan_amount loan == 500 ->
  Loan.id loan = None ->
  exists loan' s' c' e b,
    create_loan s loan generated now = inr (loan', s') /\
    customers s' !! Loan.customer_id loan = Some c' /\
    Customer.projected_balance c' == 600 /\
    balance_events s' = balance_events s ++ [e] /\
    CompoundBalanceEvent.event_type e = "loan_disbursement" /\
    CompoundBalanceEvent.customer_id e = cid /\
    CompoundBalanceEvent.change_amount e == 600 /\
    CompoundBalanceEvent.balance_after e == 600 /\
    bank_transactions s' = bank_transactions s ++ [b] /\
    BankTransaction.transaction_type b = "loan_disbursement" /\
    BankTransaction.amount b == - (500).
Proof.
  intros Hc Hid Hpb Hamt Hnew.
  pose proof (_initial_compounded_amount_500 _ Hamt) as Hadd.
  pose proof (_round_amount_500 _ Hamt) as Hr500.
  unfold create_loan, get_customer. rewrite Hc. cbn [bind].
  cbn [Loan.set_loan_date Loan.set_loan_code Loan.loan_amount Loan.customer_id Loan.id
       Loan.loan_date Loan.loan_code Loan.set_id].
  set (addition := _initial_compounded_amount (Loan.loan_amount loan)) in *.
  assert (Hbig : eps < Qabs addition).
  { rewrite Hadd. reflexivity. }
  destruct (advance_inactive c now (Some s)) as (u & c1 & Hadv & H0 & Hnone & Hi1 & _);
    [lra|].
  assert (Hok1 : customer_ok c1).
  { split; [|split].
    - apply (is_cents_comp 0); [symmetry; exact H0 | apply is_cents_0].
    - lra.
    - intros _. exact H0. }
  destruct (adjust_after_advance c addition now (Some s) u c1 (Some s) Hbig Hadv Hok1)
    as (u' & c' & Hadj & _ & _ & Hpb' & Hi' & _).
  rewrite Hadj. cbn [from_option id save_customer set_customers loans].
  rewrite Hnew. unfold flush_key. cbn [bind].
  set (key := next_map_key (loans s)).
  set (c2 := Customer.set_last_principal c' (Customer.last_principal c' + addition)).
  assert (Hid2 : id_of c2 = Some cid).
  { unfold c2. rewrite id_of_set_last_principal. unfold id_of in *.
    rewrite Hi', Hi1. exact Hid. }
  assert (H600 : Customer.projected_balance c2 == 600).
  { unfold c2. cbn [Customer.set_last_principal Customer.projected_balance].
    rewrite Hpb'.
    assert (E : py_max (Customer.projected_balance c1 + addition) 0
                == inject_Z 60000 / 100).
    { rewrite py_max_id by lra. rewrite H0, Hadd. reflexivity. }
    rewrite (_round_amount_comp _ _ E), _round_amount_of_cents. reflexivity. }
  match goal with
  | |- context [_record_balance_event ?s0 ?c0 ?ty ?d ?de ?m ?t ?cl] =>
      destruct (_record_balance_event_some s0 c0 cid ty d de m t cl Hid2 Hbig)
        as (e & Hrec & Hview & _)
  end.
  rewrite Hrec.
  apply event_view_fields in Hview. destruct Hview as (V1 & V2 & _ & V4 & V5).
  assert (Hbank : eps < Qabs (_round_amount (- _round_amount (Loan.loan_amount loan)))).
  { assert (E : - _round_amount (Loan.loan_amount loan) == inject_Z (-50000) / 100).
    { rewrite Hr500. reflexivity. }
    rewrite (_round_amount_comp _ _ E), _round_amount_of_cents. reflexivity. }
  match goal with
  | |- context [record_bank_transaction ?s0 ?ty ?a ?rt ?ri ?ci] =>
      destruct (record_bank_transaction_some s0 ty a rt ri ci Hbank)
        as (b & Hb & B1 & B2 & _)
  end.
  rewrite Hb.
  eexists _, _, c2, e, b. split; [reflexivity|].
  cbn [set_bank_transactions set_balance_events set_loans set_customers customers
       balance_events bank_transactions].
  split; [apply lookup_insert_eq|].
  split; [exact H600|].
  split; [reflexivity|].
  split; [exact V2|]. split; [exact V1|].
  split.
  { rewrite V4.
    assert (E : addition == inject_Z 60000 / 100) by (rewrite Hadd; reflexivity).
    rewrite (_round_amount_comp _ _ E), _round_amount_of_cents. reflexivity. }
  split.
  { rewrite V5.
    assert (E : py_max (Customer.projected_balance c2) 0 == inject_Z 60000 / 100).
    { rewrite py_max_id by lra. rewrite H600. reflexivity. }
    rewrite (_round_amount_comp _ _ E), _round_amount_of_cents. reflexivity. }
  split; [reflexivity|].
  split; [exact B1|].
  rewrite B2.
  assert (E : - _round_amount (Loan.loan_amount loan) == inject_Z (-50000) / 100).
  { rewrite Hr500. reflexivity. }
  rewrite (_round_amount_comp _ _ E), _round_amount_of_cents. reflexivity.
Qed.


Lemma one_customer_session_run :
  run_all [CreateCustomer "" "CUST-AAAAAA"] empty_session = inr one_customer_session.
Proof. vm_compute. reflexivity. Qed.

Lemma create_loan_500_witness :
  exists loan' s' c' e b,
    create_loan one_customer_session loan_500 "LN-0001" sample_now = inr (loan', s') /\
    customers s' !! Loan.customer_id loan_500 = Some c' /\
    Customer.projected_balance c' == 600 /\
    balance_events s' = balance_events one_customer_session ++ [e] /\
    CompoundBalanceEvent.event_type e = "loan_disbursement" /\
    CompoundBalanceEvent.customer_id e = 1%Z /\
    CompoundBalanceEvent.change_amount e == 600 /\
    CompoundBalanceEvent.balance_after e == 600 /\
    bank_transactions s' = bank_transactions one_customer_session ++ [b] /\
    BankTransaction.transaction_type b = "loan_disbursement" /\
    BankTransaction.amount b == - (500).
Proof.
  apply (create_loan_500 one_customer_session loan_500 "LN-0001" sample_now
           (Customer.mk (Some 1%Z) "CUST-AAAAAA" 0 0 None) 1%Z).
  - vm_compute. reflexivity.
  - reflexivity.
  - reflexivity.
  - reflexivity.
  - reflexivity.
Defined.

(** C7 as worded fails on the code: the one [loan_disbursement] event
    of a loan of 500 for a customer without balance carries a
    [change_amount] of 600, the whole compounded amount, and not the
    markup of 100. *)
Lemma loan_500_event_carries_compounded_amount :
  Customer.projected_balance <$> (customers one_customer_session !! 1%Z) = Some 0 /\
  Loan.loan_amount loan_500 = 500 /\
  exists loan' s' e,
    create_loan one_customer_session loan_500 "LN-0001" sample_now = inr (loan', s') /\
    balance_events s' = [e] /\
    CompoundBalanceEvent.event_type e = "loan_disbursement" /\
    CompoundBalanceEvent.change_amount e == 600 /\
    ~ CompoundBalanceEvent.change_amount e == 100.
Proof.
  split; [vm_compute; reflexivity|]. split; [reflexivity|].
  eexists. eexists. eexists.
  split; [vm_compute; reflexivity|].
  split; [reflexivity|]. split; [reflexivity|].
  split; [reflexivity|]. intros H. vm_compute in H. discriminate.
Qed.


(** ** A repayment entered with a negative amount *)

(** Against the loan of 500 a repayment entered as -200 takes 200 off
    the balance of 600, records a change of -200 and credits the bank
    ledger with 200. *)
Lemma create_repayment_negative_amount_deducts :
  exists row s' c e b,
    create_repayment loan_500_session (repayment_of 1 1 (-200) sample_now) sample_now
    = inr (row, s') /\
    customers s' !! 1%Z = Some c /\
    Customer.projected_balance c == 400 /\
    last (balance_events s') = Some e /\
    CompoundBalanceEvent.event_type e = "repayment" /\
    CompoundBalanceEvent.change_amount e == - (200) /\
    CompoundBalanceEvent.balance_after e == 400 /\
    last (bank_transactions s') = Some b /\
    BankTransaction.amount b == 200.
Proof.
  do 5 eexists.
  split; [vm_compute; reflexivity|].
  split; [vm_compute; reflexivity|].
  split; [reflexivity|].
  split; [reflexivity|].
  split; [reflexivity|].
  split; [reflexivity|].
  split; [reflexivity|].
  split; reflexivity.
Qed.

(** ** Stored customers *)

(** For the customers of a session that the operations reach, a second
    [advance] at the same [now] changes nothing. *)
Lemma advance_twice_stored (allowed : operation -> Prop) (s : Session) (k : Z)
    (c : Customer.t) (now : Z) (session : option Session) :
  reachable allowed s ->
  customers s !! k = Some c ->
  let '(_, c1, session1) := _apply_compound_growth c now session in
  _apply_compound_growth c1 now session1 = (false, c1, session1).
Proof.
  intros Hreach Hc.
  destruct (reachable_inv allowed s Hreach) as [_ Hall].
  destruct (Hall k c Hc) as (_ & _ & (Hcents & _ & _) & _ & _).
  apply advance_twice_two_decimal. exact Hcents.
Qed.


(* ===================================================================== *)
(** * Further properties *)

(** ** The remaining balance of a loan *)

Lemma _initial_compounded_amount_cents (x : Q) : is_cents (_initial_compounded_amount x).
Proof.
  unfold _initial_compounded_amount.
  change (py_round ?a 2) with (_round_amount a). apply _round_amount_cents.
Qed.

Lemma is_cents_abs (x : Q) : is_cents x -> is_cents (Qabs x).
Proof.
  intros Hx. apply Qabs_case; intros _; [exact Hx|apply is_cents_opp; exact Hx].
Qed.

Lemma remaining_cents (session : Session) (loan : Loan.t) (ex : option Z) :
  is_cents (_loan_remaining_compounded_balance session loan ex).
Proof.
  unfold _loan_remaining_compounded_balance.
  destruct (py_max_spec (_round_amount
              (_initial_compounded_amount (Loan.loan_amount loan)
               - paid_total session loan ex)) 0) as [[_ E]|[_ E]]; rewrite E.
  - apply is_cents_0.
  - apply _round_amount_cents.
Qed.

(** X1.  The remaining compounded balance of a loan is a two-decimal
    amount between zero and the loan's compounded amount, whatever
    repayments are recorded on the loan and whichever one is excluded. *)
Theorem remaining_balance_bounds (session : Session) (loan : Loan.t)
    (exclude_repayment_id : option Z) :
  let remaining := _loan_remaining_compounded_balance session loan exclude_repayment_id in
  0 <= remaining /\
  remaining <= _initial_compounded_amount (Loan.loan_amount loan) /\
  is_cents remaining.
Proof.
  intros remaining. split; [apply remaining_nonneg|]. split; [|apply remaining_cents].
  unfold remaining, _loan_remaining_compounded_balance.
  pose proof (paid_total_nonneg session loan exclude_repayment_id) as Hpaid.
  pose proof (_initial_compounded_amount_nonneg (Loan.loan_amount loan)) as Hbase.
  pose proof (_initial_compounded_amount_cents (Loan.loan_amount loan)) as Hc.
  set (base := _initial_compounded_amount (Loan.loan_amount loan)) in *.
  set (paid := paid_total session loan exclude_repayment_id) in *.
  destruct (py_max_spec (_round_amount (base - paid)) 0) as [[_ E]|[_ E]]; rewrite E.
  - exact Hbase.
  - assert (Hle : base - paid <= base) by lra.
    apply _round_amount_mono in Hle. rewrite (_round_amount_id base Hc) in Hle.
    exact Hle.
Qed.

(** X2.  For a proposed amount of two decimals the guard lets the
    repayment through exactly when the amount, sign apart, is at most
    the remaining balance of the loan. *)
Theorem guard_accepts_up_to_remaining (session : Session) (loan : Loan.t) (amount : Q)
    (exclude_repayment_id : option Z) :
  is_cents amount ->
  (_ensure_repayment_within_loan_balance session loan amount exclude_repayment_id
   = inr session
   <-> Qabs amount
       <= _loan_remaining_compounded_balance session loan exclude_repayment_id).
Proof.
  intros Hc.
  pose proof (is_cents_abs _ Hc) as Hca.
  pose proof (Qabs_nonneg amount) as Hnn.
  pose proof (remaining_cents session loan exclude_repayment_id) as Hrc.
  pose proof (remaining_nonneg session loan exclude_repayment_id) as Hr0.
  assert (Hp : py_max (_round_amount (Qabs amount)) 0 == Qabs amount).
  { rewrite py_max_id.
    - apply _round_amount_id. exact Hca.
    - rewrite (_round_amount_id _ Hca). exact Hnn. }
  destruct (guard_cases session loan amount exclude_repayment_id)
    as [(H1 & H2 & E)|[(H1 & H2 & E)|(H1 & H2 & E)]]; rewrite E.
  - split; [discriminate|]. intros Hle. exfalso. rewrite Hp in H2. lra.
  - split; [discriminate|]. intros Hle. exfalso. rewrite Hp in H2.
    unfold eps in H2. lra.
  - split; [|reflexivity]. intros _. rewrite Hp in H2.
    apply Qnot_lt_le. intros Hlt.
    pose proof (is_cents_gap _ _ Hrc Hca Hlt) as Hgap. unfold eps in H2. lra.
Qed.

Lemma guard_accepts_up_to_remaining_witness :
  is_cents 100 /\
  (_ensure_repayment_within_loan_balance
     (sample_session_with_loan 500) (sample_loan 500) 100 None
   = inr (sample_session_with_loan 500)
   <-> Qabs 100
       <= _loan_remaining_compounded_balance
            (sample_session_with_loan 500) (sample_loan 500) None).
Proof.
  assert (H : is_cents 100) by (exists 10000%Z; reflexivity).
  split; [exact H|].
  apply (guard_accepts_up_to_remaining
           (sample_session_with_loan 500) (sample_loan 500) 100 None H).
Defined.


(** ** The schedule and the balance after [advance] *)

(** X3.  After [advance] a customer with a positive balance has a
    schedule, time-zone aware and strictly after [now]; and unless the
    schedule it had lay more than one interval ahead, the new one is at
    most one interval (30 days) after [now]. *)
Theorem advance_schedule_ahead (c : Customer.t) (now : Z) (session : option Session) :
  0 < Customer.projected_balance c ->
  let '(_, c', _) := _apply_compound_growth c now session in
  exists t',
    Customer.next_compound_at c' = Some t' /\
    tz_aware t' = true /\
    (now < ticks t')%Z /\
    (match Customer.next_compound_at c with
     | Some t => (ticks t <= now + COMPOUND_INTERVAL)%Z
     | None => True
     end -> (ticks t' <= now + COMPOUND_INTERVAL)%Z).
Proof.
  intros Hpos.
  destruct (advance_positive c now session Hpos)
    as (u & c' & s' & Heq & _ & Hnca & Hlt & _).
  rewrite Heq. eexists. split; [exact Hnca|]. split; [reflexivity|].
  cbn [ticks aware]. split; [exact Hlt|].
  intros Hnear.
  set (t := first_boundary c now) in *.
  assert (Ht : (ticks t <= now + COMPOUND_INTERVAL)%Z).
  { unfold t, first_boundary.
    destruct (Customer.next_compound_at c) as [t0|]; cbn; [exact Hnear|lia]. }
  destruct (Z.le_gt_cases (ticks t) now) as [Hdue|Hnot].
  - destruct (periods_due_bounds now t Hdue) as (_ & Hlow & _). lia.
  - assert (Hn : periods_due now t = O) by (apply periods_due_zero; lia).
    rewrite Hn. lia.
Qed.

Lemma advance_schedule_ahead_witness :
  0 < Customer.projected_balance (sample_customer 400 (Some (aware (sample_now - day)))) /\
  let '(_, c', _) :=
    _apply_compound_growth (sample_customer 400 (Some (aware (sample_now - day))))
      sample_now (Some empty_session) in
  exists t',
    Customer.next_compound_at c' = Some t' /\
    tz_aware t' = true /\
    (sample_now < ticks t')%Z /\
    (match Customer.next_compound_at
             (sample_customer 400 (Some (aware (sample_now - day)))) with
     | Some t => (ticks t <= sample_now + COMPOUND_INTERVAL)%Z
     | None => True
     end -> (ticks t' <= sample_now + COMPOUND_INTERVAL)%Z).
Proof.
  split; [reflexivity|].
  apply (advance_schedule_ahead
           (sample_customer 400 (Some (aware (sample_now - day))))
           sample_now (Some empty_session)).
  reflexivity.
Defined.

(** X4.  [advance] never lowers a two-decimal balance, and the balance
    it leaves is again a two-decimal amount, not negative. *)
Theorem advance_never_lowers_balance (c : Customer.t) (now : Z)
    (session : option Session) :
  is_cents (Customer.projected_balance c) ->
  let '(_, c', _) := _apply_compound_growth c now session in
  Customer.projected_balance c <= Customer.projected_balance c' /\
  0 <= Customer.projected_balance c' /\
  is_cents (Customer.projected_balance c').
Proof.
  intros Hc.
  destruct (Qlt_le_dec 0 (Customer.projected_balance c)) as [Hpos|Hle].
  - destruct (advance_positive c now session Hpos)
      as (u & c' & s' & Heq & Hpb & _).
    rewrite Heq, Hpb.
    destruct (compound_n_cents (periods_due now (first_boundary c now))
                (Customer.projected_balance c) Hc ltac:(lra)) as (H1 & H2 & _).
    split; [exact H2|]. split; [lra|exact H1].
  - destruct (advance_inactive c now session Hle) as (u & c' & Heq & Hz & _).
    rewrite Heq. split; [lra|]. split; [lra|].
    apply (is_cents_comp 0); [symmetry; exact Hz|apply is_cents_0].
Qed.

Lemma advance_never_lowers_balance_witness :
  is_cents (Customer.projected_balance
              (sample_customer 400 (Some (aware (sample_now - day))))) /\
  let '(_, c', _) :=
    _apply_compound_growth (sample_customer 400 (Some (aware (sample_now - day))))
      sample_now (Some empty_session) in
  Customer.projected_balance (sample_customer 400 (Some (aware (sample_now - day))))
  <= Customer.projected_balance c' /\
  0 <= Customer.projected_balance c' /\
  is_cents (Customer.projected_balance c').
Proof.
  assert (H : is_cents (Customer.projected_balance
                          (sample_customer 400 (Some (aware (sample_now - day))))))
    by (exists 40000%Z; reflexivity).
  split; [exact H|].
  apply (advance_never_lowers_balance
           (sample_customer 400 (Some (aware (sample_now - day))))
           sample_now (Some empty_session) H).
Defined.


(** ** Manual bank adjustments *)

Lemma round_half_even_neg (y : Q) : y < - (1 # 2) -> (round_half_even y <= -1)%Z.
Proof.
  intros Hy.
  pose proof (Qfloor_le y) as Hlo. pose proof (Qlt_floor y) as Hhi.
  assert (Hf : (Qfloor y <= -1)%Z).
  { assert (Hlt : inject_Z (Qfloor y) < inject_Z 0) by (change (inject_Z 0) with 0; lra).
    rewrite <- Zlt_Qlt in Hlt. lia. }
  unfold round_half_even.
  destruct (Qcompare_spec (y - inject_Z (Qfloor y)) (1 # 2)) as [H|H|H].
  - assert (Hne : Qfloor y <> (-1)%Z).
    { intros E. rewrite E in H. change (inject_Z (-1)) with (-(1)) in H. lra. }
    destruct (Z.even (Qfloor y)); lia.
  - lia.
  - assert (Hne : Qfloor y <> (-1)%Z).
    { intros E. rewrite E in H. change (inject_Z (-1)) with (-(1)) in H. lra. }
    lia.
Qed.

Lemma _round_amount_neg_iff (x : Q) : _round_amount x < 0 <-> x < - (1 # 200).
Proof.
  split; intros H.
  - apply Qnot_le_lt. intros Hle. apply _round_amount_mono in Hle.
    assert (E : _round_amount (- (1 # 200)) == 0) by reflexivity.
    rewrite E in Hle. lra.
  - unfold _round_amount. rewrite py_round_2. change (inject_Z 100) with 100.
    assert (Hy : x * 100 < - (1 # 2)) by lra.
    apply round_half_even_neg in Hy. rewrite Zle_Qle in Hy.
    change (inject_Z (-1)) with (-(1)) in Hy.
    set (r := inject_Z (round_half_even (x * 100))) in *.
    assert (E : r / 100 == r * (1 # 100)) by field.
    rewrite E. lra.
Qed.

(** An amount rounds to zero exactly when it is within half a hundredth
    of zero. *)
Lemma _round_amount_small_iff (x : Q) :
  Qabs (_round_amount x) <= eps <-> Qabs x <= 1 # 200.
Proof.
  pose proof (_round_amount_pos_iff x) as Hp.
  pose proof (_round_amount_neg_iff x) as Hn.
  split; intros H.
  - pose proof (cents_small_is_zero _ (_round_amount_cents x) H) as Hz.
    apply Qabs_Qle_condition. split.
    + apply Qnot_lt_le. intros Hlt. apply Hn in Hlt. lra.
    + apply Qnot_lt_le. intros Hlt. apply Hp in Hlt. lra.
  - apply Qabs_Qle_condition in H. destruct H as [H1 H2].
    assert (Hz : _round_amount x == 0).
    { destruct (Qlt_le_dec (_round_amount x) 0) as [Hlt|Hge].
      - apply Hn in Hlt. lra.
      - destruct (Qlt_le_dec 0 (_round_amount x)) as [Hgt|Hle]; [|lra].
        apply Hp in Hgt. lra. }
    rewrite Hz. discriminate.
Qed.


Lemma fold_max_key {A} (key : A -> Z) (rows : list A) (acc : Z) :
  (acc <= fold_left (fun m row => Z.max m (key row)) rows acc)%Z /\
  forall row, row ∈ rows ->
    (key row <= fold_left (fun m row => Z.max m (key row)) rows acc)%Z.
Proof.
  revert acc. induction rows as [|x l IH]; intros acc; cbn [fold_left].
  - split; [lia|]. intros row H. apply elem_of_nil in H. contradiction.
  - destruct (IH (Z.max acc (key x))) as [H1 H2]. split; [lia|].
    intros row Hin. apply elem_of_cons in Hin. destruct Hin as [->|Hin].
    + lia.
    + apply H2. exact Hin.
Qed.

Lemma next_key_above {A} (key : A -> Z) (rows : list A) (row : A) :
  row ∈ rows -> (key row < next_key key rows)%Z.
Proof.
  intros Hin. unfold next_key.
  destruct (fold_max_key key rows 0%Z) as [_ H]. specialize (H row Hin). lia.
Qed.

Lemma latest_in_ledger (s : Session) (b : BankTransaction.t) :
  _latest_bank_transaction s = Some b -> b ∈ bank_transactions s.
Proof.
  destruct s as [cs ls rs es rows]. cbn [bank_transactions].
  revert b. induction rows as [|x l IH] using rev_ind; intros b.
  - discriminate.
  - change (mk_session cs ls rs es (l ++ [x]))
      with (set_bank_transactions (mk_session cs ls rs es l) (l ++ [x])).
    rewrite latest_step.
    change (set_bank_transactions (mk_session cs ls rs es l) l)
      with (mk_session cs ls rs es l).
    destruct (_latest_bank_transaction (mk_session cs ls rs es l)) as [b0|] eqn:Hl.
    + destruct (BankTransaction.id b0 <? BankTransaction.id x)%Z; intros H;
        injection H as <-; apply elem_of_app.
      * right. apply list_elem_of_here.
      * left. apply IH. reflexivity.
    + intros H. injection H as <-. apply elem_of_app. right. apply list_elem_of_here.
Qed.

(** The row that [record_bank_transaction] appends is the latest one. *)
Lemma latest_after_append (s : Session) (entry : BankTransaction.t) :
  BankTransaction.id entry = next_key BankTransaction.id (bank_transactions s) ->
  _latest_bank_transaction
    (set_bank_transactions s (bank_transactions s ++ [entry])) = Some entry.
Proof.
  intros Hid. rewrite latest_step.
  replace (set_bank_transactions s (bank_transactions s)) with s
    by (destruct s; reflexivity).
  destruct (_latest_bank_transaction s) as [b|] eqn:Hl; [|reflexivity].
  apply latest_in_ledger in Hl.
  pose proof (next_key_above BankTransaction.id _ _ Hl) as Hlt.
  rewrite <- Hid in Hlt.
  destruct (Z.ltb_spec (BankTransaction.id b) (BankTransaction.id entry));
    [reflexivity|lia].
Qed.

Lemma get_bank_balance_cents (s : Session) : is_cents (get_bank_balance s).
Proof.
  unfold get_bank_balance. destruct (_latest_bank_transaction s).
  - apply _round_amount_cents.
  - apply is_cents_0.
Qed.

(** What one call of [record_bank_transaction] does, on any ledger. *)
Lemma record_bank_transaction_effect (s : Session) ty (amount : Q) rt rid cid :
  match record_bank_transaction s ty amount rt rid cid with
  | (None, s') => Qabs amount <= 1 # 200 /\ s' = s
  | (Some entry, s') =>
      1 # 200 < Qabs amount /\
      s' = set_bank_transactions s (bank_transactions s ++ [entry]) /\
      BankTransaction.id entry = next_key BankTransaction.id (bank_transactions s) /\
      BankTransaction.transaction_type entry = ty /\
      BankTransaction.amount entry = _round_amount amount /\
      BankTransaction.balance_after entry == get_bank_balance s + _round_amount amount /\
      get_bank_balance s' == get_bank_balance s + _round_amount amount
  end.
Proof.
  unfold record_bank_transaction.
  pose proof (_round_amount_small_iff amount) as Hsmall.
  qcase (Qabs (_round_amount amount)) eps.
  - split; [apply Hsmall; assumption|reflexivity].
  - assert (Hbig : 1 # 200 < Qabs amount).
    { apply Qnot_le_lt. intros Hle. apply Hsmall in Hle. lra. }
    assert (Hsum : _round_amount (get_bank_balance s + _round_amount amount)
                   == get_bank_balance s + _round_amount amount).
    { apply _round_amount_id. apply is_cents_plus.
      - apply get_bank_balance_cents.
      - apply _round_amount_cents. }
    split; [exact Hbig|]. split; [reflexivity|]. split; [reflexivity|].
    split; [reflexivity|]. split; [reflexivity|].
    cbn [BankTransaction.balance_after]. split; [exact Hsum|].
    unfold get_bank_balance at 1. rewrite latest_after_append by reflexivity.
    cbn [BankTransaction.balance_after].
    rewrite (_round_amount_comp _ _ Hsum). exact Hsum.
Qed.



(** ** The baseline event and the timeline *)

Lemma events_of_app (s : Session) (k : Z) (evs : list CompoundBalanceEvent.t) :
  events_of (set_balance_events s (balance_events s ++ evs)) k
  = events_of s k ++ of_customer k evs.
Proof.
  unfold events_of, of_customer. cbn [balance_events set_balance_events].
  apply List.filter_app.
Qed.

(** What [_ensure_balance_event_baseline] does, case by case. *)
Lemma baseline_cases (session : Session) (customer : Customer.t) (clock clock' : Z) :
  let session' := _ensure_balance_event_baseline session customer clock in
  same_but_events session session' /\
  _ensure_balance_event_baseline session' customer clock' = session' /\
  ((session' = session /\
    (id_of customer = None \/
     (exists k, id_of customer = Some k /\ events_of session k <> []) \/
     Customer.projected_balance customer <= 1 # 200))
   \/
   (exists k e,
      id_of customer = Some k /\ events_of session k = [] /\
      1 # 200 < Customer.projected_balance customer /\
      balance_events session' = balance_events session ++ [e] /\
      events_of session' k = [e] /\
      CompoundBalanceEvent.event_type e = "baseline" /\
      CompoundBalanceEvent.customer_id e = k /\
      CompoundBalanceEvent.change_amount e = CompoundBalanceEvent.balance_after e /\
      CompoundBalanceEvent.balance_after e
      == _round_amount (Customer.projected_balance customer))).
Proof.
  intros session'. unfold session', _ensure_balance_event_baseline.
  destruct (id_of customer) as [k|] eqn:Hid.
  2: { split; [apply same_but_events_refl|]. split; [reflexivity|].
       left. split; [reflexivity|]. left. reflexivity. }
  destruct (events_of session k) as [|e0 l] eqn:Hev.
  2: { split; [apply same_but_events_refl|]. split; [rewrite Hev; reflexivity|].
       left. split; [reflexivity|]. right. left. exists k. split; [reflexivity|].
       rewrite Hev. discriminate. }
  set (balance := _round_amount (py_max (Customer.projected_balance customer) 0)).
  qcase balance 0.
  - split; [apply same_but_events_refl|]. split.
    { rewrite Hev. fold balance. qcase balance 0; [reflexivity|lra]. }
    left. split; [reflexivity|]. right. right.
    apply Qnot_lt_le. intros Hlt.
    assert (Hpos : 0 < balance).
    { unfold balance. rewrite py_max_id by lra. apply _round_amount_pos_iff. exact Hlt. }
    lra.
  - assert (Hbig : 1 # 200 < Customer.projected_balance customer).
    { apply _round_amount_pos_iff.
      destruct (py_max_spec (Customer.projected_balance customer) 0) as [[_ E]|[_ E]];
        unfold balance in H; rewrite E in H; [|exact H].
      exfalso. assert (E0 : _round_amount 0 == 0) by reflexivity. lra. }
    assert (Hbal : balance = _round_amount (Customer.projected_balance customer)).
    { unfold balance. rewrite py_max_id by lra. reflexivity. }
    set (e := CompoundBalanceEvent.mk _ k "baseline" (aware clock) balance balance _ _).
    assert (Hev' : events_of (set_balance_events session (balance_events session ++ [e])) k
                   = [e]).
    { rewrite events_of_app, Hev. unfold of_customer. cbn [List.filter].
      unfold e at 1. cbn [CompoundBalanceEvent.customer_id]. rewrite Z.eqb_refl.
      reflexivity. }
    split; [repeat split|]. split; [rewrite Hev'; reflexivity|].
    right. exists k, e. split; [reflexivity|]. split; [exact Hev|].
    split; [exact Hbig|]. split; [reflexivity|]. split; [exact Hev'|].
    split; [reflexivity|]. split; [reflexivity|]. split; [reflexivity|].
    cbn [CompoundBalanceEvent.balance_after e]. rewrite Hbal. reflexivity.
Qed.

(** X6.  [_ensure_balance_event_baseline] either leaves the session as
    it is or appends one event; it appends exactly when the customer has
    a key, no balance event yet, and a balance that rounds to more than
    zero.  The event is of type [baseline] and carries the rounded
    balance both as [change_amount] and as [balance_after].  No other
    table changes, and a second call changes nothing. *)
Theorem baseline_effect (session : Session) (customer : Customer.t) (clock clock' : Z) :
  let session' := _ensure_balance_event_baseline session customer clock in
  same_but_events session session' /\
  _ensure_balance_event_baseline session' customer clock' = session' /\
  ((session' = session /\
    (id_of customer = None \/
     (exists k, id_of customer = Some k /\ events_of session k <> []) \/
     Customer.projected_balance customer <= 1 # 200))
   \/
   (exists k e,
      id_of customer = Some k /\ events_of session k = [] /\
      1 # 200 < Customer.projected_balance customer /\
      balance_events session' = balance_events session ++ [e] /\
      events_of session' k = [e] /\
      CompoundBalanceEvent.event_type e = "baseline" /\
      CompoundBalanceEvent.customer_id e = k /\
      CompoundBalanceEvent.change_amount e = CompoundBalanceEvent.balance_after e /\
      CompoundBalanceEvent.balance_after e
      == _round_amount (Customer.projected_balance customer))).
Proof. exact (baseline_cases session customer clock clock'). Qed.

Lemma event_leb_total (a b : CompoundBalanceEvent.t) :
  event_leb a b = false -> event_leb b a = true.
Proof.
  unfold event_leb. intros H.
  apply orb_false_iff in H. destruct H as [H1 H2].
  apply Z.ltb_ge in H1.
  destruct (Z.ltb_spec (ticks (CompoundBalanceEvent.event_time b))
              (ticks (CompoundBalanceEvent.event_time a))) as [Hlt|Hge];
    [reflexivity|].
  assert (Heq : ticks (CompoundBalanceEvent.event_time a)
                = ticks (CompoundBalanceEvent.event_time b)) by lia.
  rewrite Heq, Z.eqb_refl in H2 |- *. cbn in H2 |- *.
  apply Z.leb_gt in H2. apply Z.leb_le. lia.
Qed.

Lemma event_leb_trans (a b c : CompoundBalanceEvent.t) :
  event_leb a b = true -> event_leb b c = true -> event_leb a c = true.
Proof.
  unfold event_leb. intros H1 H2.
  apply orb_true_iff in H1. apply orb_true_iff in H2. apply orb_true_iff.
  rewrite !andb_true_iff, !Z.ltb_lt, !Z.eqb_eq, !Z.leb_le in *. lia.
Qed.

Lemma insert_event_perm (e : CompoundBalanceEvent.t) (l : list CompoundBalanceEvent.t) :
  insert_event e l ≡ₚ e :: l.
Proof.
  induction l as [|x l IH]; cbn [insert_event]; [reflexivity|].
  destruct (event_leb e x); [reflexivity|].
  rewrite IH. apply Permutation_swap.
Qed.

Lemma insert_event_sorted (e : CompoundBalanceEvent.t) (l : list CompoundBalanceEvent.t) :
  in_timeline_order l -> in_timeline_order (insert_event e l).
Proof.
  induction l as [|x l IH]; cbn [insert_event in_timeline_order].
  - intros _. split; [constructor|exact I].
  - intros [Hx Hl]. destruct (event_leb e x) eqn:Hex; cbn [in_timeline_order].
    + split; [|split; assumption].
      constructor; [exact Hex|].
      eapply Forall_impl; [exact Hx|]. intros y Hy. cbn in Hy |- *.
      eapply event_leb_trans; eauto.
    + split; [|apply IH; exact Hl].
      rewrite (insert_event_perm e l). constructor; [|exact Hx].
      apply event_leb_total. exact Hex.
Qed.

Lemma timeline_sort_spec (l : list CompoundBalanceEvent.t) :
  fold_right insert_event [] l ≡ₚ l /\ in_timeline_order (fold_right insert_event [] l).
Proof.
  induction l as [|x l [IH1 IH2]]; cbn [fold_right].
  - split; [reflexivity|exact I].
  - split.
    + rewrite insert_event_perm, IH1. reflexivity.
    + apply insert_event_sorted. exact IH2.
Qed.

Lemma in_timeline_order_lookup (l : list CompoundBalanceEvent.t) (i j : nat) a b :
  in_timeline_order l -> (i < j)%nat -> l !! i = Some a -> l !! j = Some b ->
  event_leb a b = true.
Proof.
  revert i j. induction l as [|x l IH]; intros i j Hs Hij Ha Hb.
  - rewrite lookup_nil in Ha. discriminate.
  - destruct Hs as [Hx Hl]. destruct j as [|j]; [lia|]. cbn in Hb.
    destruct i as [|i]; cbn in Ha.
    + injection Ha as <-. rewrite Forall_forall in Hx. apply Hx.
      apply list_elem_of_lookup. exists j. exact Hb.
    + apply (IH i j Hl); [lia|exact Ha|exact Hb].
Qed.

(** X7.  For a customer that is stored, [get_customer_balance_timeline]
    answers with the customer's events and no others, every one exactly
    once, in the order of their event times (and, at equal times, of
    their keys); the balance it reports is the stored one floored at
    zero and rounded.  When the customer's balance rounds to more than
    zero the timeline is not empty.  For a customer that is not stored
    it raises 404. *)
Theorem balance_timeline_view (session : Session) (customer_id : Z) (clock : Z) :
  match customers session !! customer_id with
  | None =>
      get_customer_balance_timeline session customer_id clock
      = raise 404 (Detail "Customer not found")
  | Some customer =>
      exists response session' sorted,
        get_customer_balance_timeline session customer_id clock
        = inr (response, session') /\
        session' = _ensure_balance_event_baseline session customer clock /\
        CustomerBalanceTimelineResponse.events response = serialize_event <$> sorted /\
        sorted ≡ₚ List.filter
                    (fun e => opt_Z_eqb (Some (CompoundBalanceEvent.customer_id e))
                                (Customer.id customer))
                    (balance_events session') /\
        (forall (i j : nat) a b,
           (i < j)%nat -> sorted !! i = Some a -> sorted !! j = Some b ->
           (ticks (CompoundBalanceEvent.event_time a)
            < ticks (CompoundBalanceEvent.event_time b))%Z \/
           (ticks (CompoundBalanceEvent.event_time a)
            = ticks (CompoundBalanceEvent.event_time b) /\
            (CompoundBalanceEvent.id a <= CompoundBalanceEvent.id b)%Z)) /\
        CustomerBalanceTimelineResponse.projected_balance response
        = _round_amount (py_max (Customer.projected_balance customer) 0) /\
        (id_of customer <> None -> 1 # 200 < Customer.projected_balance customer ->
         CustomerBalanceTimelineResponse.events response <> [])
  end.
Proof.
  unfold get_customer_balance_timeline, get_customer.
  destruct (customers session !! customer_id) as [customer|]; [|reflexivity].
  cbn [bind].
  set (session' := _ensure_balance_event_baseline session customer clock).
  eexists _, session', _. split; [reflexivity|]. split; [reflexivity|].
  cbn [CustomerBalanceTimelineResponse.events
       CustomerBalanceTimelineResponse.projected_balance].
  split; [reflexivity|].
  destruct (Customer.id customer) as [cid|] eqn:Hcid.
  - destruct (timeline_sort_spec (events_of session' cid)) as [Hperm Hsorted].
    split; [exact Hperm|]. split.
    { intros i j a b Hij Ha Hb.
      pose proof (in_timeline_order_lookup _ i j a b Hsorted Hij Ha Hb) as Hle.
      unfold event_leb in Hle. apply orb_true_iff in Hle.
      rewrite andb_true_iff, Z.ltb_lt, Z.eqb_eq, Z.leb_le in Hle. exact Hle. }
    split; [reflexivity|].
    intros Hid Hbig Hnil. apply fmap_nil_inv in Hnil.
    assert (Hempty : events_of session' cid = []).
    { apply Permutation_nil_r. rewrite <- Hnil. symmetry. exact Hperm. }
    destruct (id_of customer) as [k|] eqn:Hk; [|congruence].
    assert (k = cid).
    { unfold id_of in Hk. rewrite Hcid in Hk.
      destruct (cid =? 0)%Z; [discriminate|]. congruence. }
    subst k.
    destruct (baseline_cases session customer clock clock) as (_ & _ & Hcase).
    fold session' in Hcase.
    destruct Hcase as [(Hsame & [Hn|[(k' & Hk' & Hne)|Hsmall]])|Hadd].
    + congruence.
    + assert (k' = cid) by congruence. subst k'. apply Hne.
      rewrite <- Hsame. exact Hempty.
    + lra.
    + destruct Hadd as (k' & e & Hk' & _ & _ & _ & Hone & _).
      assert (k' = cid) by congruence. subst k'. rewrite Hone in Hempty. discriminate.
  - split.
    { assert (Hnone : forall l : list CompoundBalanceEvent.t,
                List.filter (fun e => opt_Z_eqb (Some (CompoundBalanceEvent.customer_id e))
                                        None) l = []).
      { induction l as [|x l IH]; [reflexivity|]. cbn. exact IH. }
      rewrite Hnone. reflexivity. }
    split.
    { intros i j a b _ Ha. rewrite lookup_nil in Ha. discriminate. }
    split; [reflexivity|].
    intros Hid. unfold id_of in Hid. rewrite Hcid in Hid. congruence.
Qed.


(** ** Codes *)

Lemma upper_ascii_idem (a : ascii) : upper_ascii (upper_ascii a) = upper_ascii a.
Proof. destruct a as [[] [] [] [] [] [] [] []]; reflexivity. Qed.

Lemma is_space_upper (a : ascii) : is_space (upper_ascii a) = is_space a.
Proof. destruct a as [[] [] [] [] [] [] [] []]; reflexivity. Qed.

Lemma lstrip_upper (l : list ascii) :
  lstrip (upper_ascii <$> l) = upper_ascii <$> lstrip l.
Proof.
  induction l as [|a l IH]; [reflexivity|].
  cbn [fmap list_fmap lstrip]. rewrite is_space_upper.
  destruct (is_space a); [exact IH|reflexivity].
Qed.

Lemma lstrip_no_leading_space (l : list ascii) : no_leading_space (lstrip l).
Proof.
  induction l as [|a l IH]; [exact I|].
  cbn [lstrip]. destruct (is_space a) eqn:Ha; [exact IH|exact Ha].
Qed.

Lemma lstrip_id (l : list ascii) : no_leading_space l -> lstrip l = l.
Proof.
  destruct l as [|a l]; [reflexivity|]. cbn. intros ->. reflexivity.
Qed.

Lemma lstrip_suffix (l : list ascii) : exists pre, l = pre ++ lstrip l.
Proof.
  induction l as [|a l [pre IH]]; [exists []; reflexivity|].
  cbn [lstrip]. destruct (is_space a).
  - exists (a :: pre). cbn. rewrite <- IH. reflexivity.
  - exists []. reflexivity.
Qed.

Lemma strip_chars_ends (l : list ascii) :
  no_leading_space (strip_chars l) /\ no_leading_space (rev (strip_chars l)).
Proof.
  unfold strip_chars. rewrite rev_involutive.
  split; [|apply lstrip_no_leading_space].
  pose proof (lstrip_no_leading_space l) as HL.
  set (L := lstrip l) in *.
  destruct (lstrip_suffix (rev L)) as [pre Hpre].
  set (M := lstrip (rev L)) in *.
  assert (HLM : L = rev M ++ rev pre).
  { rewrite <- (rev_involutive L), Hpre, rev_app_distr. reflexivity. }
  destruct (rev M) as [|a m]; [exact I|].
  rewrite HLM in HL. exact HL.
Qed.

Lemma strip_chars_idem (l : list ascii) : strip_chars (strip_chars l) = strip_chars l.
Proof.
  destruct (strip_chars_ends l) as [H1 H2].
  unfold strip_chars at 1.
  rewrite (lstrip_id _ H1), (lstrip_id _ H2). apply rev_involutive.
Qed.

Lemma fmap_rev {A B} (f : A -> B) (l : list A) : f <$> rev l = rev (f <$> l).
Proof.
  induction l as [|a l IH]; [reflexivity|].
  cbn [rev fmap list_fmap]. rewrite fmap_app, IH. reflexivity.
Qed.

Lemma strip_chars_upper (l : list ascii) :
  strip_chars (upper_ascii <$> l) = upper_ascii <$> strip_chars l.
Proof.
  unfold strip_chars.
  rewrite lstrip_upper, <- fmap_rev, lstrip_upper, <- fmap_rev. reflexivity.
Qed.

Lemma normalize_code_chars (code : string) :
  list_ascii_of_string (normalize_code code)
  = upper_ascii <$> strip_chars (list_ascii_of_string code).
Proof.
  unfold normalize_code, str_upper, str_strip.
  rewrite !list_ascii_of_string_of_list_ascii. reflexivity.
Qed.

Lemma string_chars_inj (a b : string) :
  list_ascii_of_string a = list_ascii_of_string b -> a = b.
Proof.
  intros H. rewrite <- (string_of_list_ascii_of_string a),
    <- (string_of_list_ascii_of_string b), H. reflexivity.
Qed.

(** Normalising a code twice is normalising it once. *)
Lemma normalize_code_idem (code : string) :
  normalize_code (normalize_code code) = normalize_code code.
Proof.
  apply string_chars_inj. rewrite !normalize_code_chars.
  rewrite strip_chars_upper, strip_chars_idem.
  rewrite <- list_fmap_compose. apply list_fmap_ext.
  intros i a _. cbn. apply upper_ascii_idem.
Qed.

Lemma find_code_spec {A} (code_of : A -> string) (code : string) (m : gmap Z A) :
  match List.find (fun row => String.eqb (code_of (snd row)) code) (map_to_list m) with
  | Some row => m !! fst row = Some (snd row) /\ code_of (snd row) = code
  | None => forall k x, m !! k = Some x -> code_of x <> code
  end.
Proof.
  destruct (List.find _ (map_to_list m)) as [[k x]|] eqn:Hf.
  - apply List.find_some in Hf. destruct Hf as [Hin Heq].
    apply list_elem_of_In, elem_of_map_to_list in Hin.
    apply String.eqb_eq in Heq. split; assumption.
  - intros k x Hk Hcode.
    apply elem_of_map_to_list, list_elem_of_In in Hk.
    pose proof (List.find_none _ _ Hf _ Hk) as Hn. cbn in Hn.
    apply String.eqb_neq in Hn. contradiction.
Qed.

(** X8.  [get_loan_by_code] looks a loan up by its code with white
    space trimmed and letters in upper case: it raises 400 when nothing
    is left of the code, 404 when no loan carries the normalised code,
    and otherwise returns a stored loan that carries it.  Looking up the
    normalised code gives the same answer as looking up the code as
    typed. *)
Theorem get_loan_by_code_normalizes (session : Session) (loan_code : string) :
  let normalized := normalize_code loan_code in
  get_loan_by_code session normalized = get_loan_by_code session loan_code /\
  match get_loan_by_code session loan_code with
  | inr loan =>
      normalized <> "" /\ Loan.loan_code loan = normalized /\
      exists k, loans session !! k = Some loan
  | inl e =>
      (normalized = "" /\ e = mk_exn 400 (Detail "loan_code is required")) \/
      (normalized <> "" /\ e = mk_exn 404 (Detail "Loan not found") /\
       forall k loan, loans session !! k = Some loan -> Loan.loan_code loan <> normalized)
  end.
Proof.
  intros normalized. subst normalized. unfold get_loan_by_code.
  rewrite normalize_code_idem. set (normalized := normalize_code loan_code).
  split; [reflexivity|].
  destruct (String.eqb_spec normalized "") as [He|Hne].
  - left. split; [exact He|reflexivity].
  - pose proof (find_code_spec Loan.loan_code normalized (loans session)) as Hf.
    destruct (List.find _ (map_to_list (loans session))) as [[k loan]|].
    + destruct Hf as [Hk Hcode]. split; [exact Hne|]. split; [exact Hcode|].
      exists k. exact Hk.
    + right. split; [exact Hne|]. split; [reflexivity|]. exact Hf.
Qed.


(** ** Generated customer codes *)

Lemma plain_chars_normalized (l : list ascii) :
  Forall plain_char l ->
  normalize_code (string_of_list_ascii l) = string_of_list_ascii l.
Proof.
  intros Hall. apply string_chars_inj.
  rewrite normalize_code_chars, !list_ascii_of_string_of_list_ascii.
  assert (Hhead : forall l', Forall plain_char l' -> no_leading_space l').
  { intros l' H'. destruct H' as [|a l' [Ha _] _]; [exact I|exact Ha]. }
  unfold strip_chars.
  rewrite (lstrip_id l (Hhead _ Hall)).
  rewrite (lstrip_id (rev l)); [|apply Hhead, Forall_forall; intros a Ha;
    rewrite Forall_forall in Hall; apply Hall; apply list_elem_of_In;
    apply List.in_rev; apply list_elem_of_In; exact Ha].
  rewrite rev_involutive.
  induction Hall as [|a l' [_ Ha] _ IH]; [reflexivity|].
  cbn [fmap list_fmap]. rewrite Ha. f_equal. exact IH.
Qed.

Lemma charset_plain : Forall plain_char charset.
Proof. unfold charset. cbn. repeat (constructor; [split; reflexivity|]). constructor. Qed.

Lemma choice_plain (draw : nat) : plain_char (choice draw).
Proof.
  pose proof charset_plain as H. rewrite Forall_forall in H. apply H.
  apply list_elem_of_In. unfold choice. apply nth_In.
  change (length charset) with 36%nat. apply Nat.mod_upper_bound. discriminate.
Qed.

Lemma candidate_code_chars (d : six_draws) :
  exists l,
    candidate_code d = string_of_list_ascii l /\ Forall plain_char l /\ length l = 11%nat.
Proof.
  destruct d as [[[[[d1 d2] d3] d4] d5] d6].
  exists (list_ascii_of_string "CUST-"
          ++ [choice d1; choice d2; choice d3; choice d4; choice d5; choice d6]).
  split; [reflexivity|]. split; [|reflexivity].
  apply Forall_app. split.
  - cbn. repeat (constructor; [split; reflexivity|]). constructor.
  - repeat (constructor; [apply choice_plain|]). constructor.
Qed.

Lemma string_length_chars (l : list ascii) :
  String.length (string_of_list_ascii l) = length l.
Proof. induction l as [|a l IH]; cbn; [reflexivity|]. f_equal. exact IH. Qed.

Lemma generated_code_facts (session : Session) (draws : list six_draws) (code : string) :
  _generate_customer_code session draws = Some code ->
  (forall k c, customers session !! k = Some c -> Customer.customer_code c <> code) /\
  String.length code = 11%nat /\
  String.prefix "CUST-" code = true /\
  normalize_code code = code /\
  exists d, d ∈ draws /\ code = candidate_code d.
Proof.
  induction draws as [|d rest IH]; cbn [_generate_customer_code]; [discriminate|].
  pose proof (find_code_spec Customer.customer_code (candidate_code d)
                (customers session)) as Hf.
  destruct (List.find _ (map_to_list (customers session))) as [[k c]|].
  - intros Hrest. destruct (IH Hrest) as (H1 & H2 & H3 & H4 & d' & Hd' & Hc).
    repeat (split; [assumption|]). exists d'. split; [|exact Hc].
    apply list_elem_of_further. exact Hd'.
  - intros H. injection H as <-. split; [exact Hf|].
    destruct (candidate_code_chars d) as (l & Hl & Hplain & Hlen).
    split; [rewrite Hl, string_length_chars; exact Hlen|].
    split; [destruct d as [[[[[d1 d2] d3] d4] d5] d6]; reflexivity|].
    split; [rewrite Hl; apply plain_chars_normalized; exact Hplain|].
    exists d. split; [apply list_elem_of_here|reflexivity].
Qed.



Lemma flush_key_fresh {A} (given : option Z) (table : gmap Z A) (key : Z) :
  flush_key given table = inr key -> table !! key = None.
Proof.
  unfold flush_key. destruct given as [k|].
  - destruct (table !! k) eqn:E; [discriminate|]. intros H. injection H as <-. exact E.
  - intros H. injection H as <-. apply next_map_key_fresh.
Qed.

(** What [create_customer] stores when it succeeds. *)
Lemma create_customer_inr (session : Session) (data : Customer.t) (generated : string)
    (c : Customer.t) (session' : Session) :
  create_customer session data generated = inr (c, session') ->
  exists key,
    customers session !! key = None /\
    Customer.id c = Some key /\
    customers session' = <[key := c]> (customers session) /\
    loans session' = loans session /\
    repayments session' = repayments session /\
    balance_events session' = balance_events session /\
    bank_transactions session' = bank_transactions session /\
    Customer.projected_balance c = Customer.projected_balance data /\
    ((normalize_code (Customer.customer_code data) = "" /\
      Customer.customer_code c = generated)
     \/
     (normalize_code (Customer.customer_code data) <> "" /\
      Customer.customer_code c = normalize_code (Customer.customer_code data) /\
      forall k x, customers session !! k = Some x ->
        Customer.customer_code x <> normalize_code (Customer.customer_code data))).
Proof.
  unfold create_customer. intros Hrun.
  set (desired := normalize_code (Customer.customer_code data)) in *.
  pose proof (find_code_spec Customer.customer_code desired (customers session)) as Hf.
  destruct (String.eqb_spec desired "") as [He|Hne]; cbn [bind] in Hrun.
  - destruct (flush_key _ _) as [e|key] eqn:Hkey; [discriminate|]. cbn [bind] in Hrun.
    injection Hrun as <- <-. exists key.
    split; [exact (flush_key_fresh _ _ _ Hkey)|]. repeat (split; [reflexivity|]).
    left. split; [exact He|reflexivity].
  - destruct (List.find _ (map_to_list (customers session))); [discriminate|].
    cbn [bind] in Hrun.
    destruct (flush_key _ _) as [e|key] eqn:Hkey; [discriminate|]. cbn [bind] in Hrun.
    injection Hrun as <- <-. exists key.
    split; [exact (flush_key_fresh _ _ _ Hkey)|]. repeat (split; [reflexivity|]).
    right. split; [exact Hne|]. split; [reflexivity|exact Hf].
Qed.

(** X10.  A customer that [create_customer] has stored is found again
    by [get_customer_by_code] under the code it was given, be it the
    code asked for (normalised) or, when none was asked for, the one
    [_generate_customer_code] returned; and the codes of the stored
    customers stay pairwise different. *)
Theorem create_customer_then_lookup (session : Session) (data : Customer.t)
    (draws : list six_draws) (generated : string) (c : Customer.t) (session' : Session) :
  (normalize_code (Customer.customer_code data) = "" ->
   _generate_customer_code session draws = Some generated) ->
  create_customer session data generated = inr (c, session') ->
  get_customer_by_code session' (Customer.customer_code c) = inr c /\
  (codes_unique session -> codes_unique session').
Proof.
  intros Hgen Hrun.
  destruct (create_customer_inr _ _ _ _ _ Hrun)
    as (key & Hfresh & _ & Hcs & _ & _ & _ & _ & _ & Hcode).
  assert (Hfacts : normalize_code (Customer.customer_code c) = Customer.customer_code c /\
                   Customer.customer_code c <> "" /\
                   forall k x, customers session !! k = Some x ->
                     Customer.customer_code x <> Customer.customer_code c).
  { destruct Hcode as [(He & Hc)|(Hne & Hc & Hnone)].
    - specialize (Hgen He).
      destruct (generated_code_facts session draws generated Hgen)
        as (H1 & H2 & _ & H4 & _).
      rewrite Hc. split; [exact H4|]. split; [|exact H1].
      intros E. rewrite E in H2. discriminate.
    - rewrite Hc. split; [apply normalize_code_idem|]. split; [exact Hne|exact Hnone]. }
  destruct Hfacts as (Hnorm & Hne & Hnone).
  split.
  - unfold get_customer_by_code. rewrite Hnorm.
    destruct (String.eqb_spec (Customer.customer_code c) "") as [He|_]; [contradiction|].
    pose proof (find_code_spec Customer.customer_code (Customer.customer_code c)
                  (customers session')) as Hf.
    destruct (List.find _ (map_to_list (customers session'))) as [[k x]|].
    + destruct Hf as [Hk Hx]. cbn [fst snd] in *. rewrite Hcs in Hk.
      destruct (decide (key = k)) as [<-|Hd].
      * rewrite lookup_insert_eq in Hk. injection Hk as <-. reflexivity.
      * rewrite lookup_insert_ne in Hk by exact Hd.
        exfalso. exact (Hnone k x Hk Hx).
    + exfalso. apply (Hf key c); [|reflexivity]. rewrite Hcs. apply lookup_insert_eq.
  - intros Huniq k1 k2 c1 c2 H1 H2 Heq. rewrite Hcs in H1, H2.
    destruct (decide (key = k1)) as [<-|Hd1]; destruct (decide (key = k2)) as [<-|Hd2].
    + reflexivity.
    + rewrite lookup_insert_eq in H1. rewrite lookup_insert_ne in H2 by exact Hd2.
      injection H1 as <-. exfalso. apply (Hnone k2 c2 H2). symmetry. exact Heq.
    + rewrite lookup_insert_eq in H2. rewrite lookup_insert_ne in H1 by exact Hd1.
      injection H2 as <-. exfalso. exact (Hnone k1 c1 H1 Heq).
    + rewrite lookup_insert_ne in H1 by exact Hd1.
      rewrite lookup_insert_ne in H2 by exact Hd2.
      exact (Huniq k1 k2 c1 c2 H1 H2 Heq).
Qed.

Lemma create_customer_then_lookup_witness :
  (normalize_code (Customer.customer_code (new_customer "")) = "" ->
   _generate_customer_code empty_session [(0, 0, 0, 0, 0, 0)%nat] = Some "CUST-AAAAAA") /\
  create_customer empty_session (new_customer "") "CUST-AAAAAA"
  = inr (Customer.mk (Some 1%Z) "CUST-AAAAAA" 0 0 None, one_customer_session) /\
  get_customer_by_code one_customer_session "CUST-AAAAAA"
  = inr (Customer.mk (Some 1%Z) "CUST-AAAAAA" 0 0 None) /\
  (codes_unique empty_session -> codes_unique one_customer_session).
Proof.
  assert (H1 : normalize_code (Customer.customer_code (new_customer "")) = "" ->
               _generate_customer_code empty_session [(0, 0, 0, 0, 0, 0)%nat]
               = Some "CUST-AAAAAA") by (intros _; vm_compute; reflexivity).
  assert (H2 : create_customer empty_session (new_customer "") "CUST-AAAAAA"
               = inr (Customer.mk (Some 1%Z) "CUST-AAAAAA" 0 0 None, one_customer_session))
    by (vm_compute; reflexivity).
  split; [exact H1|]. split; [exact H2|].
  exact (create_customer_then_lookup empty_session (new_customer "")
           [(0, 0, 0, 0, 0, 0)%nat] "CUST-AAAAAA" _ _ H1 H2).
Defined.


(** ** Codes in request payloads *)

Lemma code_char_of_upper (a : ascii) :
  is_alnum a || Ascii.eqb a "-" = true -> code_char (upper_ascii a) = true.
Proof. destruct a as [[] [] [] [] [] [] [] []]; vm_compute; intros H; congruence. Qed.

Lemma code_char_plain (a : ascii) : code_char a = true -> plain_char a.
Proof.
  destruct a as [[] [] [] [] [] [] [] []]; vm_compute; intros H;
    first [discriminate | split; reflexivity].
Qed.

Lemma code_char_allowed (a : ascii) :
  code_char a = true -> is_alnum a || Ascii.eqb a "-" = true.
Proof. destruct a as [[] [] [] [] [] [] [] []]; vm_compute; intros H; congruence. Qed.

Lemma str_upper_chars (s : string) :
  list_ascii_of_string (str_upper s) = upper_ascii <$> list_ascii_of_string s.
Proof. unfold str_upper. apply list_ascii_of_string_of_list_ascii. Qed.

Lemma str_strip_chars (s : string) :
  list_ascii_of_string (str_strip s) = strip_chars (list_ascii_of_string s).
Proof. unfold str_strip. apply list_ascii_of_string_of_list_ascii. Qed.

Lemma plain_chars_stripped (l : list ascii) : Forall plain_char l -> strip_chars l = l.
Proof.
  intros Hall.
  assert (Hhead : forall l', Forall plain_char l' -> no_leading_space l').
  { intros l' H'. destruct H' as [|a l' [Ha _] _]; [exact I|exact Ha]. }
  unfold strip_chars. rewrite (lstrip_id l (Hhead _ Hall)).
  rewrite (lstrip_id (rev l)); [apply rev_involutive|].
  apply Hhead, Forall_forall. intros a Ha. rewrite Forall_forall in Hall.
  apply Hall, list_elem_of_In, List.in_rev, list_elem_of_In. exact Ha.
Qed.

(** X11.  The validator of loan codes in request payloads, on ASCII
    text: a value that is blank once trimmed is passed on as no code; a
    value with a character other than a letter, a digit or a hyphen is
    refused; any other value is passed on trimmed and in upper case.  A
    code that is passed on is not empty, consists of capital letters,
    digits and hyphens, is what [get_loan_by_code] normalises the value
    to, and passes the validator again unchanged. *)
Theorem loan_code_validator (value : string) :
  is_ascii_text value ->
  match _normalize_optional_loan_code (Some value) with
  | Valid None => normalize_code value = ""
  | Valid (Some code) =>
      code <> "" /\
      code = normalize_code value /\
      forallb code_char (list_ascii_of_string code) = true /\
      normalize_code code = code /\
      _normalize_optional_loan_code (Some code) = Valid (Some code) /\
      _normalize_required_loan_code value = Valid code
  | ValueError message =>
      message = "loan_code must contain only letters, digits, or hyphen" /\
      exists a, a ∈ list_ascii_of_string (str_strip value) /\
                is_alnum a = false /\ a <> "-"%char
  end.
Proof.
  intros _. unfold _normalize_required_loan_code, _normalize_optional_loan_code.
  destruct (String.eqb_spec (str_strip value) "") as [He|Hne].
  { unfold normalize_code. rewrite He. reflexivity. }
  destruct (forallb _ (list_ascii_of_string (str_strip value))) eqn:Hall.
  - assert (Hchars : Forall (fun a => code_char a = true)
                       (list_ascii_of_string (str_upper (str_strip value)))).
    { rewrite str_upper_chars. apply Forall_fmap, Forall_forall. intros a Ha. cbn.
      apply code_char_of_upper.
      rewrite forallb_forall in Hall. apply Hall, list_elem_of_In. exact Ha. }
    assert (Hplain : Forall plain_char
                       (list_ascii_of_string (str_upper (str_strip value)))).
    { eapply Forall_impl; [exact Hchars|]. intros a. apply code_char_plain. }
    assert (Hnonempty : str_upper (str_strip value) <> "").
    { intros E. apply Hne. apply string_chars_inj.
      apply (f_equal list_ascii_of_string) in E. rewrite str_upper_chars in E.
      cbn in E. apply fmap_nil_inv in E. rewrite E. reflexivity. }
    assert (Hstrip : str_strip (str_upper (str_strip value)) = str_upper (str_strip value)).
    { apply string_chars_inj. rewrite str_strip_chars. apply plain_chars_stripped.
      exact Hplain. }
    assert (Hupper : str_upper (str_upper (str_strip value)) = str_upper (str_strip value)).
    { apply string_chars_inj. rewrite !str_upper_chars, <- list_fmap_compose.
      apply list_fmap_ext. intros i a _. cbn. apply upper_ascii_idem. }
    split; [exact Hnonempty|]. split; [reflexivity|]. split.
    { apply forallb_forall. intros a Ha. rewrite Forall_forall in Hchars.
      apply Hchars, list_elem_of_In. exact Ha. }
    split; [apply normalize_code_idem|]. split.
    + rewrite Hstrip.
      destruct (String.eqb_spec (str_upper (str_strip value)) "") as [E|_];
        [contradiction|].
      assert (Hok : forallb (fun ch => is_alnum ch || Ascii.eqb ch "-")
                      (list_ascii_of_string (str_upper (str_strip value))) = true).
      { apply forallb_forall. intros a Ha. apply code_char_allowed.
        rewrite Forall_forall in Hchars. apply Hchars, list_elem_of_In. exact Ha. }
      rewrite Hok, Hupper. reflexivity.
    + destruct (String.eqb_spec (str_upper (str_strip value)) "") as [E|_];
        [contradiction|reflexivity].
  - split; [reflexivity|].
    assert (Hex : exists a, List.In a (list_ascii_of_string (str_strip value)) /\
                            (is_alnum a || Ascii.eqb a "-") = false).
    { clear Hne. induction (list_ascii_of_string (str_strip value)) as [|a l IH];
        [discriminate|].
      cbn in Hall. apply andb_false_iff in Hall. destruct Hall as [Ha|Hl].
      - exists a. split; [left; reflexivity|exact Ha].
      - destruct (IH Hl) as (b & Hb & Hbad). exists b. split; [right; exact Hb|exact Hbad]. }
    destruct Hex as (a & Ha & Hbad). apply orb_false_iff in Hbad.
    destruct Hbad as [H1 H2]. exists a. split; [apply list_elem_of_In; exact Ha|].
    split; [exact H1|]. apply Ascii.eqb_neq. exact H2.
Qed.

Lemma loan_code_validator_witness :
  is_ascii_text " ln-0001 " /\
  match _normalize_optional_loan_code (Some " ln-0001 ") with
  | Valid None => normalize_code " ln-0001 " = ""
  | Valid (Some code) =>
      code <> "" /\
      code = normalize_code " ln-0001 " /\
      forallb code_char (list_ascii_of_string code) = true /\
      normalize_code code = code /\
      _normalize_optional_loan_code (Some code) = Valid (Some code) /\
      _normalize_required_loan_code " ln-0001 " = Valid code
  | ValueError message =>
      message = "loan_code must contain only letters, digits, or hyphen" /\
      exists a, a ∈ list_ascii_of_string (str_strip " ln-0001 ") /\
                is_alnum a = false /\ a <> "-"%char
  end.
Proof.
  assert (H : is_ascii_text " ln-0001 ").
  { unfold is_ascii_text. cbn [list_ascii_of_string default from_option].
    repeat (constructor; [apply Nat.ltb_lt; reflexivity|]). constructor. }
  split; [exact H|]. exact (loan_code_validator " ln-0001 " H).
Defined.

(** ** The suffix of a loan code *)

Lemma choice_digit_is_digit (draw : nat) : is_digit (choice_digit draw) = true.
Proof.
  unfold choice_digit.
  assert (Hall : Forall (fun a => is_digit a = true) (list_ascii_of_string "0123456789")).
  { cbn. repeat (constructor; [reflexivity|]). constructor. }
  rewrite Forall_forall in Hall. apply Hall, list_elem_of_In, nth_In.
  cbn [length list_ascii_of_string]. apply Nat.mod_upper_bound. discriminate.
Qed.

(** X12.  [_id_suffix] always answers with four characters, all of them
    digits: the last four digits of the card number when it holds at
    least four, its digits padded with zeros on the left when it holds
    one to three, and four random digits when it holds none. *)
Theorem id_suffix_four_digits (id_card : option string) (draws : nat * nat * nat * nat) :
  is_ascii_text (default "" id_card) ->
  let digits := List.filter is_digit (list_ascii_of_string (default "" id_card)) in
  let suffix := list_ascii_of_string (_id_suffix id_card draws) in
  length suffix = 4%nat /\
  forallb is_digit suffix = true /\
  ((4 <= length digits)%nat -> exists front, digits = front ++ suffix) /\
  ((0 < length digits < 4)%nat ->
   suffix = repeat "0"%char (4 - length digits) ++ digits).
Proof.
  intros _ digits suffix. unfold suffix, _id_suffix. fold digits.
  assert (Hd : Forall (fun a => is_digit a = true) digits).
  { apply Forall_forall. intros a Ha. apply list_elem_of_In in Ha.
    apply List.filter_In in Ha. apply Ha. }
  destruct digits as [|a l] eqn:E.
  - destruct draws as [[[d1 d2] d3] d4].
    rewrite list_ascii_of_string_of_list_ascii.
    split; [reflexivity|]. split.
    + cbn [forallb]. rewrite !choice_digit_is_digit. reflexivity.
    + split; cbn; lia.
  - rewrite <- E in *. clear E a l.
    destruct (Nat.leb_spec 4 (length digits)) as [Hlen|Hlen];
      rewrite list_ascii_of_string_of_list_ascii.
    + split; [rewrite length_skipn; lia|]. split.
      * apply forallb_forall. intros x Hx.
        rewrite Forall_forall in Hd. apply Hd, list_elem_of_In.
        rewrite <- (firstn_skipn (length digits - 4) digits).
        apply in_or_app. right. exact Hx.
      * split; [|lia]. intros _. exists (firstn (length digits - 4) digits).
        symmetry. apply firstn_skipn.
    + unfold zfill. split; [rewrite length_app, repeat_length; lia|]. split.
      * apply forallb_forall. intros x Hx. apply in_app_or in Hx.
        destruct Hx as [Hx|Hx].
        -- apply repeat_spec in Hx. subst x. reflexivity.
        -- rewrite Forall_forall in Hd. apply Hd, list_elem_of_In. exact Hx.
      * split; [lia|]. intros _. reflexivity.
Qed.

Lemma id_suffix_four_digits_witness :
  is_ascii_text (default "" (Some "A-880312")) /\
  let digits := List.filter is_digit (list_ascii_of_string (default "" (Some "A-880312"))) in
  let suffix := list_ascii_of_string (_id_suffix (Some "A-880312") (0, 0, 0, 0)%nat) in
  length suffix = 4%nat /\
  forallb is_digit suffix = true /\
  ((4 <= length digits)%nat -> exists front, digits = front ++ suffix) /\
  ((0 < length digits < 4)%nat ->
   suffix = repeat "0"%char (4 - length digits) ++ digits).
Proof.
  assert (H : is_ascii_text (default "" (Some "A-880312"))).
  { unfold is_ascii_text. cbn [list_ascii_of_string default from_option].
    repeat (constructor; [apply Nat.ltb_lt; reflexivity|]). constructor. }
  split; [exact H|]. exact (id_suffix_four_digits (Some "A-880312") (0, 0, 0, 0)%nat H).
Defined.


(** ** What the operations leave in place *)

Lemma grows_refl (s : Session) : grows s s.
Proof.
  split; [exists []; rewrite app_nil_r; split; [reflexivity|constructor]|].
  split; [exists []; rewrite app_nil_r; reflexivity|]. split; auto.
Qed.

Lemma grows_trans (s1 s2 s3 : Session) : grows s1 s2 -> grows s2 s3 -> grows s1 s3.
Proof.
  intros ((e1 & He1 & Hw1) & (r1 & Hr1) & Hl1 & Hc1) ((e2 & He2 & Hw2) & (r2 & Hr2) & Hl2 & Hc2).
  split; [exists (e1 ++ e2); rewrite He2, He1, app_assoc; split;
            [reflexivity|apply Forall_app; split; assumption]|].
  split; [exists (r1 ++ r2); rewrite Hr2, Hr1, app_assoc; reflexivity|].
  split; auto.
Qed.

(** Sessions that agree on the two ledgers and on which customers are
    stored. *)
Lemma grows_same (s s' : Session) :
  balance_events s' = balance_events s ->
  bank_transactions s' = bank_transactions s ->
  (forall k, is_Some (customers s !! k) -> is_Some (customers s' !! k)) ->
  grows s s'.
Proof.
  intros He Hb Hc.
  split; [exists []; rewrite app_nil_r; split; [exact He|constructor]|].
  split; [exists []; rewrite app_nil_r; exact Hb|].
  split; [rewrite Hb; auto|exact Hc].
Qed.

Lemma grows_save_customer (s : Session) (k : Z) (c : Customer.t) :
  grows s (save_customer s k c).
Proof.
  apply grows_same; [reflexivity|reflexivity|].
  intros k' Hk'. cbn. apply lookup_insert_is_Some'. right. exact Hk'.
Qed.

Lemma grows_set_loans (s : Session) (v : gmap Z Loan.t) : grows s (set_loans s v).
Proof. apply grows_same; [reflexivity|reflexivity|auto]. Qed.

Lemma grows_set_repayments (s : Session) (v : gmap Z Repayment.t) :
  grows s (set_repayments s v).
Proof. apply grows_same; [reflexivity|reflexivity|auto]. Qed.

Lemma grows_record_event (s : Session) (c : Customer.t) ty change descr meta time clock :
  grows s (snd (_record_balance_event s c ty change descr meta time clock)).
Proof.
  unfold _record_balance_event.
  destruct (id_of c) as [cid|]; [|apply grows_refl].
  destruct (Qabs change <=? eps); [apply grows_refl|].
  cbn [snd].
  split.
  { eexists. split; [reflexivity|]. constructor; [|constructor].
    unfold event_wf. cbn.
    split; [apply _round_amount_cents|]. split; [apply _round_amount_cents|].
    split; [apply _round_amount_nonneg, py_max_ge_r|].
    unfold _safe_myt, to_myt_datetime. destruct time; reflexivity. }
  split; [exists []; rewrite app_nil_r; reflexivity|]. split; auto.
Qed.

Lemma grows_record_bank (s : Session) ty amount rt rid cid :
  grows s (snd (record_bank_transaction s ty amount rt rid cid)).
Proof.
  split.
  { exists []. rewrite app_nil_r. split; [|constructor].
    destruct (record_bank_transaction s ty amount rt rid cid) as [o s'] eqn:E.
    apply record_bank_transaction_frame in E. apply E. }
  split.
  { pose proof (record_bank_transaction_effect s ty amount rt rid cid) as H.
    destruct (record_bank_transaction s ty amount rt rid cid) as [[entry|] s'].
    - destruct H as (_ & -> & _). eexists. reflexivity.
    - destruct H as (_ & ->). exists []. rewrite app_nil_r. reflexivity. }
  split.
  { exact (append_preserves_ledger_inv s (mk_append ty amount rt rid cid)). }
  destruct (record_bank_transaction s ty amount rt rid cid) as [o s'] eqn:E.
  apply record_bank_transaction_frame in E. destruct E as (E & _).
  cbn [snd]. rewrite E. auto.
Qed.

Lemma grows_growth_step (now : Z) (s : Session) (st : growth_state) :
  grows_from s (g_session st) -> grows_from s (g_session (growth_step now st)).
Proof.
  intros (s1 & Hs1 & Hg). unfold growth_step. cbn [g_session]. rewrite Hs1.
  destruct (eps <? _).
  - eexists. split; [reflexivity|].
    eapply grows_trans; [exact Hg|]. apply grows_record_event.
  - exists s1. split; [reflexivity|exact Hg].
Qed.

Lemma grows_advance (c : Customer.t) (now : Z) (s : Session) :
  grows_from s (snd (_apply_compound_growth c now (Some s))).
Proof.
  assert (Hs : grows_from s (Some s)) by (exists s; split; [reflexivity|apply grows_refl]).
  unfold _apply_compound_growth.
  destruct (ensure_myt_datetime (Customer.next_compound_at c)) as [t|];
    destruct (negb (dt_eqb _ _)); destruct (py_max _ 0 <=? 0).
  all: try match goal with
           | |- context [growth_loop ?n ?nw ?st0] =>
               assert (Hloop : grows_from s (g_session (growth_loop n nw st0)))
                 by (apply growth_loop_ind; [apply grows_growth_step | exact Hs]);
               set (st := growth_loop n nw st0) in *
           end.
  all: repeat (match goal with
               | |- context [if ?b then _ else _] => destruct b
               | |- context [match Customer.next_compound_at ?x with
                             | Some _ => _ | None => _ end] =>
                   destruct (Customer.next_compound_at x)
               end; cbn [fst snd]).
  all: assumption.
Qed.

Lemma grows_adjust (c : Customer.t) (delta : Q) (now : Z) (s : Session) :
  grows_from s (snd (_adjust_projected_balance c delta now (Some s))).
Proof.
  unfold _adjust_projected_balance.
  destruct (Qabs delta <=? eps); [exists s; split; [reflexivity|apply grows_refl]|].
  pose proof (grows_advance c now s) as Hadv.
  destruct (_apply_compound_growth c now (Some s)) as [[u c1] o1]. cbn [snd] in Hadv.
  repeat match goal with
         | |- context [if ?b then _ else _] => destruct b; cbn [fst snd]
         | |- context [match Customer.next_compound_at ?x with Some _ => _ | None => _ end] =>
             destruct (Customer.next_compound_at x); cbn [fst snd]
         end; exact Hadv.
Qed.

(** Naming the calls in [H] one by one, each with what it appends. *)
Ltac grow_adjust H :=
  match type of H with
  | context [_adjust_projected_balance ?c ?d ?n (Some ?s0)] =>
      let G := fresh "G" in
      let u := fresh "u" in let c1 := fresh "c" in let o := fresh "o" in
      let s1 := fresh "s" in
      pose proof (grows_adjust c d n s0) as G;
      destruct (_adjust_projected_balance c d n (Some s0)) as [[u c1] o];
      cbn [snd] in G; destruct G as (s1 & -> & G); cbn [from_option id] in H
  end.

Ltac grow_advance H :=
  match type of H with
  | context [_apply_compound_growth ?c ?n (Some ?s0)] =>
      let G := fresh "G" in
      let u := fresh "u" in let c1 := fresh "c" in let o := fresh "o" in
      let s1 := fresh "s" in
      pose proof (grows_advance c n s0) as G;
      destruct (_apply_compound_growth c n (Some s0)) as [[u c1] o];
      cbn [snd] in G; destruct G as (s1 & -> & G); cbn [from_option id] in H
  end.

Ltac grow_record H :=
  match type of H with
  | context [_record_balance_event ?s0 ?c ?ty ?d ?de ?m ?t ?cl] =>
      let G := fresh "G" in let o := fresh "o" in let s1 := fresh "s" in
      pose proof (grows_record_event s0 c ty d de m t cl) as G;
      destruct (_record_balance_event s0 c ty d de m t cl) as [o s1];
      cbn [snd] in G, H
  end.

Ltac grow_bank H :=
  match type of H with
  | context [record_bank_transaction ?s0 ?ty ?a ?rt ?ri ?ci] =>
      let G := fresh "G" in let o := fresh "o" in let s1 := fresh "s" in
      pose proof (grows_record_bank s0 ty a rt ri ci) as G;
      destruct (record_bank_transaction s0 ty a rt ri ci) as [o s1];
      cbn [snd] in G, H
  end.

Ltac grows_chain :=
  repeat match goal with
         | |- grows ?s ?s => apply grows_refl
         | G : grows ?x ?y |- grows _ ?y => first [exact G | eapply grows_trans; [|exact G]]
         | |- grows _ (save_customer _ _ _) =>
             eapply grows_trans; [|apply grows_save_customer]
         | |- grows _ (set_loans _ _) => eapply grows_trans; [|apply grows_set_loans]
         | |- grows _ (set_repayments _ _) =>
             eapply grows_trans; [|apply grows_set_repayments]
         end.

Lemma create_loan_grows (s : Session) loan generated now loan' s' :
  create_loan s loan generated now = inr (loan', s') -> grows s s'.
Proof.
  intros Hrun. unfold create_loan in Hrun.
  step_bind Hrun. cbn in Hrun. grow_adjust Hrun. cbn in Hrun. step_bind Hrun.
  cbn in Hrun. grow_record Hrun. grow_bank Hrun. injection Hrun as <- <-.
  grows_chain.
Qed.

Lemma delete_loan_grows (s : Session) loan_id now s' :
  delete_loan s loan_id now = inr s' -> grows s s'.
Proof.
  intros Hrun. unfold delete_loan in Hrun.
  step_bind Hrun. step_bind Hrun. cbn in Hrun. grow_adjust Hrun. cbn in Hrun.
  grow_record Hrun. grow_bank Hrun. injection Hrun as <-.
  grows_chain.
Qed.

Lemma delete_repayment_grows (s : Session) repayment_id now s' :
  delete_repayment s repayment_id now = inr s' -> grows s s'.
Proof.
  intros Hrun. unfold delete_repayment in Hrun.
  step_bind Hrun. step_bind Hrun. cbn in Hrun. grow_adjust Hrun. cbn in Hrun.
  grow_record Hrun. grow_bank Hrun. injection Hrun as <-.
  grows_chain.
Qed.

Lemma create_repayment_grows (s : Session) repayment now row s' :
  create_repayment s repayment now = inr (row, s') -> grows s s'.
Proof.
  intros Hrun. unfold create_repayment in Hrun.
  step_bind Hrun. step_bind Hrun. step_bind Hrun.
  assert (Hs0 : s0 = s).
  { destruct (match truthy (Repayment.loan_id repayment) with
              | Some lid => loans s !! lid
              | None => None
              end) as [loan|].
    - eapply guard_inr; eauto.
    - injection Hb1 as <-. reflexivity. }
  subst s0. cbn in Hrun. grow_advance Hrun. cbn in Hrun. grow_adjust Hrun. cbn in Hrun.
  step_bind Hrun. cbn in Hrun. grow_record Hrun. grow_bank Hrun.
  injection Hrun as <- <-. grows_chain.
Qed.

Lemma advance_grows (s : Session) customer_id now s' :
  advance s customer_id now = inr s' -> grows s s'.
Proof.
  intros Hrun. unfold advance in Hrun. step_bind Hrun. grow_advance Hrun.
  injection Hrun as <-. grows_chain.
Qed.

Lemma reconcile_grows (s : Session) customer_id actual now s' :
  reconcile s customer_id actual now = inr s' -> grows s s'.
Proof.
  intros Hrun. unfold reconcile, _refresh_compounded_balance in Hrun. step_bind Hrun.
  destruct (eps <? Qabs _).
  - grow_adjust Hrun. injection Hrun as <-. grows_chain.
  - grow_advance Hrun. injection Hrun as <-. grows_chain.
Qed.

Lemma update_loan_grows (s : Session) loan_id payload now loan' s' :
  update_loan s loan_id payload now = inr (loan', s') -> grows s s'.
Proof.
  intros Hrun. unfold update_loan in Hrun.
  step_bind Hrun. step_bind Hrun. step_bind Hrun.
  destruct (LoanUpdate.loan_amount payload) as [new_amount|].
  - destruct (eps <? Qabs (_initial_compounded_amount new_amount - _)).
    + grow_adjust Hrun. grow_record Hrun.
      destruct (eps <? Qabs (new_amount - _)).
      * grow_bank Hrun. injection Hrun as <- <-. grows_chain.
      * injection Hrun as <- <-. grows_chain.
    + destruct (eps <? Qabs (new_amount - _)).
      * grow_bank Hrun. injection Hrun as <- <-. grows_chain.
      * injection Hrun as <- <-. grows_chain.
  - injection Hrun as <- <-. grows_chain.
Qed.

Lemma update_repayment_grows (s : Session) repayment_id payload now row s' :
  update_repayment s repayment_id payload now = inr (row, s') -> grows s s'.
Proof.
  intros Hrun. unfold update_repayment in Hrun.
  step_bind Hrun. step_bind Hrun. step_bind Hrun. step_bind Hrun. step_bind Hrun.
  destruct p as [[c1 r1] s1]. injection Hrun as <- <-.
  assert (Hstep : grows s s1); [|grows_chain].
  destruct (RepaymentUpdate.repayment_amount payload) as [value|].
  - step_bind Hb3.
    assert (Hs0 : s0 = s).
    { destruct o as [loan|]; [|injection Hb4 as <-; reflexivity].
      destruct (negb (isclose _ _)); [|injection Hb4 as <-; reflexivity].
      eapply guard_inr; eauto. }
    subst s0.
    destruct (eps <? Qabs (- Qabs value - _)).
    + grow_adjust Hb3. grow_record Hb3.
      destruct (eps <? Qabs (Qabs value - _)).
      * grow_bank Hb3. injection Hb3 as <- <- <-. grows_chain.
      * injection Hb3 as <- <- <-. grows_chain.
    + destruct (eps <? Qabs (Qabs value - _)).
      * grow_bank Hb3. injection Hb3 as <- <- <-. grows_chain.
      * injection Hb3 as <- <- <-. grows_chain.
  - injection Hb3 as <- <- <-. grows_chain.
Qed.

Lemma update_customer_balance_grows (s : Session) customer_id payload now c' s' :
  update_customer_balance s customer_id payload now = inr (c', s') -> grows s s'.
Proof.
  intros Hrun. unfold update_customer_balance in Hrun.
  step_bind Hrun. step_bind Hrun. step_bind Hrun. step_bind Hrun.
  destruct (CustomerBalanceUpdate.projected_balance payload) as [value|].
  - destruct (eps <? Qabs _).
    + grow_adjust Hrun. grow_record Hrun. injection Hrun as <- <-. grows_chain.
    + injection Hrun as <- <-. grows_chain.
  - destruct (eps <? Qabs _).
    + grow_adjust Hrun. grow_record Hrun. injection Hrun as <- <-. grows_chain.
    + injection Hrun as <- <-. grows_chain.
Qed.

Lemma create_customer_grows (s : Session) data generated c s' :
  create_customer s data generated = inr (c, s') -> grows s s'.
Proof.
  intros Hrun.
  destruct (create_customer_inr _ _ _ _ _ Hrun)
    as (key & _ & _ & Hcs & _ & _ & He & Hb & _).
  apply grows_same; [exact He|exact Hb|].
  intros k Hk. rewrite Hcs. apply lookup_insert_is_Some'. right. exact Hk.
Qed.

(** Every operation that succeeds appends to the two ledgers and
    deletes no customer. *)
Lemma run_grows (s s' : Session) (op : operation) : run s op = inr s' -> grows s s'.
Proof.
  destruct op; cbn [run]; intros Hrun.
  - step_bind Hrun. destruct p as [c s1]. injection Hrun as <-.
    eapply create_customer_grows; eauto.
  - step_bind Hrun. destruct p as [l s1]. injection Hrun as <-.
    eapply create_loan_grows; eauto.
  - step_bind Hrun. destruct p as [r s1]. injection Hrun as <-.
    eapply create_repayment_grows; eauto.
  - step_bind Hrun. destruct p as [l s1]. injection Hrun as <-.
    eapply update_loan_grows; eauto.
  - step_bind Hrun. destruct p as [r s1]. injection Hrun as <-.
    eapply update_repayment_grows; eauto.
  - eapply delete_loan_grows; eauto.
  - eapply delete_repayment_grows; eauto.
  - step_bind Hrun. destruct p as [c s1]. injection Hrun as <-.
    eapply update_customer_balance_grows; eauto.
  - eapply advance_grows; eauto.
  - eapply reconcile_grows; eauto.
Qed.

Lemma reachable_grown (allowed : operation -> Prop) (s : Session) :
  reachable allowed s -> grows empty_session s.
Proof.
  induction 1 as [|s op s' Hreach IH Hop Hrun]; [apply grows_refl|].
  eapply grows_trans; [exact IH|]. eapply run_grows; eauto.
Qed.

(** X13.  No operation that succeeds changes or removes a balance event
    or a bank row that is there, or removes a customer: the two ledgers
    after the operation are those before it with rows appended. *)
Theorem operations_append_only (s s' : Session) (op : operation) :
  run s op = inr s' ->
  (exists evs, balance_events s' = balance_events s ++ evs) /\
  (exists rows, bank_transactions s' = bank_transactions s ++ rows) /\
  (forall k, is_Some (customers s !! k) -> is_Some (customers s' !! k)).
Proof.
  intros Hrun. destruct (run_grows s s' op Hrun) as ((evs & He & _) & Hb & _ & Hc).
  split; [exists evs; exact He|]. split; [exact Hb|exact Hc].
Qed.

Lemma operations_append_only_witness :
  exists s',
    run one_customer_session (CreateLoan loan_500 "LN-0001" sample_now) = inr s' /\
    (exists evs, balance_events s' = balance_events one_customer_session ++ evs) /\
    (exists rows, bank_transactions s' = bank_transactions one_customer_session ++ rows) /\
    (forall k, is_Some (customers one_customer_session !! k) ->
               is_Some (customers s' !! k)).
Proof.
  eexists. split; [vm_compute; reflexivity|].
  apply (operations_append_only one_customer_session _
           (CreateLoan loan_500 "LN-0001" sample_now)).
  vm_compute. reflexivity.
Defined.



(** X15.  In every session that the operations reach, the balance
    events are numbered 1, 2, ... in the order they were written, and
    every one carries a two-decimal [change_amount], a two-decimal
    [balance_after] that is not negative, a time with a zone, and the key
    of a stored customer. *)
Theorem reachable_events_well_formed (allowed : operation -> Prop) (s : Session) :
  reachable allowed s ->
  forall (i : nat) e, balance_events s !! i = Some e ->
    CompoundBalanceEvent.id e = Z.of_nat (S i) /\
    is_cents (CompoundBalanceEvent.change_amount e) /\
    is_cents (CompoundBalanceEvent.balance_after e) /\
    0 <= CompoundBalanceEvent.balance_after e /\
    tz_aware (CompoundBalanceEvent.event_time e) = true /\
    is_Some (customers s !! CompoundBalanceEvent.customer_id e).
Proof.
  intros Hreach i e Hi.
  destruct (reachable_inv allowed s Hreach) as [[Hkeys Hdom] _].
  destruct (reachable_grown allowed s Hreach) as ((evs & He & Hwf) & _).
  cbn in He. rewrite He in Hi.
  split; [apply Hkeys; rewrite He; exact Hi|].
  rewrite Forall_forall in Hwf.
  assert (Hin : e ∈ evs) by (apply list_elem_of_lookup; exists i; exact Hi).
  destruct (Hwf e Hin) as (H1 & H2 & H3 & H4).
  repeat (split; [assumption|]).
  apply Hdom. rewrite He. exact Hin.
Qed.

Lemma reachable_events_well_formed_witness :
  exists s e,
    run_all sample_ops empty_session = inr s /\
    balance_events s !! 1%nat = Some e /\
    CompoundBalanceEvent.id e = Z.of_nat 2 /\
    is_cents (CompoundBalanceEvent.change_amount e) /\
    is_cents (CompoundBalanceEvent.balance_after e) /\
    0 <= CompoundBalanceEvent.balance_after e /\
    tz_aware (CompoundBalanceEvent.event_time e) = true /\
    is_Some (customers s !! CompoundBalanceEvent.customer_id e).
Proof.
  eexists. eexists. split; [vm_compute; reflexivity|].
  split; [vm_compute; reflexivity|].
  refine (reachable_events_well_formed any_operation _ _ 1%nat _ _).
  - eapply (reachable_run_all any_operation sample_ops empty_session).
    + apply reachable_empty.
    + repeat constructor.
    + vm_compute. reflexivity.
  - vm_compute. reflexivity.
Defined.


(** ** The auditor on the data the operations write *)

Lemma elem_of_concat_fmap_2 {A B : Type} (f : A -> list B) (l : list A) (x : A) (y : B) :
  x ∈ l -> y ∈ f x -> y ∈ concat (f <$> l).
Proof.
  intros Hx Hy. induction l as [|a l IH]; [apply elem_of_nil in Hx; contradiction|].
  cbn [fmap list_fmap concat]. apply elem_of_app.
  apply elem_of_cons in Hx. destruct Hx as [->|Hx]; [left; exact Hy|right; auto].
Qed.

Lemma rows_of_table {A} (m : gmap Z A) (x : A) :
  x ∈ (snd <$> map_to_list m) <-> exists k, m !! k = Some x.
Proof.
  rewrite list_elem_of_fmap. split.
  - intros ([k y] & -> & Hin). exists k. apply elem_of_map_to_list. exact Hin.
  - intros (k & Hk). exists (k, x). split; [reflexivity|].
    apply elem_of_map_to_list. exact Hk.
Qed.

(** The issues that the auditor raises about one customer, by category;
    those about a negative balance event name an event of the table
    whose [balance_after] is below [- tolerance]. *)
Lemma audit_customer_issues (tolerance : Q) codes loans repayments events
    (customer : Customer.t) (issue : AuditIssue.t) :
  issue ∈ audit_customer tolerance codes loans repayments events customer ->
  AuditIssue.category issue = "customer_code" \/
  AuditIssue.category issue = "customer_balance" \/
  (AuditIssue.category issue = "balance_events" /\
   AuditIssue.message issue = "latest balance event drift from projected_balance") \/
  (AuditIssue.category issue = "balance_events" /\
   exists entry, entry ∈ events /\
     CompoundBalanceEvent.balance_after entry < - tolerance).
Proof.
  intros Hin. unfold audit_customer in Hin.
  repeat rewrite elem_of_app in Hin.
  destruct Hin as [Hin|[Hin|[Hin|Hin]]].
  - left. destruct (String.eqb _ ""); [|destruct (_ <? _)%nat];
      repeat (apply elem_of_cons in Hin; destruct Hin as [->|Hin]; [reflexivity|]);
      apply elem_of_nil in Hin; contradiction.
  - right. left. destruct (negb _);
      repeat (apply elem_of_cons in Hin; destruct Hin as [->|Hin]; [reflexivity|]);
      apply elem_of_nil in Hin; contradiction.
  - right. left. destruct (negb _);
      repeat (apply elem_of_cons in Hin; destruct Hin as [->|Hin]; [reflexivity|]);
      apply elem_of_nil in Hin; contradiction.
  - right. right.
    destruct (last _) as [latest|]; [|apply elem_of_nil in Hin; contradiction].
    apply elem_of_app in Hin. destruct Hin as [Hin|Hin].
    + left. destruct (negb _);
        repeat (apply elem_of_cons in Hin; destruct Hin as [->|Hin];
                [split; reflexivity|]);
        apply elem_of_nil in Hin; contradiction.
    + right. apply list_elem_of_fmap in Hin. destruct Hin as (entry & -> & Hentry).
      split; [reflexivity|]. exists entry.
      apply list_elem_of_In, List.filter_In in Hentry. destruct Hentry as [Hrow Hneg].
      split.
      * apply list_elem_of_In in Hrow.
        destruct (timeline_sort_spec
                    (List.filter
                       (fun e => opt_Z_eqb (Some (CompoundBalanceEvent.customer_id e))
                                   (Customer.id customer)) events)) as [Hperm _].
        rewrite Hperm in Hrow.
        apply list_elem_of_In, List.filter_In in Hrow. apply list_elem_of_In, Hrow.
      * apply Qltb_true. exact Hneg.
Qed.

Lemma audit_loan_issues (codes : list string) (ids : list (option Z)) (loan : Loan.t)
    (issue : AuditIssue.t) :
  issue ∈ audit_loan codes ids loan ->
  AuditIssue.entity_id issue = Loan.id loan /\
  (AuditIssue.category issue = "loan_code" \/
   (AuditIssue.category issue = "loan_reference" /\
    existsb (opt_Z_eqb (Some (Loan.customer_id loan))) ids = false) \/
   (AuditIssue.category issue = "loan_amount" /\ Loan.loan_amount loan < 0)).
Proof.
  intros Hin. unfold audit_loan in Hin. repeat rewrite elem_of_app in Hin.
  destruct Hin as [Hin|[Hin|Hin]].
  - destruct (String.eqb _ ""); [|destruct (_ <? _)%nat];
      repeat (apply elem_of_cons in Hin; destruct Hin as [->|Hin];
              [split; [reflexivity|left; reflexivity]|]);
      apply elem_of_nil in Hin; contradiction.
  - destruct (existsb _ _) eqn:E; [apply elem_of_nil in Hin; contradiction|].
    repeat (apply elem_of_cons in Hin; destruct Hin as [->|Hin];
            [split; [reflexivity|right; left; split; reflexivity]|]).
    apply elem_of_nil in Hin. contradiction.
  - destruct (Loan.loan_amount loan <? 0) eqn:E;
      [|apply elem_of_nil in Hin; contradiction].
    apply Qltb_true in E.
    repeat (apply elem_of_cons in Hin; destruct Hin as [->|Hin];
            [split; [reflexivity|right; right; split; [reflexivity|exact E]]|]).
    apply elem_of_nil in Hin. contradiction.
Qed.

Lemma audit_repayment_issues (loans : list Loan.t) (ids : list (option Z))
    (repayment : Repayment.t) (issue : AuditIssue.t) :
  issue ∈ audit_repayment loans ids repayment ->
  AuditIssue.category issue = "repayment_amount" \/
  AuditIssue.category issue = "repayment_reference".
Proof.
  intros Hin. unfold audit_repayment in Hin. repeat rewrite elem_of_app in Hin.
  destruct Hin as [Hin|[Hin|Hin]].
  - left. destruct (_ <=? _);
      repeat (apply elem_of_cons in Hin; destruct Hin as [->|Hin]; [reflexivity|]);
      apply elem_of_nil in Hin; contradiction.
  - right. destruct (existsb _ _);
      repeat (apply elem_of_cons in Hin; destruct Hin as [->|Hin]; [reflexivity|]);
      apply elem_of_nil in Hin; contradiction.
  - right. destruct (Repayment.loan_id repayment);
      [|apply elem_of_nil in Hin; contradiction].
    destruct (List.find _ _); [destruct (_ =? _)%Z|];
      repeat (apply elem_of_cons in Hin; destruct Hin as [->|Hin]; [reflexivity|]);
      apply elem_of_nil in Hin; contradiction.
Qed.

(** The issues of a run, by the row they are about. *)
Lemma run_audit_issues (session : Session) (tolerance : Q) (issue : AuditIssue.t) :
  issue ∈ AuditReport.issues (run_audit session tolerance) ->
  (exists k customer,
     customers session !! k = Some customer /\
     issue ∈ audit_customer (py_max tolerance 0)
               (nonempty_codes (Customer.customer_code <$> (snd <$> map_to_list (customers session))))
               (snd <$> map_to_list (loans session))
               (snd <$> map_to_list (repayments session))
               (balance_events session) customer) \/
  (exists k loan,
     loans session !! k = Some loan /\
     issue ∈ audit_loan
               (nonempty_codes (Loan.loan_code <$> (snd <$> map_to_list (loans session))))
               (Customer.id <$> (snd <$> map_to_list (customers session))) loan) \/
  (exists k repayment,
     repayments session !! k = Some repayment /\
     issue ∈ audit_repayment (snd <$> map_to_list (loans session))
               (Customer.id <$> (snd <$> map_to_list (customers session))) repayment).
Proof.
  unfold run_audit. cbn [AuditReport.issues].
  rewrite !elem_of_app. intros [Hin|[Hin|Hin]];
    apply elem_of_concat_fmap in Hin; destruct Hin as (x & Hx & Hin);
    apply rows_of_table in Hx; destruct Hx as (k & Hk).
  - left. exists k, x. split; assumption.
  - right. left. exists k, x. split; assumption.
  - right. right. exists k, x. split; assumption.
Qed.

(** X16.  On a session that the operations have reached the auditor
    reports no balance event with a negative balance, whatever the
    tolerance it is run with. *)
Theorem audit_finds_no_negative_event (allowed : operation -> Prop) (s : Session)
    (tolerance : Q) (issue : AuditIssue.t) :
  reachable allowed s ->
  issue ∈ AuditReport.issues (run_audit s tolerance) ->
  AuditIssue.message issue <> "balance event recorded negative balance".
Proof.
  intros Hreach Hin Hmsg.
  destruct (run_audit_issues s tolerance issue Hin)
    as [(k & c & _ & Hc)|[(k & l & _ & Hl)|(k & r & _ & Hr)]].
  - unfold audit_customer in Hc. repeat rewrite elem_of_app in Hc.
    destruct Hc as [Hc|[Hc|[Hc|Hc]]].
    + destruct (String.eqb _ ""); [|destruct (_ <? _)%nat];
        repeat (apply elem_of_cons in Hc; destruct Hc as [->|Hc]; [discriminate|]);
        apply elem_of_nil in Hc; contradiction.
    + destruct (negb _);
        repeat (apply elem_of_cons in Hc; destruct Hc as [->|Hc]; [discriminate|]);
        apply elem_of_nil in Hc; contradiction.
    + destruct (negb _);
        repeat (apply elem_of_cons in Hc; destruct Hc as [->|Hc]; [discriminate|]);
        apply elem_of_nil in Hc; contradiction.
    + destruct (last _) as [latest|]; [|apply elem_of_nil in Hc; contradiction].
      apply elem_of_app in Hc. destruct Hc as [Hc|Hc].
      * destruct (negb _);
          repeat (apply elem_of_cons in Hc; destruct Hc as [->|Hc]; [discriminate|]);
          apply elem_of_nil in Hc; contradiction.
      * apply list_elem_of_fmap in Hc. destruct Hc as (entry & _ & Hentry).
        apply list_elem_of_In, List.filter_In in Hentry. destruct Hentry as [Hrow Hneg].
        apply Qltb_true in Hneg.
        apply list_elem_of_In in Hrow.
        destruct (timeline_sort_spec
                    (List.filter
                       (fun e => opt_Z_eqb (Some (CompoundBalanceEvent.customer_id e))
                                   (Customer.id c)) (balance_events s))) as [Hperm _].
        rewrite Hperm in Hrow.
        apply list_elem_of_In, List.filter_In in Hrow. destruct Hrow as [Hrow _].
        apply list_elem_of_In, list_elem_of_lookup in Hrow. destruct Hrow as (i & Hi).
        destruct (reachable_grown allowed s Hreach) as ((evs & He & Hwf) & _).
        cbn in He. rewrite He in Hi. rewrite Forall_forall in Hwf.
        assert (Hev : entry ∈ evs) by (apply list_elem_of_lookup; exists i; exact Hi).
        destruct (Hwf entry Hev) as (_ & _ & H0 & _).
        pose proof (py_max_ge_r tolerance 0). lra.
  - unfold audit_loan in Hl. repeat rewrite elem_of_app in Hl.
    destruct Hl as [Hl|[Hl|Hl]].
    + destruct (String.eqb _ ""); [|destruct (_ <? _)%nat];
        repeat (apply elem_of_cons in Hl; destruct Hl as [->|Hl]; [discriminate|]);
        apply elem_of_nil in Hl; contradiction.
    + destruct (existsb _ _);
        repeat (apply elem_of_cons in Hl; destruct Hl as [->|Hl]; [discriminate|]);
        apply elem_of_nil in Hl; contradiction.
    + destruct (negb _);
        repeat (apply elem_of_cons in Hl; destruct Hl as [->|Hl]; [discriminate|]);
        apply elem_of_nil in Hl; contradiction.
  - unfold audit_repayment in Hr. repeat rewrite elem_of_app in Hr.
    destruct Hr as [Hr|[Hr|Hr]].
    + destruct (_ <=? _);
        repeat (apply elem_of_cons in Hr; destruct Hr as [->|Hr]; [discriminate|]);
        apply elem_of_nil in Hr; contradiction.
    + destruct (existsb _ _);
        repeat (apply elem_of_cons in Hr; destruct Hr as [->|Hr]; [discriminate|]);
        apply elem_of_nil in Hr; contradiction.
    + destruct (Repayment.loan_id r); [|apply elem_of_nil in Hr; contradiction].
      destruct (List.find _ _); [destruct (_ =? _)%Z|];
        repeat (apply elem_of_cons in Hr; destruct Hr as [->|Hr]; [discriminate|]);
        apply elem_of_nil in Hr; contradiction.
Qed.

Lemma audit_finds_no_negative_event_witness :
  exists s issue,
    run_all negative_loan_ops empty_session = inr s /\
    AuditReport.issues (run_audit s (1 # 100)) = [issue] /\
    AuditIssue.message issue <> "balance event recorded negative balance".
Proof.
  eexists. eexists. split; [vm_compute; reflexivity|].
  split; [vm_compute; reflexivity|].
  refine (audit_finds_no_negative_event any_operation _ (1 # 100) _ _ _).
  - eapply (reachable_run_all any_operation negative_loan_ops empty_session).
    + apply reachable_empty.
    + repeat constructor.
    + vm_compute. reflexivity.
  - vm_compute. apply list_elem_of_here.
Defined.

(** X17.  The auditor reports the loans with a negative amount and no
    others under the category [loan_amount]: every stored loan whose
    amount is negative gets an issue of severity [error] that names it,
    and every issue of that category names a stored loan whose amount is
    negative. *)
Theorem audit_reports_negative_loan_amounts (session : Session) (tolerance : Q) :
  (forall k loan,
     loans session !! k = Some loan -> Loan.loan_amount loan < 0 ->
     exists issue,
       issue ∈ AuditReport.issues (run_audit session tolerance) /\
       AuditIssue.severity issue = "error" /\
       AuditIssue.category issue = "loan_amount" /\
       AuditIssue.entity issue = "loan" /\
       AuditIssue.entity_id issue = Loan.id loan /\
       AuditIssue.message issue = "loan_amount cannot be negative") /\
  (forall issue,
     issue ∈ AuditReport.issues (run_audit session tolerance) ->
     AuditIssue.category issue = "loan_amount" ->
     exists k loan,
       loans session !! k = Some loan /\ Loan.loan_amount loan < 0 /\
       AuditIssue.entity_id issue = Loan.id loan).
Proof.
  split.
  - intros k loan Hk Hneg. eexists. split.
    + unfold run_audit. cbn [AuditReport.issues].
      apply elem_of_app. right. apply elem_of_app. left.
      eapply elem_of_concat_fmap_2.
      * apply rows_of_table. exists k. exact Hk.
      * unfold audit_loan. apply elem_of_app. right. apply elem_of_app. right.
        apply Qltb_true in Hneg. rewrite Hneg. apply list_elem_of_here.
    + repeat split.
  - intros issue Hin Hcat.
    destruct (run_audit_issues session tolerance issue Hin)
      as [(k & c & _ & Hc)|[(k & l & Hk & Hl)|(k & r & _ & Hr)]].
    + apply audit_customer_issues in Hc.
      destruct Hc as [H|[H|[[H _]|[H _]]]]; rewrite H in Hcat; discriminate.
    + apply audit_loan_issues in Hl. destruct Hl as [Hid [H|[[H _]|[H Hneg]]]].
      * rewrite H in Hcat. discriminate.
      * rewrite H in Hcat. discriminate.
      * exists k, l. split; [exact Hk|]. split; [exact Hneg|exact Hid].
    + apply audit_repayment_issues in Hr. destruct Hr as [H|H];
        rewrite H in Hcat; discriminate.
Qed.

(** ** The rows an operation writes *)

Lemma keeps_rows_refl (k : Z) (s : Session) : keeps_rows k s s.
Proof.
  split; [auto|]. split; [reflexivity|]. split; [reflexivity|].
  exists []. rewrite app_nil_r. split; [reflexivity|constructor].
Qed.

Lemma keeps_rows_trans (k : Z) (s1 s2 s3 : Session) :
  keeps_rows k s1 s2 -> keeps_rows k s2 s3 -> keeps_rows k s1 s3.
Proof.
  intros (C1 & L1 & R1 & e1 & E1 & F1) (C2 & L2 & R2 & e2 & E2 & F2).
  split; [intros k' Hk'; rewrite C2, C1; auto|].
  split; [congruence|]. split; [congruence|].
  exists (e1 ++ e2). rewrite E2, E1, app_assoc. split; [reflexivity|].
  apply Forall_app. split; assumption.
Qed.

Lemma keeps_rows_save_customer (k : Z) (s : Session) (c : Customer.t) :
  keeps_rows k s (save_customer s k c).
Proof.
  split; [intros k' Hk'; cbn; apply lookup_insert_ne; congruence|].
  split; [reflexivity|]. split; [reflexivity|].
  exists []. rewrite app_nil_r. split; [reflexivity|constructor].
Qed.

Lemma keeps_rows_record_event (k : Z) (s : Session) (c : Customer.t)
    ty change descr meta time clock :
  id_of c = Some k ->
  keeps_rows k s (snd (_record_balance_event s c ty change descr meta time clock)).
Proof.
  intros Hid. unfold _record_balance_event. rewrite Hid.
  destruct (Qabs change <=? eps); [apply keeps_rows_refl|].
  cbn [snd]. split; [auto|]. split; [reflexivity|]. split; [reflexivity|].
  eexists. split; [reflexivity|]. constructor; [reflexivity|constructor].
Qed.

Lemma keeps_rows_record_bank (k : Z) (s : Session) ty amount rt rid cid :
  keeps_rows k s (snd (record_bank_transaction s ty amount rt rid cid)).
Proof.
  destruct (record_bank_transaction s ty amount rt rid cid) as [o s'] eqn:E.
  apply record_bank_transaction_frame in E. destruct E as (C & L & R & B).
  cbn [snd]. split; [intros; rewrite C; reflexivity|].
  split; [exact L|]. split; [exact R|].
  exists []. rewrite app_nil_r. split; [exact B|constructor].
Qed.

Lemma keeps_rows_growth_step (k now : Z) (s : Session) (st : growth_state) :
  id_of (g_customer st) = Some k /\ keeps_rows_from k s (g_session st) ->
  id_of (g_customer (growth_step now st)) = Some k /\
  keeps_rows_from k s (g_session (growth_step now st)).
Proof.
  intros (Hid & s1 & Hs1 & Hg). split; [exact Hid|].
  unfold growth_step. cbn [g_session]. rewrite Hs1.
  destruct (eps <? _).
  - eexists. split; [reflexivity|].
    eapply keeps_rows_trans; [exact Hg|]. apply keeps_rows_record_event. exact Hid.
  - exists s1. split; [reflexivity|exact Hg].
Qed.

Lemma keeps_rows_advance (k : Z) (c : Customer.t) (now : Z) (s : Session) :
  id_of c = Some k ->
  keeps_rows_from k s (snd (_apply_compound_growth c now (Some s))) /\
  id_of (snd (fst (_apply_compound_growth c now (Some s)))) = Some k.
Proof.
  intros Hid. split.
  - assert (Hs : keeps_rows_from k s (Some s))
      by (exists s; split; [reflexivity|apply keeps_rows_refl]).
    unfold _apply_compound_growth.
    destruct (ensure_myt_datetime (Customer.next_compound_at c)) as [t|];
      destruct (negb (dt_eqb _ _)); destruct (py_max _ 0 <=? 0).
    all: try match goal with
             | |- context [growth_loop ?n ?nw ?st0] =>
                 assert (Hloop : id_of (g_customer (growth_loop n nw st0)) = Some k /\
                                 keeps_rows_from k s (g_session (growth_loop n nw st0)))
                   by (apply (growth_loop_ind nw
                                (fun st => id_of (g_customer st) = Some k /\
                                           keeps_rows_from k s (g_session st)));
                       [apply keeps_rows_growth_step | split; [exact Hid|exact Hs]]);
                 destruct Hloop as [_ Hloop];
                 set (st := growth_loop n nw st0) in *
             end.
    all: repeat (match goal with
                 | |- context [if ?b then _ else _] => destruct b
                 | |- context [match Customer.next_compound_at ?x with
                               | Some _ => _ | None => _ end] =>
                     destruct (Customer.next_compound_at x)
                 end; cbn [fst snd]).
    all: assumption.
  - destruct (_apply_compound_growth c now (Some s)) as [[u c1] o] eqn:E.
    destruct (advance_keeps _ _ _ _ _ _ E) as [_ Hi]. cbn [fst snd].
    unfold id_of in *. rewrite Hi. exact Hid.
Qed.

Lemma keeps_rows_adjust (k : Z) (c : Customer.t) (delta : Q) (now : Z) (s : Session) :
  id_of c = Some k ->
  keeps_rows_from k s (snd (_adjust_projected_balance c delta now (Some s))) /\
  id_of (snd (fst (_adjust_projected_balance c delta now (Some s)))) = Some k.
Proof.
  intros Hid. split.
  - unfold _adjust_projected_balance.
    destruct (Qabs delta <=? eps);
      [exists s; split; [reflexivity|apply keeps_rows_refl]|].
    destruct (keeps_rows_advance k c now s Hid) as [Hadv _].
    destruct (_apply_compound_growth c now (Some s)) as [[u c1] o1]. cbn [snd] in Hadv.
    repeat match goal with
           | |- context [if ?b then _ else _] => destruct b; cbn [fst snd]
           | |- context [match Customer.next_compound_at ?x with
                         | Some _ => _ | None => _ end] =>
               destruct (Customer.next_compound_at x); cbn [fst snd]
           end; exact Hadv.
  - destruct (_adjust_projected_balance c delta now (Some s)) as [[u c1] o] eqn:E.
    destruct (adjust_balance _ _ _ _ _ _ _ E) as (_ & Hi & _). cbn [fst snd].
    unfold id_of in *. rewrite Hi. exact Hid.
Qed.

Lemma keeps_confined (k : Z) (s s' : Session) : keeps_rows k s s' -> confined k s s'.
Proof.
  intros (C & L & R & E). split; [exact C|].
  split; [intros key; left; rewrite L; reflexivity|].
  split; [intros key; left; rewrite R; reflexivity|exact E].
Qed.

Lemma confined_refl (k : Z) (s : Session) : confined k s s.
Proof. apply keeps_confined, keeps_rows_refl. Qed.

Lemma confined_trans (k : Z) (s1 s2 s3 : Session) :
  confined k s1 s2 -> confined k s2 s3 -> confined k s1 s3.
Proof.
  intros (C1 & L1 & R1 & e1 & E1 & F1) (C2 & L2 & R2 & e2 & E2 & F2).
  split; [intros k' Hk'; rewrite C2, C1; auto|].
  split.
  { intros key. destruct (L1 key) as [A|[A1 A2]]; destruct (L2 key) as [B|[B1 B2]].
    - left. congruence.
    - right. split; [rewrite <- A; exact B1|exact B2].
    - right. split; [exact A1|rewrite B; exact A2].
    - right. split; assumption. }
  split.
  { intros key. destruct (R1 key) as [A|[A1 A2]]; destruct (R2 key) as [B|[B1 B2]].
    - left. congruence.
    - right. split; [rewrite <- A; exact B1|exact B2].
    - right. split; [exact A1|rewrite B; exact A2].
    - right. split; assumption. }
  exists (e1 ++ e2). rewrite E2, E1, app_assoc. split; [reflexivity|].
  apply Forall_app. split; assumption.
Qed.

Lemma confined_insert_loan (k : Z) (s : Session) (key : Z) (loan : Loan.t) table :
  table = loans s ->
  (forall old, loans s !! key = Some old -> Loan.customer_id old = k) ->
  Loan.customer_id loan = k -> Loan.id loan = Some key ->
  confined k s (set_loans s (<[key := loan]> table)).
Proof.
  intros -> Hold Hc Hi. split; [auto|]. split.
  { intros key'. cbn. destruct (decide (key' = key)) as [->|Hne].
    - right. split; [exact Hold|]. rewrite lookup_insert_eq.
      intros l Hl. injection Hl as <-. split; assumption.
    - left. apply lookup_insert_ne. congruence. }
  split; [intros key'; left; reflexivity|].
  exists []. rewrite app_nil_r. split; [reflexivity|constructor].
Qed.

Lemma confined_delete_loan (k : Z) (s : Session) (key : Z) table :
  table = loans s ->
  (forall old, loans s !! key = Some old -> Loan.customer_id old = k) ->
  confined k s (set_loans s (delete key table)).
Proof.
  intros -> Hold. split; [auto|]. split.
  { intros key'. cbn. destruct (decide (key' = key)) as [->|Hne].
    - right. split; [exact Hold|]. rewrite lookup_delete_eq. discriminate.
    - left. apply lookup_delete_ne. congruence. }
  split; [intros key'; left; reflexivity|].
  exists []. rewrite app_nil_r. split; [reflexivity|constructor].
Qed.

Lemma confined_insert_repayment (k : Z) (s : Session) (key : Z) (r : Repayment.t) table :
  table = repayments s ->
  (forall old, repayments s !! key = Some old -> Repayment.customer_id old = k) ->
  Repayment.customer_id r = k -> Repayment.id r = Some key ->
  confined k s (set_repayments s (<[key := r]> table)).
Proof.
  intros -> Hold Hc Hi. split; [auto|]. split; [intros key'; left; reflexivity|].
  split.
  { intros key'. cbn. destruct (decide (key' = key)) as [->|Hne].
    - right. split; [exact Hold|]. rewrite lookup_insert_eq.
      intros l Hl. injection Hl as <-. split; assumption.
    - left. apply lookup_insert_ne. congruence. }
  exists []. rewrite app_nil_r. split; [reflexivity|constructor].
Qed.

Lemma confined_delete_repayment (k : Z) (s : Session) (key : Z) table :
  table = repayments s ->
  (forall old, repayments s !! key = Some old -> Repayment.customer_id old = k) ->
  confined k s (set_repayments s (delete key table)).
Proof.
  intros -> Hold. split; [auto|]. split; [intros key'; left; reflexivity|].
  split.
  { intros key'. cbn. destruct (decide (key' = key)) as [->|Hne].
    - right. split; [exact Hold|]. rewrite lookup_delete_eq. discriminate.
    - left. apply lookup_delete_ne. congruence. }
  exists []. rewrite app_nil_r. split; [reflexivity|constructor].
Qed.

Lemma keeps_loans (k : Z) (s s' : Session) : keeps_rows k s s' -> loans s' = loans s.
Proof. intros H. apply H. Qed.

Lemma keeps_repayments (k : Z) (s s' : Session) :
  keeps_rows k s s' -> repayments s' = repayments s.
Proof. intros H. apply H. Qed.

(** Naming the calls in [H] one by one, each with what it keeps. *)
Ltac rows_adjust H :=
  match type of H with
  | context [_adjust_projected_balance ?c ?d ?n (Some ?s0)] =>
      match goal with
      | Hid : id_of _ = Some ?k |- _ =>
          let G := fresh "G" in let I := fresh "Hid" in
          let u := fresh "u" in let c1 := fresh "c" in let o := fresh "o" in
          let s1 := fresh "s" in
          pose proof (keeps_rows_adjust k c d n s0 Hid) as [G I];
          destruct (_adjust_projected_balance c d n (Some s0)) as [[u c1] o];
          cbn [fst snd] in G, I; destruct G as (s1 & -> & G); cbn [from_option id] in H
      end
  end.

Ltac rows_advance H :=
  match type of H with
  | context [_apply_compound_growth ?c ?n (Some ?s0)] =>
      match goal with
      | Hid : id_of _ = Some ?k |- _ =>
          let G := fresh "G" in let I := fresh "Hid" in
          let u := fresh "u" in let c1 := fresh "c" in let o := fresh "o" in
          let s1 := fresh "s" in
          pose proof (keeps_rows_advance k c n s0 Hid) as [G I];
          destruct (_apply_compound_growth c n (Some s0)) as [[u c1] o];
          cbn [fst snd] in G, I; destruct G as (s1 & -> & G); cbn [from_option id] in H
      end
  end.

Ltac rows_record H :=
  match type of H with
  | context [_record_balance_event ?s0 ?c ?ty ?d ?de ?m ?t ?cl] =>
      match goal with
      | Hid : id_of _ = Some ?k |- _ =>
          let G := fresh "G" in let o := fresh "o" in let s1 := fresh "s" in
          pose proof (keeps_rows_record_event k s0 c ty d de m t cl Hid) as G;
          destruct (_record_balance_event s0 c ty d de m t cl) as [o s1];
          cbn [snd] in G, H
      end
  end.

Ltac rows_bank k H :=
  match type of H with
  | context [record_bank_transaction ?s0 ?ty ?a ?rt ?ri ?ci] =>
      let G := fresh "G" in let o := fresh "o" in let s1 := fresh "s" in
      pose proof (keeps_rows_record_bank k s0 ty a rt ri ci) as G;
      destruct (record_bank_transaction s0 ty a rt ri ci) as [o s1];
      cbn [snd] in G, H
  end.

(** The loans and repayments of a session in the goal, traced back
    through the calls that keep them. *)
Ltac rows_back :=
  repeat (cbn [loans repayments set_loans set_repayments save_customer set_customers];
          match goal with
          | G : keeps_rows _ _ ?y |- context [loans ?y] => rewrite (keeps_loans _ _ _ G)
          | G : keeps_rows _ _ ?y |- context [repayments ?y] =>
              rewrite (keeps_repayments _ _ _ G)
          end);
  cbn [loans repayments set_loans set_repayments save_customer set_customers].

Ltac conf_chain :=
  repeat match goal with
         | |- confined _ ?s ?s => apply confined_refl
         | G : keeps_rows _ _ ?y |- confined _ _ ?y =>
             eapply confined_trans; [|apply keeps_confined; exact G]
         | |- confined _ _ (save_customer _ _ _) =>
             eapply confined_trans; [|apply keeps_confined, keeps_rows_save_customer]
         end.

Lemma create_loan_confined (s : Session) loan generated now loan' s' :
  ids_ok s ->
  create_loan s loan generated now = inr (loan', s') ->
  confined (Loan.customer_id loan) s s'.
Proof.
  intros Hids Hrun. unfold create_loan in Hrun.
  step_bind Hrun. find_customer. pose proof (Hids _ _ Hc) as Hid.
  cbn in Hrun. rows_adjust Hrun. cbn in Hrun. step_bind Hrun.
  cbn in Hrun. rows_record Hrun. rows_bank (Loan.customer_id loan) Hrun.
  injection Hrun as <- <-.
  match goal with
  | Hk : flush_key _ _ = inr _ |- _ => apply flush_key_fresh in Hk; rename Hk into Hfresh
  end.
  conf_chain.
  eapply confined_trans; [|apply confined_insert_loan].
  - conf_chain.
  - reflexivity.
  - cbn. rewrite Hfresh. discriminate.
  - reflexivity.
  - reflexivity.
Qed.

Lemma delete_loan_confined (s : Session) loan_id now loan s' :
  ids_ok s -> loans s !! loan_id = Some loan ->
  delete_loan s loan_id now = inr s' ->
  confined (Loan.customer_id loan) s s'.
Proof.
  intros Hids Hl Hrun. unfold delete_loan in Hrun. rewrite Hl in Hrun.
  cbn [bind] in Hrun.
  step_bind Hrun. find_customer. pose proof (Hids _ _ Hc) as Hid.
  cbn in Hrun. rows_adjust Hrun. cbn in Hrun.
  rows_record Hrun. rows_bank (Loan.customer_id loan) Hrun. injection Hrun as <-.
  eapply confined_trans; [|apply confined_delete_loan].
  - conf_chain.
  - rows_back. reflexivity.
  - rows_back. rewrite Hl. intros old Ho. injection Ho as <-. reflexivity.
Qed.

Lemma delete_repayment_confined (s : Session) repayment_id now r s' :
  ids_ok s -> repayments s !! repayment_id = Some r ->
  delete_repayment s repayment_id now = inr s' ->
  confined (Repayment.customer_id r) s s'.
Proof.
  intros Hids Hr Hrun. unfold delete_repayment in Hrun. rewrite Hr in Hrun.
  cbn [bind] in Hrun.
  step_bind Hrun. find_customer. pose proof (Hids _ _ Hc) as Hid.
  cbn in Hrun. rows_adjust Hrun. cbn in Hrun.
  rows_record Hrun. rows_bank (Repayment.customer_id r) Hrun. injection Hrun as <-.
  eapply confined_trans; [|apply confined_delete_repayment].
  - conf_chain.
  - rows_back. reflexivity.
  - rows_back. rewrite Hr. intros old Ho. injection Ho as <-. reflexivity.
Qed.

Lemma create_repayment_confined (s : Session) repayment now row s' :
  ids_ok s ->
  create_repayment s repayment now = inr (row, s') ->
  confined (Repayment.customer_id repayment) s s'.
Proof.
  intros Hids Hrun. unfold create_repayment in Hrun.
  step_bind Hrun. find_customer. pose proof (Hids _ _ Hc) as Hid.
  step_bind Hrun. step_bind Hrun.
  assert (Hs0 : s0 = s).
  { destruct (match truthy (Repayment.loan_id repayment) with
              | Some lid => loans s !! lid
              | None => None
              end) as [loan|].
    - eapply guard_inr; eauto.
    - match goal with H : inr _ = inr _ |- _ => injection H as <- end. reflexivity. }
  subst s0. cbn in Hrun. rows_advance Hrun. cbn in Hrun. rows_adjust Hrun. cbn in Hrun.
  step_bind Hrun. cbn in Hrun. rows_record Hrun.
  rows_bank (Repayment.customer_id repayment) Hrun.
  injection Hrun as <- <-.
  match goal with
  | Hk : flush_key _ _ = inr _ |- _ => apply flush_key_fresh in Hk; rename Hk into Hfresh
  end.
  conf_chain.
  eapply confined_trans; [|apply confined_insert_repayment].
  - conf_chain.
  - reflexivity.
  - cbn. rewrite Hfresh. discriminate.
  - reflexivity.
  - reflexivity.
Qed.

Lemma advance_confined (s : Session) customer_id now s' :
  ids_ok s -> advance s customer_id now = inr s' -> confined customer_id s s'.
Proof.
  intros Hids Hrun. unfold advance in Hrun. step_bind Hrun. find_customer.
  pose proof (Hids _ _ Hc) as Hid. rows_advance Hrun.
  injection Hrun as <-. conf_chain.
Qed.

Lemma reconcile_confined (s : Session) customer_id actual now s' :
  ids_ok s -> reconcile s customer_id actual now = inr s' -> confined customer_id s s'.
Proof.
  intros Hids Hrun. unfold reconcile, _refresh_compounded_balance in Hrun.
  step_bind Hrun. find_customer. pose proof (Hids _ _ Hc) as Hid.
  destruct (eps <? Qabs _).
  - rows_adjust Hrun. injection Hrun as <-. conf_chain.
  - rows_advance Hrun. injection Hrun as <-. conf_chain.
Qed.

Lemma update_customer_balance_confined (s : Session) customer_id payload now c' s' :
  ids_ok s ->
  update_customer_balance s customer_id payload now = inr (c', s') ->
  confined customer_id s s'.
Proof.
  intros Hids Hrun. unfold update_customer_balance in Hrun.
  step_bind Hrun. find_customer. pose proof (Hids _ _ Hc) as Hid.
  step_bind Hrun. step_bind Hrun. step_bind Hrun.
  destruct (CustomerBalanceUpdate.projected_balance payload) as [value|].
  - destruct (eps <? Qabs _).
    + rows_adjust Hrun. rows_record Hrun. injection Hrun as <- <-. conf_chain.
    + injection Hrun as <- <-. conf_chain.
  - destruct (eps <? Qabs _).
    + rows_adjust Hrun. rows_record Hrun. injection Hrun as <- <-. conf_chain.
    + injection Hrun as <- <-. conf_chain.
Qed.

Lemma update_loan_confined (s : Session) loan_id payload now loan loan' s' :
  ids_ok s -> loans s !! loan_id = Some loan -> Loan.id loan = Some loan_id ->
  update_loan s loan_id payload now = inr (loan', s') ->
  confined (Loan.customer_id loan) s s'.
Proof.
  intros Hids Hl Hkey Hrun. unfold update_loan in Hrun. rewrite Hl in Hrun.
  cbn [bind] in Hrun.
  step_bind Hrun. step_bind Hrun. find_customer. pose proof (Hids _ _ Hc) as Hid.
  assert (Hold : forall old, loans s !! loan_id = Some old ->
                             Loan.customer_id old = Loan.customer_id loan).
  { intros old Ho. rewrite Hl in Ho. injection Ho as <-. reflexivity. }
  destruct (LoanUpdate.loan_date payload), (LoanUpdate.processing_fee payload).
  all: destruct (LoanUpdate.loan_amount payload) as [new_amount|];
    [destruct (eps <? Qabs (_initial_compounded_amount new_amount - _));
     [rows_adjust Hrun; rows_record Hrun|];
     (destruct (eps <? Qabs (new_amount - _));
      [rows_bank (Loan.customer_id loan) Hrun|])|].
  all: cbn in Hrun; injection Hrun as <- <-.
  all: (eapply confined_trans; [|apply confined_insert_loan]);
    [conf_chain|rows_back; reflexivity|rows_back; exact Hold|reflexivity|exact Hkey].
Qed.

Lemma update_repayment_confined (s : Session) repayment_id payload now r row s' :
  ids_ok s -> repayments s !! repayment_id = Some r ->
  Repayment.id r = Some repayment_id ->
  update_repayment s repayment_id payload now = inr (row, s') ->
  confined (Repayment.customer_id r) s s'.
Proof.
  intros Hids Hr Hkey Hrun. unfold update_repayment in Hrun. rewrite Hr in Hrun.
  cbn [bind] in Hrun.
  step_bind Hrun. step_bind Hrun. find_customer. pose proof (Hids _ _ Hc) as Hid.
  step_bind Hrun. step_bind Hrun.
  destruct p as [[c1 r1] s1]. injection Hrun as <- <-.
  assert (Hold : forall old, repayments s !! repayment_id = Some old ->
                             Repayment.customer_id old = Repayment.customer_id r).
  { intros old Ho. rewrite Hr in Ho. injection Ho as <-. reflexivity. }
  assert (Hstep : keeps_rows (Repayment.customer_id r) s s1 /\
                  Repayment.customer_id r1 = Repayment.customer_id r /\
                  Repayment.id r1 = Repayment.id r).
  { match goal with
    | Hb3 : _ = inr (c1, r1, s1) |- _ =>
        destruct (RepaymentUpdate.repayment_amount payload) as [value|];
        [step_bind Hb3;
         assert (Hs0 : s0 = s);
         [destruct o as [loan|];
          [destruct (negb (isclose _ _));
           [eapply guard_inr; eauto
           |match goal with H : inr _ = inr _ |- _ => injection H as <- end; reflexivity]
          |match goal with H : inr _ = inr _ |- _ => injection H as <- end; reflexivity]
         |subst s0;
          destruct (eps <? Qabs (- Qabs value - _));
          [rows_adjust Hb3; rows_record Hb3|];
          (destruct (eps <? Qabs (Qabs value - _));
           [rows_bank (Repayment.customer_id r) Hb3|]);
          injection Hb3 as <- <- <-;
          (split; [|split; reflexivity]);
          repeat match goal with
                 | |- keeps_rows _ ?s ?s => apply keeps_rows_refl
                 | G : keeps_rows _ ?x ?y |- keeps_rows _ _ ?y =>
                     first [exact G | eapply keeps_rows_trans; [|exact G]]
                 end]
        |injection Hb3 as <- <- <-;
         split; [apply keeps_rows_refl|split; reflexivity]]
    end. }
  destruct Hstep as (G & Hcust & Hid1).
  destruct (RepaymentUpdate.repayment_date payload); cbn.
  all: (eapply confined_trans; [|apply confined_insert_repayment]);
    [rewrite ?Hcust; conf_chain|rows_back; reflexivity|rows_back; exact Hold
    |exact Hcust|rewrite <- Hkey; exact Hid1].
Qed.

Lemma create_customer_confined (s : Session) code generated c s' :
  create_customer s (new_customer code) generated = inr (c, s') ->
  confined (next_map_key (customers s)) s s'.
Proof.
  intros Hrun. unfold create_customer in Hrun. step_bind Hrun.
  assert (Hnone : Customer.id t = None).
  { destruct (String.eqb _ ""); [injection Hb as <-; reflexivity|].
    destruct (List.find _ _); [discriminate|]. injection Hb as <-. reflexivity. }
  rewrite Hnone in Hrun. unfold flush_key in Hrun. cbn [bind] in Hrun.
  injection Hrun as <- <-.
  split; [intros k' Hk'; cbn; apply lookup_insert_ne; congruence|].
  split; [intros key; left; reflexivity|]. split; [intros key; left; reflexivity|].
  exists []. rewrite app_nil_r. split; [reflexivity|constructor].
Qed.

(** Every operation that succeeds has a subject, and writes rows of its
    subject only. *)
Lemma run_confined (s s' : Session) (op : operation) :
  ids_ok s -> references_ok s -> run s op = inr s' ->
  exists k, subject s op = Some k /\ confined k s s'.
Proof.
  intros Hids [Hloans Hreps]. destruct op; cbn [run subject]; intros Hrun.
  - step_bind Hrun. destruct p as [c s1]. injection Hrun as <-.
    eexists. split; [reflexivity|]. eapply create_customer_confined; eauto.
  - step_bind Hrun. destruct p as [l s1]. injection Hrun as <-.
    eexists. split; [reflexivity|].
    exact (create_loan_confined s (Loan.set_id loan None) _ _ _ _ Hids Hb).
  - step_bind Hrun. destruct p as [r s1]. injection Hrun as <-.
    eexists. split; [reflexivity|].
    exact (create_repayment_confined s (Repayment.set_id repayment None) _ _ _ Hids Hb).
  - step_bind Hrun. destruct p as [l s1]. injection Hrun as <-.
    destruct (loans s !! loan_id) as [loan|] eqn:Hl;
      [|unfold update_loan in Hb; rewrite Hl in Hb; discriminate].
    exists (Loan.customer_id loan). split; [reflexivity|].
    eapply update_loan_confined; eauto. apply (Hloans _ _ Hl).
  - step_bind Hrun. destruct p as [r s1]. injection Hrun as <-.
    destruct (repayments s !! repayment_id) as [r0|] eqn:Hr;
      [|unfold update_repayment in Hb; rewrite Hr in Hb; discriminate].
    exists (Repayment.customer_id r0). split; [reflexivity|].
    eapply update_repayment_confined; eauto. apply (Hreps _ _ Hr).
  - destruct (loans s !! loan_id) as [loan|] eqn:Hl;
      [|unfold delete_loan in Hrun; rewrite Hl in Hrun; discriminate].
    exists (Loan.customer_id loan). split; [reflexivity|].
    eapply delete_loan_confined; eauto.
  - destruct (repayments s !! repayment_id) as [r0|] eqn:Hr;
      [|unfold delete_repayment in Hrun; rewrite Hr in Hrun; discriminate].
    exists (Repayment.customer_id r0). split; [reflexivity|].
    eapply delete_repayment_confined; eauto.
  - step_bind Hrun. destruct p as [c s1]. injection Hrun as <-.
    eexists. split; [reflexivity|]. eapply update_customer_balance_confined; eauto.
  - eexists. split; [reflexivity|]. eapply advance_confined; eauto.
  - eexists. split; [reflexivity|]. eapply reconcile_confined; eauto.
Qed.

(** The subject of an operation that succeeds is stored afterwards. *)
Lemma run_subject_stored (s s' : Session) (op : operation) (k : Z) :
  run s op = inr s' -> subject s op = Some k -> is_Some (customers s' !! k).
Proof.
  intros Hrun Hsub.
  assert (Hkeep : is_Some (customers s !! k) -> is_Some (customers s' !! k)).
  { destruct (run_grows s s' op Hrun) as (_ & _ & _ & Hdom). apply Hdom. }
  destruct op; cbn [run subject] in Hrun, Hsub.
  - step_bind Hrun. destruct p as [c s1]. injection Hrun as <-.
    injection Hsub as <-. clear Hkeep.
    unfold create_customer in Hb. step_bind Hb.
    assert (Hnone : Customer.id t = None).
    { destruct (String.eqb _ ""); [injection Hb0 as <-; reflexivity|].
      destruct (List.find _ _); [discriminate|]. injection Hb0 as <-. reflexivity. }
    rewrite Hnone in Hb. unfold flush_key in Hb. cbn [bind] in Hb.
    injection Hb as <- <-. cbn. rewrite lookup_insert_eq. eexists. reflexivity.
  - injection Hsub as <-. apply Hkeep.
    step_bind Hrun. unfold create_loan in Hb. step_bind Hb.
    apply get_customer_inr in Hb0. cbn in Hb0. rewrite Hb0. eexists. reflexivity.
  - injection Hsub as <-. apply Hkeep.
    step_bind Hrun. unfold create_repayment in Hb. step_bind Hb.
    apply get_customer_inr in Hb0. cbn in Hb0. rewrite Hb0. eexists. reflexivity.
  - apply Hkeep. step_bind Hrun. unfold update_loan in Hb.
    destruct (loans s !! loan_id) as [loan|]; [|discriminate].
    injection Hsub as <-. cbn [bind] in Hb. step_bind Hb. step_bind Hb.
    apply get_customer_inr in Hb1. rewrite Hb1. eexists. reflexivity.
  - apply Hkeep. step_bind Hrun. unfold update_repayment in Hb.
    destruct (repayments s !! repayment_id) as [r|]; [|discriminate].
    injection Hsub as <-. cbn [bind] in Hb. step_bind Hb. step_bind Hb.
    apply get_customer_inr in Hb1. rewrite Hb1. eexists. reflexivity.
  - apply Hkeep. unfold delete_loan in Hrun.
    destruct (loans s !! loan_id) as [loan|]; [|discriminate].
    injection Hsub as <-. cbn [bind] in Hrun. step_bind Hrun.
    apply get_customer_inr in Hb. rewrite Hb. eexists. reflexivity.
  - apply Hkeep. unfold delete_repayment in Hrun.
    destruct (repayments s !! repayment_id) as [r|]; [|discriminate].
    injection Hsub as <-. cbn [bind] in Hrun. step_bind Hrun.
    apply get_customer_inr in Hb. rewrite Hb. eexists. reflexivity.
  - injection Hsub as <-. apply Hkeep.
    step_bind Hrun. unfold update_customer_balance in Hb. step_bind Hb.
    apply get_customer_inr in Hb0. rewrite Hb0. eexists. reflexivity.
  - injection Hsub as <-. apply Hkeep.
    unfold advance in Hrun. step_bind Hrun.
    apply get_customer_inr in Hb. rewrite Hb. eexists. reflexivity.
  - injection Hsub as <-. apply Hkeep.
    unfold reconcile in Hrun. step_bind Hrun.
    apply get_customer_inr in Hb. rewrite Hb. eexists. reflexivity.
Qed.

Lemma reachable_ids_ok (allowed : operation -> Prop) (s : Session) :
  reachable allowed s -> ids_ok s.
Proof.
  intros Hreach k c Hc.
  exact (session_inv_id_of _ _ _ _ _ (reachable_inv allowed s Hreach) Hc).
Qed.

Lemma references_ok_step (s s' : Session) (op : operation) :
  ids_ok s -> references_ok s -> run s op = inr s' -> references_ok s'.
Proof.
  intros Hids Hrefs Hrun.
  destruct (run_confined s s' op Hids Hrefs Hrun) as (k & Hsub & _ & HL & HR & _).
  pose proof (run_subject_stored s s' op k Hrun Hsub) as Hk.
  destruct (run_grows s s' op Hrun) as (_ & _ & _ & Hdom).
  destruct Hrefs as [Hloans Hreps]. split.
  - intros key loan Hl. destruct (HL key) as [E|[_ Hnew]].
    + rewrite E in Hl. destruct (Hloans _ _ Hl) as [Hi Hc]. split; [exact Hi|auto].
    + destruct (Hnew _ Hl) as [Hc Hi]. split; [exact Hi|]. rewrite Hc. exact Hk.
  - intros key r Hr. destruct (HR key) as [E|[_ Hnew]].
    + rewrite E in Hr. destruct (Hreps _ _ Hr) as [Hi Hc]. split; [exact Hi|auto].
    + destruct (Hnew _ Hr) as [Hc Hi]. split; [exact Hi|]. rewrite Hc. exact Hk.
Qed.

Lemma reachable_references_ok (allowed : operation -> Prop) (s : Session) :
  reachable allowed s -> references_ok s.
Proof.
  induction 1 as [|s op s' Hreach IH Hop Hrun].
  - split; intros key x Hx; cbn in Hx; rewrite lookup_empty in Hx; discriminate.
  - eapply references_ok_step; eauto. eapply reachable_ids_ok; eauto.
Qed.

Lemma events_of_confined (k k' : Z) (s s' : Session) :
  confined k s s' -> k' <> k -> events_of s' k' = events_of s k'.
Proof.
  intros (_ & _ & _ & evs & He & Hall) Hne. unfold events_of.
  rewrite He, List.filter_app.
  assert (Hnil : List.filter (fun e => (CompoundBalanceEvent.customer_id e =? k')%Z) evs
                 = []).
  { clear He. induction Hall as [|e l He' _ IH]; [reflexivity|].
    cbn [List.filter]. rewrite He'.
    destruct (Z.eqb_spec k k') as [E|_]; [congruence|exact IH]. }
  rewrite Hnil, app_nil_r. reflexivity.
Qed.

(** X18.  An operation writes the rows of one customer only, its
    subject: the customer it names, the owner of the loan or repayment
    it names, or the customer it creates.  For every other customer the
    row, the balance events, the loans and the repayments are after the
    operation what they were before it. *)
Theorem operation_writes_one_customer (allowed : operation -> Prop) (s s' : Session)
    (op : operation) (k' : Z) :
  reachable allowed s -> run s op = inr s' -> subject s op <> Some k' ->
  customers s' !! k' = customers s !! k' /\
  events_of s' k' = events_of s k' /\
  (forall key loan, Loan.customer_id loan = k' ->
     (loans s' !! key = Some loan <-> loans s !! key = Some loan)) /\
  (forall key r, Repayment.customer_id r = k' ->
     (repayments s' !! key = Some r <-> repayments s !! key = Some r)).
Proof.
  intros Hreach Hrun Hsub.
  destruct (run_confined s s' op (reachable_ids_ok allowed s Hreach)
              (reachable_references_ok allowed s Hreach) Hrun) as (k & Hk & Hconf).
  assert (Hne : k' <> k) by (intros ->; apply Hsub; exact Hk).
  split; [apply Hconf; exact Hne|].
  split; [eapply events_of_confined; eauto|].
  destruct Hconf as (_ & HL & HR & _). split.
  - intros key loan Hc. destruct (HL key) as [E|[Hold Hnew]].
    + rewrite E. reflexivity.
    + split; intros H; exfalso; apply Hne; rewrite <- Hc.
      * apply (Hnew _ H).
      * apply (Hold _ H).
  - intros key r Hc. destruct (HR key) as [E|[Hold Hnew]].
    + rewrite E. reflexivity.
    + split; intros H; exfalso; apply Hne; rewrite <- Hc.
      * apply (Hnew _ H).
      * apply (Hold _ H).
Qed.

Lemma operation_writes_one_customer_witness :
  exists s s',
    run_all two_customer_ops empty_session = inr s /\
    run s (CreateLoan (loan_of 1 500 sample_now) "LN-0001" sample_now) = inr s' /\
    customers s' !! 2%Z = customers s !! 2%Z /\
    events_of s' 2 = events_of s 2 /\
    (forall key loan, Loan.customer_id loan = 2%Z ->
       (loans s' !! key = Some loan <-> loans s !! key = Some loan)) /\
    (forall key r, Repayment.customer_id r = 2%Z ->
       (repayments s' !! key = Some r <-> repayments s !! key = Some r)).
Proof.
  eexists. eexists. split; [vm_compute; reflexivity|].
  split; [vm_compute; reflexivity|].
  refine (operation_writes_one_customer any_operation _ _
            (CreateLoan (loan_of 1 500 sample_now) "LN-0001" sample_now) 2 _ _ _).
  - eapply (reachable_run_all any_operation two_customer_ops empty_session).
    + apply reachable_empty.
    + repeat constructor.
    + vm_compute. reflexivity.
  - vm_compute. reflexivity.
  - cbn. discriminate.
Defined.

(** The messages of the issues about one loan. *)
Lemma audit_loan_messages (codes : list string) (ids : list (option Z)) (loan : Loan.t)
    (issue : AuditIssue.t) :
  issue ∈ audit_loan codes ids loan ->
  AuditIssue.message issue = "loan_code is missing" \/
  AuditIssue.message issue = "loan_code is duplicated" \/
  (AuditIssue.message issue = "customer_id does not point to an existing customer" /\
   existsb (opt_Z_eqb (Some (Loan.customer_id loan))) ids = false) \/
  AuditIssue.message issue = "loan_amount cannot be negative".
Proof.
  intros Hin. unfold audit_loan in Hin. repeat rewrite elem_of_app in Hin.
  destruct Hin as [Hin|[Hin|Hin]].
  - destruct (String.eqb _ ""); [|destruct (_ <? _)%nat];
      repeat (apply elem_of_cons in Hin; destruct Hin as [->|Hin]; [auto|]);
      apply elem_of_nil in Hin; contradiction.
  - destruct (existsb _ _) eqn:E; [apply elem_of_nil in Hin; contradiction|].
    repeat (apply elem_of_cons in Hin; destruct Hin as [->|Hin]; [auto|]).
    apply elem_of_nil in Hin. contradiction.
  - destruct (Loan.loan_amount loan <? 0);
      repeat (apply elem_of_cons in Hin; destruct Hin as [->|Hin]; [auto 6|]);
      apply elem_of_nil in Hin; contradiction.
Qed.

(** The messages of the issues about one repayment. *)
Lemma audit_repayment_messages (loans : list Loan.t) (ids : list (option Z))
    (repayment : Repayment.t) (issue : AuditIssue.t) :
  issue ∈ audit_repayment loans ids repayment ->
  AuditIssue.message issue = "repayment_amount must be positive" \/
  (AuditIssue.message issue = "customer_id does not point to an existing customer" /\
   existsb (opt_Z_eqb (Some (Repayment.customer_id repayment))) ids = false) \/
  AuditIssue.message issue = "loan_id does not point to an existing loan" \/
  AuditIssue.message issue = "repayment loan_id/customer_id mismatch".
Proof.
  intros Hin. unfold audit_repayment in Hin. repeat rewrite elem_of_app in Hin.
  destruct Hin as [Hin|[Hin|Hin]].
  - destruct (_ <=? _);
      repeat (apply elem_of_cons in Hin; destruct Hin as [->|Hin]; [auto|]);
      apply elem_of_nil in Hin; contradiction.
  - destruct (existsb _ _) eqn:E; [apply elem_of_nil in Hin; contradiction|].
    repeat (apply elem_of_cons in Hin; destruct Hin as [->|Hin]; [auto|]).
    apply elem_of_nil in Hin. contradiction.
  - destruct (Repayment.loan_id repayment);
      [|apply elem_of_nil in Hin; contradiction].
    destruct (List.find _ _); [destruct (_ =? _)%Z|];
      repeat (apply elem_of_cons in Hin; destruct Hin as [->|Hin]; [auto 6|]);
      apply elem_of_nil in Hin; contradiction.
Qed.

(** A stored customer that carries its key is among the ids that the
    auditor collects. *)
Lemma stored_customer_id (s : Session) (k : Z) :
  ids_ok s -> is_Some (customers s !! k) ->
  existsb (opt_Z_eqb (Some k)) (Customer.id <$> (snd <$> map_to_list (customers s))) = true.
Proof.
  intros Hids [c Hc]. apply existsb_exists. exists (Customer.id c). split.
  - apply list_elem_of_In, list_elem_of_fmap. exists c. split; [reflexivity|].
    apply rows_of_table. exists k. exact Hc.
  - pose proof (Hids _ _ Hc) as Hid. unfold id_of in Hid.
    destruct (Customer.id c) as [cid|]; [|discriminate].
    destruct (cid =? 0)%Z; [discriminate|]. injection Hid as ->.
    cbn. apply Z.eqb_refl.
Qed.

(** X19.  In every session that the operations reach, each loan and
    each repayment is stored under the key it carries and names a
    customer that is stored; the auditor therefore never reports a
    customer reference that points nowhere. *)
Theorem reachable_rows_name_customers (allowed : operation -> Prop) (s : Session)
    (tolerance : Q) :
  reachable allowed s ->
  (forall key loan, loans s !! key = Some loan ->
     Loan.id loan = Some key /\ is_Some (customers s !! Loan.customer_id loan)) /\
  (forall key r, repayments s !! key = Some r ->
     Repayment.id r = Some key /\ is_Some (customers s !! Repayment.customer_id r)) /\
  (forall issue, issue ∈ AuditReport.issues (run_audit s tolerance) ->
     AuditIssue.message issue <> "customer_id does not point to an existing customer").
Proof.
  intros Hreach.
  pose proof (reachable_references_ok allowed s Hreach) as [Hloans Hreps].
  pose proof (reachable_ids_ok allowed s Hreach) as Hids.
  split; [exact Hloans|]. split; [exact Hreps|].
  intros issue Hin Hmsg.
  destruct (run_audit_issues s tolerance issue Hin)
    as [(k & c & _ & Hc)|[(k & l & Hk & Hl)|(k & r & Hk & Hr)]].
  - unfold audit_customer in Hc. repeat rewrite elem_of_app in Hc.
    destruct Hc as [Hc|[Hc|[Hc|Hc]]].
    + destruct (String.eqb _ ""); [|destruct (_ <? _)%nat];
        repeat (apply elem_of_cons in Hc; destruct Hc as [->|Hc]; [discriminate|]);
        apply elem_of_nil in Hc; contradiction.
    + destruct (_ <? _);
        repeat (apply elem_of_cons in Hc; destruct Hc as [->|Hc]; [discriminate|]);
        apply elem_of_nil in Hc; contradiction.
    + destruct (_ <? _);
        repeat (apply elem_of_cons in Hc; destruct Hc as [->|Hc]; [discriminate|]);
        apply elem_of_nil in Hc; contradiction.
    + destruct (last _) as [latest|]; [|apply elem_of_nil in Hc; contradiction].
      apply elem_of_app in Hc. destruct Hc as [Hc|Hc].
      * destruct (_ <? _);
          repeat (apply elem_of_cons in Hc; destruct Hc as [->|Hc]; [discriminate|]);
          apply elem_of_nil in Hc; contradiction.
      * apply list_elem_of_fmap in Hc. destruct Hc as (entry & -> & _). discriminate.
  - apply audit_loan_messages in Hl.
    destruct Hl as [H|[H|[[_ H]|H]]]; try (rewrite H in Hmsg; discriminate).
    rewrite (stored_customer_id s _ Hids (proj2 (Hloans _ _ Hk))) in H. discriminate.
  - apply audit_repayment_messages in Hr.
    destruct Hr as [H|[[_ H]|[H|H]]]; try (rewrite H in Hmsg; discriminate).
    rewrite (stored_customer_id s _ Hids (proj2 (Hreps _ _ Hk))) in H. discriminate.
Qed.

Lemma reachable_rows_name_customers_witness :
  exists s,
    run_all sample_ops empty_session = inr s /\
    (forall key loan, loans s !! key = Some loan ->
       Loan.id loan = Some key /\ is_Some (customers s !! Loan.customer_id loan)) /\
    (forall key r, repayments s !! key = Some r ->
       Repayment.id r = Some key /\ is_Some (customers s !! Repayment.customer_id r)) /\
    (forall issue, issue ∈ AuditReport.issues (run_audit s (1 # 100)) ->
       AuditIssue.message issue <> "customer_id does not point to an existing customer").
Proof.
  eexists. split; [vm_compute; reflexivity|].
  refine (reachable_rows_name_customers any_operation _ (1 # 100) _).
  eapply (reachable_run_all any_operation sample_ops empty_session).
  - apply reachable_empty.
  - repeat constructor.
  - vm_compute. reflexivity.
Defined.

Lemma find_all_false {A} (f : A -> bool) (l : list A) :
  (forall x, x ∈ l -> f x = false) -> List.find f l = None.
Proof.
  induction l as [|a l IH]; intros H; [reflexivity|].
  cbn [List.find]. rewrite (H a) by apply list_elem_of_here.
  apply IH. intros x Hx. apply H. apply list_elem_of_further. exact Hx.
Qed.

(** The tables after [delete_loan]. *)
Lemma delete_loan_tables (s : Session) loan_id now s' :
  ids_ok s -> delete_loan s loan_id now = inr s' ->
  loans s' = delete loan_id (loans s) /\ repayments s' = repayments s.
Proof.
  intros Hids Hrun. unfold delete_loan in Hrun.
  destruct (loans s !! loan_id) as [loan|]; [|discriminate]. cbn [bind] in Hrun.
  step_bind Hrun. find_customer. pose proof (Hids _ _ Hc) as Hid.
  cbn in Hrun. rows_adjust Hrun. cbn in Hrun.
  rows_record Hrun. rows_bank (Loan.customer_id loan) Hrun. injection Hrun as <-.
  split; rows_back; reflexivity.
Qed.

(** X20.  [delete_loan] removes the loan and nothing else from the
    tables of loans and repayments: the repayments that were made on the
    loan stay, with their [loan_id], and the auditor reports each of
    them as pointing to a loan that does not exist. *)
Theorem delete_loan_keeps_repayments (allowed : operation -> Prop) (s s' : Session)
    (loan_id now : Z) (tolerance : Q) :
  reachable allowed s -> delete_loan s loan_id now = inr s' ->
  loans s' = delete loan_id (loans s) /\
  repayments s' = repayments s /\
  forall key r,
    repayments s !! key = Some r -> Repayment.loan_id r = Some loan_id ->
    exists issue,
      issue ∈ AuditReport.issues (run_audit s' tolerance) /\
      AuditIssue.severity issue = "error" /\
      AuditIssue.category issue = "repayment_reference" /\
      AuditIssue.entity issue = "repayment" /\
      AuditIssue.entity_id issue = Some key /\
      AuditIssue.message issue = "loan_id does not point to an existing loan".
Proof.
  intros Hreach Hrun.
  pose proof (reachable_references_ok allowed s Hreach) as [Hloans Hreps].
  destruct (delete_loan_tables s loan_id now s' (reachable_ids_ok allowed s Hreach) Hrun)
    as [HL HR].
  split; [exact HL|]. split; [exact HR|].
  intros key r Hr Hlid. eexists. split.
  - unfold run_audit. cbn [AuditReport.issues].
    apply elem_of_app. right. apply elem_of_app. right.
    eapply elem_of_concat_fmap_2.
    + apply rows_of_table. exists key. rewrite HR. exact Hr.
    + unfold audit_repayment. apply elem_of_app. right. apply elem_of_app. right.
      rewrite Hlid. rewrite find_all_false; [apply list_elem_of_here|].
      intros loan Hin. apply list_elem_of_In, in_rev, list_elem_of_In in Hin.
      apply rows_of_table in Hin.
      destruct Hin as (k & Hk). rewrite HL in Hk.
      apply lookup_delete_Some in Hk. destruct Hk as [Hne Hk].
      destruct (Hloans _ _ Hk) as [Hi _]. rewrite Hi. cbn.
      apply Z.eqb_neq. congruence.
  - cbn. destruct (Hreps _ _ Hr) as [Hi _]. rewrite Hi. repeat split.
Qed.

Lemma delete_loan_keeps_repayments_witness :
  exists s s',
    run_all sample_ops empty_session = inr s /\
    delete_loan s 1 sample_now = inr s' /\
    loans s' = delete 1%Z (loans s) /\
    repayments s' = repayments s /\
    forall key r,
      repayments s !! key = Some r -> Repayment.loan_id r = Some 1%Z ->
      exists issue,
        issue ∈ AuditReport.issues (run_audit s' (1 # 100)) /\
        AuditIssue.severity issue = "error" /\
        AuditIssue.category issue = "repayment_reference" /\
        AuditIssue.entity issue = "repayment" /\
        AuditIssue.entity_id issue = Some key /\
        AuditIssue.message issue = "loan_id does not point to an existing loan".
Proof.
  eexists. eexists. split; [vm_compute; reflexivity|].
  split; [vm_compute; reflexivity|].
  refine (delete_loan_keeps_repayments any_operation _ _ 1 sample_now (1 # 100) _ _).
  - eapply (reachable_run_all any_operation sample_ops empty_session).
    + apply reachable_empty.
    + repeat constructor.
    + vm_compute. reflexivity.
  - vm_compute. reflexivity.
Defined.


(** ** A repayment and the balance of its loan *)

Lemma paid_sum_perm (sel : Z * Repayment.t -> bool) (l l' : list (Z * Repayment.t)) :
  l ≡ₚ l' ->
  Qsum ((fun r => Qabs (Repayment.repayment_amount r)) <$> (snd <$> List.filter sel l))
  == Qsum ((fun r => Qabs (Repayment.repayment_amount r)) <$> (snd <$> List.filter sel l')).
Proof.
  induction 1 as [|x l l' _ IH|x y l|l1 l2 l3 _ IH1 _ IH2].
  - reflexivity.
  - cbn [List.filter]. destruct (sel x); [|exact IH].
    cbn [fmap list_fmap]. unfold Qsum in *. cbn [fold_right]. rewrite IH. reflexivity.
  - cbn [List.filter]. destruct (sel x), (sel y); cbn [fmap list_fmap];
      unfold Qsum; cbn [fold_right]; lra.
  - rewrite IH1. exact IH2.
Qed.

(** The tables after [create_repayment], and the guard it has passed. *)
Lemma create_repayment_tables (s : Session) repayment now row s' :
  ids_ok s -> create_repayment s repayment now = inr (row, s') ->
  loans s' = loans s /\
  Repayment.loan_id row = Repayment.loan_id repayment /\
  Repayment.repayment_amount row = Repayment.repayment_amount repayment /\
  (exists key, repayments s !! key = None /\
               repayments s' = <[key := row]> (repayments s)) /\
  (forall lid loan,
     truthy (Repayment.loan_id repayment) = Some lid -> loans s !! lid = Some loan ->
     _ensure_repayment_within_loan_balance s loan
       (Repayment.repayment_amount repayment) None = inr s).
Proof.
  intros Hids Hrun. unfold create_repayment in Hrun.
  step_bind Hrun. find_customer. pose proof (Hids _ _ Hc) as Hid.
  step_bind Hrun. step_bind Hrun.
  assert (Hguard : forall lid loan,
             truthy (Repayment.loan_id repayment) = Some lid ->
             loans s !! lid = Some loan ->
             _ensure_repayment_within_loan_balance s loan
               (Repayment.repayment_amount repayment) None = inr s).
  { intros lid loan Ht Hl.
    match goal with
    | H : match _ with Some _ => _ | None => _ end = inr s0 |- _ =>
        rewrite Ht, Hl in H; pose proof (guard_inr _ _ _ _ _ H) as E; subst s0; exact H
    end. }
  assert (Hs0 : s0 = s).
  { destruct (match truthy (Repayment.loan_id repayment) with
              | Some lid => loans s !! lid
              | None => None
              end) as [loan|].
    - eapply guard_inr; eauto.
    - match goal with H : inr _ = inr _ |- _ => injection H as <- end. reflexivity. }
  subst s0. cbn in Hrun. rows_advance Hrun. cbn in Hrun. rows_adjust Hrun. cbn in Hrun.
  step_bind Hrun. cbn in Hrun. rows_record Hrun.
  rows_bank (Repayment.customer_id repayment) Hrun.
  injection Hrun as <- <-.
  match goal with
  | Hk : flush_key _ _ = inr _ |- _ => apply flush_key_fresh in Hk; rename Hk into Hfresh
  end.
  split; [rows_back; reflexivity|]. split; [reflexivity|]. split; [reflexivity|].
  split; [|exact Hguard].
  eexists. split; [|rows_back; reflexivity].
  revert Hfresh. rows_back. auto.
Qed.

(** X21.  A repayment that [create_repayment] accepts on a loan lowers
    the remaining compounded balance of that loan by the amount of the
    repayment, sign apart, and had an amount of at most that balance:
    this for amounts of two decimals, in a session that the operations
    have reached. *)
Theorem accepted_repayment_lowers_remaining (allowed : operation -> Prop) (s s' : Session)
    (repayment row : Repayment.t) (now lid : Z) (loan : Loan.t) :
  reachable allowed s ->
  loans s !! lid = Some loan -> lid <> 0%Z ->
  Repayment.loan_id repayment = Some lid ->
  is_cents (Repayment.repayment_amount repayment) ->
  (forall r, r ∈ repayments_on_loan s loan None ->
             is_cents (Repayment.repayment_amount r)) ->
  create_repayment s repayment now = inr (row, s') ->
  loans s' !! lid = Some loan /\
  Qabs (Repayment.repayment_amount repayment)
  <= _loan_remaining_compounded_balance s loan None /\
  _loan_remaining_compounded_balance s' loan None
  == _loan_remaining_compounded_balance s loan None
     - Qabs (Repayment.repayment_amount repayment).
Proof.
  intros Hreach Hl Hnz Hlid Hc Hstored Hrun.
  destruct (create_repayment_tables s repayment now row s'
              (reachable_ids_ok allowed s Hreach) Hrun)
    as (HL & Hrl & Hra & (key & Hfresh & HR) & Hguard).
  destruct (reachable_references_ok allowed s Hreach) as [Hloans _].
  destruct (Hloans _ _ Hl) as [Hkey _].
  assert (Ht : truthy (Repayment.loan_id repayment) = Some lid).
  { rewrite Hlid. cbn. destruct (Z.eqb_spec lid 0); [contradiction|reflexivity]. }
  specialize (Hguard lid loan Ht Hl).
  set (a := Qabs (Repayment.repayment_amount repayment)) in *.
  pose proof (is_cents_abs _ Hc) as Hca. fold a in Hca.
  pose proof (Qabs_nonneg (Repayment.repayment_amount repayment)) as Ha0. fold a in Ha0.
  set (C := _initial_compounded_amount (Loan.loan_amount loan)).
  pose proof (_initial_compounded_amount_cents (Loan.loan_amount loan)) as HC. fold C in HC.
  (* what was paid before, and after *)
  assert (HP : is_cents (paid_total s loan None)).
  { unfold paid_total. apply Qsum_cents, Forall_fmap, Forall_forall.
    intros r Hr. cbn. apply is_cents_abs, Hstored, Hr. }
  assert (HP' : paid_total s' loan None == paid_total s loan None + a).
  { unfold paid_total, repayments_on_loan. rewrite HR.
    rewrite (paid_sum_perm _ _ _ (map_to_list_insert _ _ _ Hfresh)).
    cbn [List.filter fst snd]. rewrite Hkey, Hrl, Hlid, Z.eqb_refl.
    cbn [andb fmap list_fmap]. unfold Qsum. cbn [fold_right snd].
    rewrite Hra. fold a. lra. }
  (* the two balances *)
  assert (Hrem : _loan_remaining_compounded_balance s loan None
                 == py_max (C - paid_total s loan None) 0).
  { unfold _loan_remaining_compounded_balance. fold C.
    assert (E : _round_amount (C - paid_total s loan None) == C - paid_total s loan None).
    { apply _round_amount_id, is_cents_plus; [exact HC|apply is_cents_opp; exact HP]. }
    destruct (py_max_spec (_round_amount (C - paid_total s loan None)) 0) as [[H1 ->]|[H1 ->]];
      destruct (py_max_spec (C - paid_total s loan None) 0) as [[H2 ->]|[H2 ->]]; lra. }
  assert (Hrem' : _loan_remaining_compounded_balance s' loan None
                  == py_max (C - paid_total s loan None - a) 0).
  { unfold _loan_remaining_compounded_balance. fold C.
    assert (E : _round_amount (C - paid_total s' loan None)
                == C - paid_total s loan None - a).
    { rewrite (_round_amount_comp _ (C - paid_total s loan None - a)) by (rewrite HP'; lra).
      apply _round_amount_id. apply is_cents_plus; [|apply is_cents_opp; exact Hca].
      apply is_cents_plus; [exact HC|apply is_cents_opp; exact HP]. }
    destruct (py_max_spec (_round_amount (C - paid_total s' loan None)) 0) as [[H1 ->]|[H1 ->]];
      destruct (py_max_spec (C - paid_total s loan None - a) 0) as [[H2 ->]|[H2 ->]]; lra. }
  (* the guard *)
  assert (Hle : a <= _loan_remaining_compounded_balance s loan None).
  { pose proof (remaining_cents s loan None) as Hrc.
    assert (Hp : py_max (_round_amount a) 0 == a).
    { rewrite py_max_id.
      - apply _round_amount_id. exact Hca.
      - rewrite (_round_amount_id _ Hca). exact Ha0. }
    destruct (guard_cases s loan (Repayment.repayment_amount repayment) None)
      as [(_ & _ & E)|[(_ & _ & E)|(_ & H2 & _)]];
      [rewrite E in Hguard; discriminate|rewrite E in Hguard; discriminate|].
    fold a in H2. rewrite Hp in H2.
    apply Qnot_lt_le. intros Hlt.
    pose proof (is_cents_gap _ _ Hrc Hca Hlt) as Hgap. unfold eps in H2. lra. }
  split; [rewrite HL; exact Hl|]. split; [exact Hle|].
  rewrite Hrem', Hrem. rewrite Hrem in Hle.
  destruct (py_max_spec (C - paid_total s loan None) 0) as [[H1 E1]|[H1 E1]];
    rewrite E1 in Hle |- *;
    destruct (py_max_spec (C - paid_total s loan None - a) 0) as [[H2 ->]|[H2 ->]]; lra.
Qed.

Lemma accepted_repayment_lowers_remaining_witness :
  exists s row s',
    run_all sample_ops empty_session = inr s /\
    create_repayment s (repayment_of 1 1 100 sample_now) sample_now = inr (row, s') /\
    loans s' !! 1%Z = Some loan_500_stored /\
    Qabs (Repayment.repayment_amount (repayment_of 1 1 100 sample_now))
    <= _loan_remaining_compounded_balance s loan_500_stored None /\
    _loan_remaining_compounded_balance s' loan_500_stored None
    == _loan_remaining_compounded_balance s loan_500_stored None
       - Qabs (Repayment.repayment_amount (repayment_of 1 1 100 sample_now)).
Proof.
  eexists. eexists. eexists. split; [vm_compute; reflexivity|].
  split; [vm_compute; reflexivity|].
  refine (accepted_repayment_lowers_remaining any_operation _ _
            (repayment_of 1 1 100 sample_now) _ sample_now 1 loan_500_stored _ _ _ _ _ _ _).
  - eapply (reachable_run_all any_operation sample_ops empty_session).
    + apply reachable_empty.
    + repeat constructor.
    + vm_compute. reflexivity.
  - vm_compute. reflexivity.
  - discriminate.
  - reflexivity.
  - exists 10000%Z. reflexivity.
  - intros r Hr. vm_compute in Hr. apply elem_of_cons in Hr.
    destruct Hr as [->|Hr]; [exists 20000%Z; reflexivity|].
    apply elem_of_nil in Hr. contradiction.
  - vm_compute. reflexivity.
Defined.


(** ** A loan created and deleted again *)







